(** * iQ-auth: a shallow embedding of the authentication core

  The development follows the TypeScript sources of the repository:

  - [packages/plugins/fido2/src/index.ts]   (module [FIDO2])
  - [packages/core/src/providers/email-password.ts] (modules [EmailPassword]
    and [EmailAccounts])
  - [packages/core/src/plugin-loader/index.ts] (module [PluginLoader])
  - [packages/core/src/storage/in-memory.ts] (module [InMemoryStorage])
  - [packages/core/src/registry/identity-registry.ts] (module [IdentityRegistry])
  - [packages/core/src/index.ts] (module [IQAuth])

  JavaScript strings are sequences of UTF-16 code units; they are modelled
  as lists of integers, so that [charCodeAt], [split] and string
  concatenation read as in the source.  Integral JavaScript numbers are
  modelled by [Z]; a number that may be [NaN] is an [option Z]. *)

From Stdlib Require Import ZArith List Lia String Ascii Bool.
From stdpp Require Import base decidable option list countable gmap.

Local Open Scope Z_scope.

(** ** JavaScript strings and numbers *)

Module JS.

(** A string is its sequence of UTF-16 code units. *)
Abbreviation jsstring := (list Z).

(** String literals of the source, written as Rocq literals. *)
Definition lit (s : string) : jsstring :=
  List.map (fun a => Z.of_N (N_of_ascii a)) (list_ascii_of_string s).

Definition colon : Z := 58.
Definition minus : Z := 45.
Definition plus : Z := 43.

(** [s.split(sep)] for a separator of one code unit. *)
Fixpoint split (sep : Z) (s : jsstring) : list jsstring :=
  match s with
  | [] => [[]]
  | c :: s' =>
      if c =? sep then [] :: split sep s'
      else match split sep s' with
           | p :: ps => (c :: p) :: ps
           | [] => [[c]]
           end
  end.

(** [s.substring(a, b)] for [0 <= a <= b]. *)
Definition substring (a b : nat) (s : jsstring) : jsstring :=
  take (b - a) (drop a s).

(** Digits of [Number.prototype.toString(radix)]: ['0'..'9'], then
    ['a'..'z']. *)
Definition digitChar (d : Z) : Z := if d <? 10 then 48 + d else 87 + d.

(** The characters [toString] can produce. *)
Definition digitLike (c : Z) : Prop := 48 <= c <= 57 \/ 97 <= c <= 122.

Fixpoint toDigits (radix : Z) (fuel : nat) (n : Z) (acc : jsstring)
  : jsstring :=
  match fuel with
  | O => acc
  | S f =>
      let acc' := digitChar (n mod radix) :: acc in
      if n / radix =? 0 then acc' else toDigits radix f (n / radix) acc'
  end.

(** More iterations than the number has digits in any radix [>= 2]. *)
Definition digitFuel (n : Z) : nat := S (Z.to_nat (Z.log2 n)).

(** [n.toString(radix)] for an integral [n] (below 10^21 in magnitude,
    where JavaScript prints every digit). *)
Definition numberToString (radix : Z) (n : Z) : jsstring :=
  if n <? 0 then minus :: toDigits radix (digitFuel (- n)) (- n) []
  else toDigits radix (digitFuel n) n [].

(** White space and line terminators skipped by [parseInt]
    (ECMAScript [StrWhiteSpaceChar]). *)
Definition isWhiteSpace (c : Z) : bool :=
  (c =? 9) || (c =? 10) || (c =? 11) || (c =? 12) || (c =? 13)
  || (c =? 32) || (c =? 160) || (c =? 5760)
  || ((8192 <=? c) && (c <=? 8202))
  || (c =? 8232) || (c =? 8233) || (c =? 8239) || (c =? 8287)
  || (c =? 12288) || (c =? 65279).

Fixpoint trimStart (s : jsstring) : jsstring :=
  match s with
  | c :: s' => if isWhiteSpace c then trimStart s' else s
  | [] => []
  end.

Definition digitValue (c : Z) : option Z :=
  if (48 <=? c) && (c <=? 57) then Some (c - 48) else None.

(** Longest prefix of decimal digits; [acc] is [None] until a digit has
    been read. *)
Fixpoint parseDigits (s : jsstring) (acc : option Z) : option Z :=
  match s with
  | [] => acc
  | c :: s' =>
      match digitValue c with
      | Some d => parseDigits s' (Some (10 * default 0 acc + d))
      | None => acc
      end
  end.

(** [parseInt(s, 10)]; [None] is [NaN].  The result is the exact integer:
    the source only feeds it to [new Date], whose range check
    ([newDate] below) discards every value large enough to be rounded. *)
Definition parseInt (s : jsstring) : option Z :=
  match trimStart s with
  | c :: r =>
      if c =? minus then Z.opp <$> parseDigits r None
      else if c =? plus then parseDigits r None
      else parseDigits (c :: r) None
  | [] => None
  end.

(** A [Date] object: a time value in milliseconds, or an invalid date. *)
Inductive Date := DateAt (t : Z) | InvalidDate.

Definition maxTime : Z := 8640000000000000.

(** [new Date(v)] for a number [v] ([TimeClip]). *)
Definition newDate (v : option Z) : Date :=
  match v with
  | Some t => if Z.abs t <=? maxTime then DateAt t else InvalidDate
  | None => InvalidDate
  end.

(** [d.getTime()]; [None] is [NaN]. *)
Definition getTime (d : Date) : option Z :=
  match d with DateAt t => Some t | InvalidDate => None end.

(** [a > b] where [b] may be [NaN]. *)
Definition gt (a : Z) (b : option Z) : bool :=
  match b with Some b => b <? a | None => false end.

(** [x | 0]: conversion to a signed 32-bit integer. *)
Definition toInt32 (z : Z) : Z := (z + 2 ^ 31) mod 2 ^ 32 - 2 ^ 31.

(** [s.replace(/c/g, d)] for single code units. *)
Definition replaceAll (c d : Z) (s : jsstring) : jsstring :=
  List.map (fun x => if x =? c then d else x) s.

(** [s.replace(/c/g, '')]. *)
Definition removeAll (c : Z) (s : jsstring) : jsstring :=
  List.filter (fun x => negb (x =? c)) s.

(** [a || b] on strings that may be undefined: the empty string is falsy. *)
Definition orString (a b : option jsstring) : option jsstring :=
  match a with
  | Some (_ :: _) => a
  | _ => b
  end.

(** A thrown value: an [Error] with its message, or anything else. *)
Inductive Exn :=
| JsError (message : jsstring)
| NotAnError.

(** [error instanceof Error ? error.message : 'Unknown error']. *)
Definition errorMessage (e : Exn) : jsstring :=
  match e with
  | JsError m => m
  | NotAnError => lit "Unknown error"
  end.

(** What a call into the platform does: it returns or it throws. *)
Inductive Attempt (A : Type) :=
| Returns (a : A)
| Throws (e : Exn).
Arguments Returns {A} a.
Arguments Throws {A} e.

(** How a call ends: it returns, it throws, or it leaves the fragment
    covered by this development ([Stuck]).  None of the methods below ends
    in [Stuck]; the lemmas named [_stuck_free] and the frame theorems say
    so where a proof needs it. *)
Inductive Completion (A : Type) :=
| Return (a : A)
| Throw (e : Exn)
| Stuck.
Arguments Return {A} a.
Arguments Throw {A} e.
Arguments Stuck {A}.

Definition completion {A} (a : Attempt A) : Completion A :=
  match a with
  | Returns x => Return x
  | Throws e => Throw e
  end.

Definition mapCompletion {A B} (f : A -> B) (c : Completion A)
  : Completion B :=
  match c with
  | Return a => Return (f a)
  | Throw e => Throw e
  | Stuck => Stuck
  end.

End JS.

Import JS.

(** ** Result shapes and identities ([packages/core/src/types.ts]) *)

Module Types.

Record AuthResult := {
  success : bool;
  ar_token : option jsstring;
  ar_userId : option jsstring;
  (** [metadata: { credentialId, counter }] of the FIDO2 provider *)
  ar_metadata : option (jsstring * Z);
  ar_error : option jsstring
}.

Record VerifyResult := {
  valid : bool;
  vr_userId : option jsstring;
  vr_expiresAt : option Date;
  vr_error : option jsstring
}.

(** A value of a [Record<string, unknown>] attribute bag. *)
#[warnings="-register-all"]
Inductive JsValue :=
| JNull
| JBool (b : bool)
| JNumber (z : Z)
| JString (s : jsstring)
| JObject (fields : list (jsstring * JsValue)).

(** [{ ...bag, key: v }]: an own key keeps its place, a new one is added
    last. *)
Fixpoint setField (key : jsstring) (v : JsValue)
  (bag : list (jsstring * JsValue)) : list (jsstring * JsValue) :=
  match bag with
  | [] => [(key, v)]
  | (k, v') :: bag' =>
      if bool_decide (k = key) then (k, v) :: bag'
      else (k, v') :: setField key v bag'
  end.

(** [IDENTITY_TYPES] of [constants.ts]. *)
Inductive IdentityType := DEVICE | BIOMETRIC | SOCIAL | WALLET | GOVERNMENT.

Definition identityTypeName (t : IdentityType) : jsstring :=
  match t with
  | DEVICE => lit "device"
  | BIOMETRIC => lit "biometric"
  | SOCIAL => lit "social"
  | WALLET => lit "wallet"
  | GOVERNMENT => lit "government"
  end.

Record Identity := {
  id : jsstring;
  type : IdentityType;
  userId : jsstring;
  provider : jsstring;
  data : list (jsstring * JsValue);
  verified : bool;
  createdAt : Date;
  updatedAt : Date
}.

End Types.

Import Types.

(** ** The provider contract: session tokens

  [FIDO2Provider.verify]/[generateSessionToken] and
  [EmailPasswordProvider.verify]/[generateToken] have the same body; they
  differ in [signToken] only, which is a parameter here. *)


Module Provider.
Section Contract.

(** [signToken(userId, timestamp)] of the provider. *)
Variable signToken : jsstring -> jsstring -> jsstring.

Definition day : Z := 24 * 60 * 60 * 1000.

Definition rejected (reason : string) : VerifyResult :=
  {| valid := false; vr_userId := None; vr_expiresAt := None;
     vr_error := Some (lit reason) |}.

Definition accepted (userId : jsstring) (expires : Date) : VerifyResult :=
  {| valid := true; vr_userId := Some userId;
     vr_expiresAt := Some expires; vr_error := None |}.

(** [new Date(parseInt(timestamp, 10) + 24 * 60 * 60 * 1000)] *)
Definition expiry (timestamp : jsstring) : Date :=
  newDate ((fun t => t + day) <$> parseInt timestamp).

(** [verify(token)], evaluated when [Date.now()] is [now].  No step of the
    [try] block throws on a string (the environment is taken to define
    [process.env]), so the [catch] branch and its reason "Token verification
    failed" are never reached; the reason stands in the one impossible case
    of the destructuring below. *)
Definition verify (token : jsstring) (now : Z) : VerifyResult :=
  let parts := split colon token in
  if negb (length parts =? 3)%nat then rejected "Invalid token format"
  else
    match parts with
    | [userId; timestamp; signature] =>
        let expectedSignature := signToken userId timestamp in
        if negb (bool_decide (signature = expectedSignature)) then
          rejected "Invalid token signature"
        else
          let expires := expiry timestamp in
          if gt now (getTime expires) then rejected "Token expired"
          else accepted userId expires
    | _ => rejected "Token verification failed"
    end.

(** The three ways a token can be refused. *)
Definition malformed (token : jsstring) : Prop :=
  length (split colon token) <> 3%nat.

Definition tampered (token : jsstring) : Prop :=
  exists u t s, split colon token = [u; t; s] /\ s <> signToken u t.

Definition pastExpiry (token : jsstring) (now : Z) : Prop :=
  exists u t s e,
    split colon token = [u; t; s] /\ s = signToken u t /\
    getTime (expiry t) = Some e /\ e < now.

(** [r] is the verdict on [token]: each reason is given exactly to the
    tokens of its kind, and a token is valid when no reason applies. *)
Definition classified (token : jsstring) (now : Z) (r : VerifyResult) : Prop :=
  (vr_error r = Some (lit "Invalid token format") <-> malformed token) /\
  (vr_error r = Some (lit "Invalid token signature") <-> tampered token) /\
  (vr_error r = Some (lit "Token expired") <-> pastExpiry token now) /\
  (valid r = false <->
   malformed token \/ tampered token \/ pastExpiry token now) /\
  (valid r = true <-> vr_error r = None).

(** The token minter, evaluated when [Date.now()] is [now]. *)
Definition generateToken (userId : jsstring) (now : Z) : jsstring :=
  let timestamp := numberToString 10 now in
  let signature := signToken userId timestamp in
  userId ++ colon :: timestamp ++ colon :: signature.

End Contract.
End Provider.

(** ** Effects: mutable state, exceptions and the environment's oracles

    A computation runs in a world made of the object's state and the number
    of readings taken so far from the environment (clock, random source,
    platform calls); the n-th reading is given by the platform record of the
    module at hand, so that successive readings may differ. *)

Module Eff.

Record World (S : Type) := mkWorld { steps : nat; state : S }.
Arguments mkWorld {S} steps state.
Arguments steps {S} w.
Arguments state {S} w.

Definition t (S A : Type) : Type := World S -> Completion A * World S.

Section Ops.
Context {S : Type}.

Definition ret {A} (a : A) : t S A := fun w => (Return a, w).

Definition throw {A} (e : Exn) : t S A := fun w => (Throw e, w).

Definition stuck {A} : t S A := fun w => (Stuck, w).

Definition bind {A B} (m : t S A) (k : A -> t S B) : t S B :=
  fun w =>
    match m w with
    | (Return a, w') => k a w'
    | (Throw e, w') => (Throw e, w')
    | (Stuck, w') => (Stuck, w')
    end.

(** [try { m } catch (error) { handler(error) }]: the state changes made
    before the throw are kept. *)
Definition tryCatch {A} (m : t S A) (handler : Exn -> t S A) : t S A :=
  fun w =>
    match m w with
    | (Throw e, w') => handler e w'
    | r => r
    end.

Definition get : t S S := fun w => (Return (state w), w).

Definition modify (f : S -> S) : t S unit :=
  fun w => (Return tt, mkWorld (steps w) (f (state w))).

(** Take the next reading from the environment. *)
Definition reading {A} (oracle : nat -> A) : t S A :=
  fun w => (Return (oracle (steps w)), mkWorld (Datatypes.S (steps w)) (state w)).

(** A platform call that may throw. *)
Definition call {A} (oracle : nat -> Attempt A) : t S A :=
  fun w =>
    (completion (oracle (steps w)), mkWorld (Datatypes.S (steps w)) (state w)).

(** A call that needs neither the state nor the environment. *)
Definition lift {A} (c : Attempt A) : t S A := fun w => (completion c, w).

Fixpoint mapM {A B} (f : A -> t S B) (l : list A) : t S (list B) :=
  match l with
  | [] => ret []
  | x :: l' => bind (f x) (fun y => bind (mapM f l') (fun ys => ret (y :: ys)))
  end.

End Ops.

Module Notations.
Notation "'let*' x := c1 'in' c2" := (bind c1 (fun x => c2))
  (at level 10, x name, c1 at level 100, c2 at level 200).
Notation "'do*' c1 'in' c2" := (bind c1 (fun _ => c2))
  (at level 10, c1 at level 100, c2 at level 200).
End Notations.

End Eff.

Import Eff.Notations.

(** ** The FIDO2/WebAuthn provider ([packages/plugins/fido2/src/index.ts]) *)


Module FIDO2.

(** [AuthenticatorSelectionCriteria] of the WebAuthn API. *)
Record AuthenticatorSelectionCriteria := {
  authenticatorAttachment : option jsstring;
  residentKey : option jsstring;
  requireResidentKey : option bool;
  sel_userVerification : option jsstring
}.

Record FIDO2Config := {
  rpName : jsstring;
  rpId : jsstring;
  origin : jsstring;
  timeout : option Z;
  attestation : option jsstring;
  authenticatorSelection : option AuthenticatorSelectionCriteria;
  userVerification : option jsstring
}.

Record FIDO2Credential := {
  id : jsstring;
  publicKey : jsstring;
  counter : Z;
  userId : jsstring;
  transports : option (list jsstring);
  createdAt : Date
}.

Record RegistrationOptions := {
  ro_userId : jsstring;
  userName : jsstring;
  userDisplayName : jsstring;
  excludeCredentials : option (list FIDO2Credential);
  ro_authenticatorSelection : option AuthenticatorSelectionCriteria
}.

Record AuthenticationOptions := {
  allowCredentials : option (list FIDO2Credential);
  ao_userVerification : option jsstring
}.

(** [{ id, type: 'public-key', transports }] *)
Record CredentialDescriptor := {
  cd_id : list Z;
  cd_transports : option (list jsstring)
}.

Record PublicKeyCredentialCreationOptions := {
  co_challenge : list Z;
  co_rp : jsstring * jsstring;
  (** [user: { id, name, displayName }] *)
  co_user : list Z * jsstring * jsstring;
  (** [pubKeyCredParams]: the [alg] of each entry *)
  co_pubKeyCredParams : list Z;
  co_timeout : option Z;
  co_attestation : option jsstring;
  co_excludeCredentials : option (list CredentialDescriptor);
  co_authenticatorSelection : option AuthenticatorSelectionCriteria
}.

Record PublicKeyCredentialRequestOptions := {
  rq_challenge : list Z;
  rq_timeout : option Z;
  rq_rpId : jsstring;
  rq_allowCredentials : option (list CredentialDescriptor);
  rq_userVerification : option jsstring
}.

(** The fields of the parsed [clientDataJSON] the provider reads; [None]
    is any value that is not a string. *)
Record ClientData := {
  cd_type : option jsstring;
  cd_origin : option jsstring
}.

(** A [PublicKeyCredential] with an [AuthenticatorAttestationResponse]. *)
Record AttestationCredential := {
  at_rawId : list Z;
  at_clientDataJSON : list Z;
  (** [response.getPublicKey()], [null] when unavailable *)
  at_publicKey : option (list Z);
  (** [response.getTransports?.()] *)
  at_transports : option (list jsstring)
}.

(** A [PublicKeyCredential] with an [AuthenticatorAssertionResponse]. *)
Record AssertionCredential := {
  as_rawId : list Z;
  as_clientDataJSON : list Z;
  as_authenticatorData : list Z
}.

(** What the provider asks of its environment.  Stateful sources are
    indexed by the number of readings taken before. *)
Record Platform := {
  (** [typeof window !== 'undefined' &&
      typeof window.PublicKeyCredential !== 'undefined'] *)
  hasWebAuthn : bool;
  (** [process.env.JWT_SECRET] *)
  jwtSecret : option jsstring;
  (** [Date.now()] *)
  dateNow : nat -> Z;
  (** [Math.random().toString(36)] *)
  mathRandom36 : nat -> jsstring;
  (** the bytes written by [crypto.getRandomValues(new Uint8Array(32))] *)
  getRandomValues : nat -> list Z;
  btoa : jsstring -> jsstring;
  atob : jsstring -> Attempt jsstring;
  (** [new TextEncoder().encode(str)] *)
  textEncode : jsstring -> list Z;
  (** [JSON.parse(new TextDecoder().decode(buffer))], then the reads of
      [.type] and [.origin] *)
  parseClientData : list Z -> Attempt ClientData;
  (** message of the [RangeError] of [DataView.getUint32] *)
  rangeErrorMessage : jsstring;
  (** [navigator.credentials.create({ publicKey })] *)
  credentialsCreate :
    nat -> PublicKeyCredentialCreationOptions ->
    Attempt (option AttestationCredential);
  (** [navigator.credentials.get({ publicKey })] *)
  credentialsGet :
    nat -> PublicKeyCredentialRequestOptions ->
    Attempt (option AssertionCredential)
}.

Record ChallengeEntry := {
  challenge : list Z;
  timestamp : Z
}.

(** The private fields of a [FIDO2Provider]. *)
Record Provider := {
  config : FIDO2Config;
  credentials : gmap jsstring FIDO2Credential;
  challenges : gmap jsstring ChallengeEntry
}.

(** [credential.counter = c] *)
Definition setCounter (c : Z) (credential : FIDO2Credential)
  : FIDO2Credential :=
  {| id := id credential; publicKey := publicKey credential; counter := c;
     userId := userId credential; transports := transports credential;
     createdAt := createdAt credential |}.

Definition setCredentials (f : gmap jsstring FIDO2Credential ->
                               gmap jsstring FIDO2Credential)
  (p : Provider) : Provider :=
  {| config := config p; credentials := f (credentials p);
     challenges := challenges p |}.

Definition setChallenges (f : gmap jsstring ChallengeEntry ->
                              gmap jsstring ChallengeEntry)
  (p : Provider) : Provider :=
  {| config := config p; credentials := credentials p;
     challenges := f (challenges p) |}.

(** [constructor(config)]: defaults, overridden by the fields given. *)
Definition new (c : FIDO2Config) : Provider :=
  {| config :=
       {| rpName := rpName c; rpId := rpId c; origin := origin c;
          timeout := Some (default 60000 (timeout c));
          attestation := Some (default (lit "none") (attestation c));
          authenticatorSelection := authenticatorSelection c;
          userVerification :=
            Some (default (lit "preferred") (userVerification c)) |};
     credentials := ∅;
     challenges := ∅ |}.

(** The loop of [signToken]: [hash = (hash << 5) - hash + code;
    hash = hash & hash]. *)
Definition hashStep (hash : Z) (code : Z) : Z :=
  toInt32 (toInt32 (hash * 32) - hash + code).

Section WithPlatform.
Variable pf : Platform.

Abbreviation M := (Eff.t Provider).

Definition isSupported : bool := hasWebAuthn pf.

(** [process.env.JWT_SECRET || 'change-this-in-production'] *)
Definition secret : jsstring :=
  default (lit "change-this-in-production")
    (orString (jwtSecret pf) None).

Definition signToken (userId timestamp : jsstring) : jsstring :=
  let data := userId ++ colon :: timestamp ++ colon :: secret in
  let hash := fold_left hashStep data 0 in
  numberToString 36 (Z.abs hash).

(** [generateSessionToken(userId)] when [Date.now()] is [now]. *)
Definition generateSessionToken (userId : jsstring) (now : Z) : jsstring :=
  Provider.generateToken signToken userId now.

(** [verify(token)] when [Date.now()] is [now]. *)
Definition verify (token : jsstring) (now : Z) : VerifyResult :=
  Provider.verify signToken token now.

Definition getCounterFromAuthData (authData : list Z) : Attempt Z :=
  match take 4 (drop 33 authData) with
  | [b0; b1; b2; b3] => Returns (((b0 * 256 + b1) * 256 + b2) * 256 + b3)
  | _ => Throws (JsError (rangeErrorMessage pf))
  end.

Definition arrayBufferToBase64Url (buffer : list Z) : jsstring :=
  removeAll 61 (replaceAll 47 95 (replaceAll 43 45 (btoa pf buffer))).

Definition base64UrlToArrayBuffer (base64url : jsstring)
  : Attempt (list Z) :=
  let base64 := replaceAll 95 47 (replaceAll 45 43 base64url) in
  match atob pf base64 with
  | Returns binary => Returns (List.map (fun c => c mod 256) binary)
  | Throws e => Throws e
  end.

Definition generateChallenge : M (list Z) :=
  Eff.reading (getRandomValues pf).

Definition generateChallengeId : M jsstring :=
  let* now := Eff.reading (dateNow pf) in
  let* r := Eff.reading (mathRandom36 pf) in
  Eff.ret (lit "challenge-" ++ numberToString 10 now ++ lit "-" ++ drop 2 r).

Definition descriptor (cred : FIDO2Credential) : M CredentialDescriptor :=
  let* raw := Eff.lift (base64UrlToArrayBuffer (id cred)) in
  Eff.ret {| cd_id := raw; cd_transports := transports cred |}.

(** [creds?.map(cred => ({ id: ..., type: 'public-key', transports }))] *)
Definition descriptors (creds : option (list FIDO2Credential))
  : M (option (list CredentialDescriptor)) :=
  match creds with
  | Some l => let* ds := Eff.mapM descriptor l in Eff.ret (Some ds)
  | None => Eff.ret None
  end.

Definition generateRegistrationOptions (options : RegistrationOptions)
  : M PublicKeyCredentialCreationOptions :=
  let* challenge := generateChallenge in
  let* now := Eff.reading (dateNow pf) in
  do* Eff.modify (setChallenges
        <[ro_userId options := {| challenge := challenge; timestamp := now |}]>) in
  let* p := Eff.get in
  let* excl := descriptors (excludeCredentials options) in
  Eff.ret
    {| co_challenge := challenge;
       co_rp := (rpName (config p), rpId (config p));
       co_user := (textEncode pf (ro_userId options), userName options,
                   userDisplayName options);
       co_pubKeyCredParams := [-7; -257];
       co_timeout := timeout (config p);
       co_attestation := attestation (config p);
       co_excludeCredentials := excl;
       co_authenticatorSelection :=
         match ro_authenticatorSelection options with
         | Some s => Some s
         | None => authenticatorSelection (config p)
         end |}.

Definition register (options : RegistrationOptions) : M FIDO2Credential :=
  if negb isSupported then
    Eff.throw (JsError (lit "WebAuthn is not supported in this environment"))
  else
    let* publicKeyOptions := generateRegistrationOptions options in
    Eff.tryCatch
      (let* credential :=
         Eff.call (fun n => credentialsCreate pf n publicKeyOptions) in
       match credential with
       | None =>
           Eff.throw (JsError (lit "Registration failed: no credential returned"))
       | Some credential =>
           let* p := Eff.get in
           match challenges p !! ro_userId options with
           | None => Eff.throw (JsError (lit "Challenge not found"))
           | Some storedChallenge =>
               let* clientData :=
                 Eff.lift (parseClientData pf (at_clientDataJSON credential)) in
               if negb (bool_decide
                          (cd_type clientData = Some (lit "webauthn.create")))
               then Eff.throw (JsError (lit "Invalid client data type"))
               else if negb (bool_decide
                               (cd_origin clientData = Some (origin (config p))))
               then Eff.throw (JsError (lit "Origin mismatch"))
               else
                 let* now := Eff.reading (dateNow pf) in
                 let fido2Credential :=
                   {| id := arrayBufferToBase64Url (at_rawId credential);
                      publicKey :=
                        arrayBufferToBase64Url
                          (default [] (at_publicKey credential));
                      counter := 0;
                      userId := ro_userId options;
                      transports := at_transports credential;
                      createdAt := newDate (Some now) |} in
                 do* Eff.modify
                       (setCredentials <[id fido2Credential := fido2Credential]>) in
                 do* Eff.modify (setChallenges (delete (ro_userId options))) in
                 Eff.ret fido2Credential
           end
       end)
      (fun error =>
         do* Eff.modify (setChallenges (delete (ro_userId options))) in
         Eff.throw (JsError (lit "FIDO2 registration failed: "
                               ++ errorMessage error))).

Definition generateAuthenticationOptions (options : AuthenticationOptions)
  : M PublicKeyCredentialRequestOptions :=
  let* challenge := generateChallenge in
  let* challengeId := generateChallengeId in
  let* now := Eff.reading (dateNow pf) in
  do* Eff.modify (setChallenges
        <[challengeId := {| challenge := challenge; timestamp := now |}]>) in
  let* p := Eff.get in
  let* allow := descriptors (allowCredentials options) in
  Eff.ret
    {| rq_challenge := challenge;
       rq_timeout := timeout (config p);
       rq_rpId := rpId (config p);
       rq_allowCredentials := allow;
       rq_userVerification :=
         orString (ao_userVerification options) (userVerification (config p)) |}.

Definition failure (error : jsstring) : AuthResult :=
  {| success := false; ar_token := None; ar_userId := None;
     ar_metadata := None; ar_error := Some error |}.

Definition authenticate (credentials : AuthenticationOptions) : M AuthResult :=
  if negb isSupported then
    Eff.ret (failure (lit "WebAuthn is not supported in this environment"))
  else
    Eff.tryCatch
      (let* publicKeyOptions := generateAuthenticationOptions credentials in
       let* credential :=
         Eff.call (fun n => credentialsGet pf n publicKeyOptions) in
       match credential with
       | None =>
           Eff.ret (failure (lit "Authentication failed: no credential returned"))
       | Some credential =>
           let credentialId := arrayBufferToBase64Url (as_rawId credential) in
           let* p := Eff.get in
           match FIDO2.credentials p !! credentialId with
           | None => Eff.ret (failure (lit "Credential not found"))
           | Some storedCredential =>
               let* clientData :=
                 Eff.lift (parseClientData pf (as_clientDataJSON credential)) in
               if negb (bool_decide
                          (cd_type clientData = Some (lit "webauthn.get")))
               then Eff.ret (failure (lit "Invalid client data type"))
               else if negb (bool_decide
                               (cd_origin clientData = Some (origin (config p))))
               then Eff.ret (failure (lit "Origin mismatch"))
               else
                 let* counter :=
                   Eff.lift (getCounterFromAuthData
                               (as_authenticatorData credential)) in
                 if counter <=? FIDO2.counter storedCredential then
                   Eff.ret (failure
                     (lit "Invalid counter - possible cloned authenticator"))
                 else
                   (* storedCredential.counter = counter: the object held by
                      the map is updated in place *)
                   do* Eff.modify
                         (setCredentials
                            <[credentialId :=
                                setCounter counter storedCredential]>) in
                   let* now := Eff.reading (dateNow pf) in
                   let token :=
                     generateSessionToken (userId storedCredential) now in
                   Eff.ret
                     {| success := true;
                        ar_token := Some token;
                        ar_userId := Some (userId storedCredential);
                        ar_metadata := Some (credentialId, counter);
                        ar_error := None |}
           end
       end)
      (fun error =>
         Eff.ret (failure (lit "FIDO2 authentication failed: "
                             ++ errorMessage error))).

End WithPlatform.

(** The id under which [generateAuthenticationOptions] stores its
    challenge when started in world [w]. *)
Definition mintedChallengeId pf (w : Eff.World Provider) : jsstring :=
  lit "challenge-" ++ numberToString 10 (dateNow pf (S (Eff.steps w)))
    ++ lit "-" ++ drop 2 (mathRandom36 pf (S (S (Eff.steps w)))).

Definition mintedChallenge pf (w : Eff.World Provider) : ChallengeEntry :=
  {| challenge := getRandomValues pf (Eff.steps w);
     timestamp := dateNow pf (S (S (S (Eff.steps w)))) |}.

End FIDO2.

(** ** The e-mail/password provider: session tokens
    ([packages/core/src/providers/email-password.ts]) *)

Module EmailPassword.

Record Platform := {
  (** [process.env.JWT_SECRET] *)
  jwtSecret : option jsstring;
  (** [createHash('sha256').update(s).digest('hex')] of Node's [crypto] *)
  sha256Hex : jsstring -> jsstring
}.

Section WithPlatform.
Variable pf : Platform.

Definition secret : jsstring :=
  default (lit "change-this-in-production")
    (orString (jwtSecret pf) None).

Definition signToken (userId timestamp : jsstring) : jsstring :=
  sha256Hex pf (userId ++ colon :: timestamp ++ colon :: secret).

(** [generateToken(userId)] when [Date.now()] is [now]. *)
Definition generateToken (userId : jsstring) (now : Z) : jsstring :=
  Provider.generateToken signToken userId now.

(** [verify(token)] when [Date.now()] is [now]. *)
Definition verify (token : jsstring) (now : Z) : VerifyResult :=
  Provider.verify signToken token now.

End WithPlatform.

End EmailPassword.

(** ** The plugin loader ([packages/core/src/plugin-loader/index.ts]) *)

Module PluginLoader.

(** An [IPlugin]; its methods are code of the plugin, seen here through
    what each call returns or throws. *)
Record IPlugin := {
  name : jsstring;
  version : jsstring;
  type : jsstring;
  (** ['provider' in plugin] *)
  hasProvider : bool;
  (** [plugin.initialize(config)] *)
  plugin_initialize : list (jsstring * jsstring) -> nat -> Attempt unit;
  (** [plugin.destroy()] *)
  plugin_destroy : nat -> Attempt unit
}.

(** [Map<string, IPlugin>], in insertion order. *)
Abbreviation Plugins := (list (jsstring * IPlugin)).

Fixpoint mapGet (k : jsstring) (m : Plugins) : option IPlugin :=
  match m with
  | [] => None
  | (k', v) :: m' => if bool_decide (k' = k) then Some v else mapGet k m'
  end.

Definition mapHas (k : jsstring) (m : Plugins) : bool :=
  match mapGet k m with Some _ => true | None => false end.

Fixpoint mapSet (k : jsstring) (v : IPlugin) (m : Plugins) : Plugins :=
  match m with
  | [] => [(k, v)]
  | (k', v') :: m' =>
      if bool_decide (k' = k) then (k, v) :: m' else (k', v') :: mapSet k v m'
  end.

Definition mapDelete (k : jsstring) (m : Plugins) : Plugins :=
  List.filter (fun kv => negb (bool_decide (fst kv = k))) m.

Abbreviation M := (Eff.t Plugins).

Definition already (n : jsstring) : jsstring :=
  lit "Plugin " ++ 34 :: n ++ 34 :: lit " is already registered".

Definition notFound (n : jsstring) : jsstring :=
  lit "Plugin " ++ 34 :: n ++ 34 :: lit " not found".

Definition register (plugin : IPlugin) : M unit :=
  let* plugins := Eff.get in
  if mapHas (name plugin) plugins then
    Eff.throw (JsError (already (name plugin)))
  else Eff.modify (mapSet (name plugin) plugin).

Definition initialize (pluginName : jsstring)
  (config : list (jsstring * jsstring)) : M unit :=
  let* plugins := Eff.get in
  match mapGet pluginName plugins with
  | None => Eff.throw (JsError (notFound pluginName))
  | Some plugin => Eff.call (plugin_initialize plugin config)
  end.

Definition get (pluginName : jsstring) : M (option IPlugin) :=
  let* plugins := Eff.get in Eff.ret (mapGet pluginName plugins).

Definition getAll : M (list IPlugin) :=
  let* plugins := Eff.get in Eff.ret (List.map snd plugins).

Definition getAuthPlugins : M (list IPlugin) :=
  let* all := getAll in Eff.ret (List.filter hasProvider all).

Definition unregister (pluginName : jsstring) : M unit :=
  let* plugins := Eff.get in
  match mapGet pluginName plugins with
  | None => Eff.throw (JsError (notFound pluginName))
  | Some plugin =>
      do* Eff.call (plugin_destroy plugin) in
      Eff.modify (mapDelete pluginName)
  end.

Definition destroyAll : M unit :=
  let* plugins := Eff.get in
  do* Eff.mapM (fun plugin => Eff.call (plugin_destroy plugin))
        (List.map snd plugins) in
  Eff.modify (fun _ => []).

End PluginLoader.

(** ** Identities and the in-memory store *)

(** The object that [update] builds when the value it read is not an
    identity: [{ ...existing, ...data, id: existing.id, createdAt:
    existing.createdAt, updatedAt: new Date() }] over an array copies the
    entries of the array under the keys "0", "1", ...; [id] and [createdAt]
    are [undefined], and the other fields are those the payloads gave
    ([None] is a key the object does not have). *)
Record Loose := {
  l_entries : list Identity;
  l_type : option IdentityType;
  l_userId : option jsstring;
  l_provider : option jsstring;
  l_data : option (list (jsstring * JsValue));
  l_verified : option bool;
  l_updatedAt : Date
}.

(** What the registry writes to its store: an identity row, the array of a
    user's identities, or the object above.  The store is untyped: a read
    returns whatever the key holds. *)
Inductive StoreValue :=
| VIdentity (i : Identity)
| VIdentities (l : list Identity)
| VLoose (o : Loose).

(** The clock and random source of the process. *)
Record Runtime := {
  (** [Date.now()], also the time of [new Date()] *)
  dateNow : nat -> Z;
  (** [Math.random().toString(36)] *)
  mathRandom36 : nat -> jsstring;
  (** [new Date(t).toISOString()] *)
  toISOString : Z -> jsstring
}.

Module InMemoryStorage.

Record StorageEntry := {
  value : StoreValue;
  expiresAt : option Z
}.

Abbreviation Store := (gmap jsstring StorageEntry).
Abbreviation M := (Eff.t Store).

Section WithRuntime.
Variable rt : Runtime.

(** [entry.expiresAt && Date.now() > entry.expiresAt]: the clock is read
    only when [expiresAt] is truthy. *)
Definition expired (entry : StorageEntry) : M bool :=
  match expiresAt entry with
  | None => Eff.ret false
  | Some e =>
      if e =? 0 then Eff.ret false
      else let* now := Eff.reading (dateNow rt) in Eff.ret (e <? now)
  end.

Definition get (key : jsstring) : M (option StoreValue) :=
  let* store := Eff.get in
  match store !! key with
  | None => Eff.ret None
  | Some entry =>
      let* gone := expired entry in
      if (gone : bool) then
        do* Eff.modify (base.delete key) in Eff.ret None
      else Eff.ret (Some (value entry))
  end.

(** [ttl ? Date.now() + ttl * 1000 : undefined] *)
Definition set (key : jsstring) (v : StoreValue) (ttl : option Z) : M unit :=
  let* expires :=
    match ttl with
    | None => Eff.ret None
    | Some s =>
        if s =? 0 then Eff.ret None
        else let* now := Eff.reading (dateNow rt) in
             Eff.ret (Some (now + s * 1000))
    end in
  Eff.modify <[key := {| value := v; expiresAt := expires |}]>.

Definition delete (key : jsstring) : M bool :=
  let* store := Eff.get in
  do* Eff.modify (base.delete key) in
  Eff.ret (bool_decide (is_Some (store !! key))).

Definition exists_ (key : jsstring) : M bool :=
  let* store := Eff.get in
  match store !! key with
  | None => Eff.ret false
  | Some entry =>
      let* gone := expired entry in
      if (gone : bool) then
        do* Eff.modify (base.delete key) in Eff.ret false
      else Eff.ret true
  end.

End WithRuntime.

End InMemoryStorage.

(** ** The identity registry
    ([packages/core/src/registry/identity-registry.ts]), over the
    in-memory store.

    The rows live under ["identity:" + id] and a user's array under
    ["identity:user:" + userId]: the row key of the id ["user:" + u] is the
    key of the array of [u], and the registry reads whatever the key
    holds. *)

Module IdentityRegistry.

Import InMemoryStorage.

(** [Omit<Identity, 'id' | 'createdAt' | 'updatedAt'>] *)
Record NewIdentity := {
  n_type : IdentityType;
  n_userId : jsstring;
  n_provider : jsstring;
  n_data : list (jsstring * JsValue);
  n_verified : bool
}.

(** [Partial<Identity>]: [None] is a key the payload does not have. *)
Record PartialIdentity := {
  p_id : option jsstring;
  p_type : option IdentityType;
  p_userId : option jsstring;
  p_provider : option jsstring;
  p_data : option (list (jsstring * JsValue));
  p_verified : option bool;
  p_createdAt : option Date;
  p_updatedAt : option Date
}.

Definition noChange : PartialIdentity :=
  {| p_id := None; p_type := None; p_userId := None; p_provider := None;
     p_data := None; p_verified := None; p_createdAt := None;
     p_updatedAt := None |}.

Definition storagePrefix : jsstring := lit "identity:".

Definition rowKey (id : jsstring) : jsstring := storagePrefix ++ id.

Definition userKey (userId : jsstring) : jsstring :=
  storagePrefix ++ lit "user:" ++ userId.

(** [`${now}-${suffix}`] *)
Definition generatedId (now : Z) (suffix : jsstring) : jsstring :=
  numberToString 10 now ++ lit "-" ++ suffix.

(** [value.userId] and [value.data] of a stored value: [None] is
    [undefined], as for an array. *)
Definition userIdOf (v : StoreValue) : option jsstring :=
  match v with
  | VIdentity i => Some (userId i)
  | VIdentities _ => None
  | VLoose o => l_userId o
  end.

Definition dataOf (v : StoreValue) : option (list (jsstring * JsValue)) :=
  match v with
  | VIdentity i => Some (Types.data i)
  | VIdentities _ => None
  | VLoose o => l_data o
  end.

(** [`${userId}`] of a string or of [undefined]. *)
Definition templateString (userId : option jsstring) : jsstring :=
  default (lit "undefined") userId.

(** The [TypeError]s of using a value that is not an array as one; the
    texts are those of V8. *)
Definition notIterable : Exn :=
  JsError (lit "userIdentities is not iterable").

Definition notAFunction (callee : jsstring) : Exn :=
  JsError (callee ++ lit " is not a function").

(** [{ ...existing, ...data }] on an identity *)
Definition spread (existing : Identity) (data : PartialIdentity) : Identity :=
  {| Types.id := default (Types.id existing) (p_id data);
     Types.type := default (Types.type existing) (p_type data);
     userId := default (userId existing) (p_userId data);
     Types.provider := default (Types.provider existing) (p_provider data);
     Types.data := default (Types.data existing) (p_data data);
     verified := default (verified existing) (p_verified data);
     createdAt := default (createdAt existing) (p_createdAt data);
     updatedAt := default (updatedAt existing) (p_updatedAt data) |}.

(** [b] when the payload has the key, [a] otherwise. *)
Definition orElse {A} (a b : option A) : option A :=
  match b with
  | Some _ => b
  | None => a
  end.

(** [{ ...existing, ...data, id: existing.id, createdAt:
    existing.createdAt, updatedAt: now }] on whatever was read. *)
Definition merge (existing : StoreValue) (data : PartialIdentity) (now : Date)
  : StoreValue :=
  match existing with
  | VIdentity existing =>
      let merged := spread existing data in
      VIdentity
        {| Types.id := Types.id existing;
           Types.type := Types.type merged;
           userId := userId merged;
           Types.provider := Types.provider merged;
           Types.data := Types.data merged;
           verified := verified merged;
           createdAt := createdAt existing;
           updatedAt := now |}
  | VIdentities l =>
      VLoose
        {| l_entries := l;
           l_type := p_type data;
           l_userId := p_userId data;
           l_provider := p_provider data;
           l_data := p_data data;
           l_verified := p_verified data;
           l_updatedAt := now |}
  | VLoose o =>
      VLoose
        {| l_entries := l_entries o;
           l_type := orElse (l_type o) (p_type data);
           l_userId := orElse (l_userId o) (p_userId data);
           l_provider := orElse (l_provider o) (p_provider data);
           l_data := orElse (l_data o) (p_data data);
           l_verified := orElse (l_verified o) (p_verified data);
           l_updatedAt := now |}
  end.

Section WithRuntime.
Variable rt : Runtime.

Definition generateId : M jsstring :=
  let* now := Eff.reading (dateNow rt) in
  let* r := Eff.reading (mathRandom36 rt) in
  Eff.ret (generatedId now (substring 2 15 r)).

(** [storage.get<Identity>(key)]: the type argument checks nothing. *)
Definition get (id : jsstring) : M (option StoreValue) :=
  InMemoryStorage.get rt (rowKey id).

(** [identities || []]: every stored value is an object, so truthy. *)
Definition findByUser (userId : jsstring) : M StoreValue :=
  let* identities := InMemoryStorage.get rt (userKey userId) in
  Eff.ret (default (VIdentities []) identities).

Definition register (identity : NewIdentity) : M Identity :=
  let* id := generateId in
  let* t := Eff.reading (dateNow rt) in
  let now := newDate (Some t) in
  let newIdentity :=
    {| id := id; type := n_type identity; userId := n_userId identity;
       provider := n_provider identity; data := n_data identity;
       verified := n_verified identity;
       createdAt := now; updatedAt := now |} in
  do* InMemoryStorage.set rt (rowKey id) (VIdentity newIdentity) None in
  let* userIdentities := findByUser (n_userId identity) in
  match userIdentities with
  | VIdentities l =>
      do* InMemoryStorage.set rt (userKey (n_userId identity))
            (VIdentities (l ++ [newIdentity])) None in
      Eff.ret newIdentity
  | _ => Eff.throw notIterable
  end.

Definition notFound (id : jsstring) : jsstring :=
  lit "Identity " ++ id ++ lit " not found".

Definition update (id : jsstring) (data : PartialIdentity) : M StoreValue :=
  let* existing := get id in
  match existing with
  | None => Eff.throw (JsError (notFound id))
  | Some existing =>
      let* t := Eff.reading (dateNow rt) in
      let updated := merge existing data (newDate (Some t)) in
      do* InMemoryStorage.set rt (rowKey id) updated None in
      Eff.ret updated
  end.

(** [identity.userId] goes into the key through a template string, so an
    [undefined] one reads the array of the user "undefined". *)
Definition delete (id : jsstring) : M bool :=
  let* identity := get id in
  match identity with
  | None => Eff.ret false
  | Some identity =>
      do* InMemoryStorage.delete (rowKey id) in
      let owner := templateString (userIdOf identity) in
      let* userIdentities := findByUser owner in
      match userIdentities with
      | VIdentities l =>
          let filtered :=
            List.filter (fun i => negb (bool_decide (Types.id i = id))) l in
          do* InMemoryStorage.set rt (userKey owner)
                (VIdentities filtered) None in
          Eff.ret true
      | _ => Eff.throw (notAFunction (lit "userIdentities.filter"))
      end
  end.

(** [{ verified, error? }] *)
Definition verifyIdentity (id : jsstring) (_proof : list (jsstring * JsValue))
  : M (bool * option jsstring) :=
  let* identity := get id in
  match identity with
  | None => Eff.ret (false, Some (lit "Identity not found"))
  | Some _ =>
      do* update id
            {| p_id := None; p_type := None; p_userId := None;
               p_provider := None; p_data := None; p_verified := Some true;
               p_createdAt := None; p_updatedAt := None |} in
      Eff.ret (true, None)
  end.

(** [{ success, error? }] *)
Definition deactivate (id : jsstring) (reason : jsstring)
  : M (bool * option jsstring) :=
  let* identity := get id in
  match identity with
  | None => Eff.ret (false, Some (lit "Identity not found"))
  | Some identity =>
      let* t := Eff.reading (dateNow rt) in
      let annotated :=
        setField (lit "deactivationReason") (JString reason)
          (setField (lit "deactivatedAt") (JString (toISOString rt t))
             (setField (lit "deactivated") (JBool true)
                (default [] (dataOf identity)))) in
      do* update id
            {| p_id := None; p_type := None; p_userId := None;
               p_provider := None; p_data := Some annotated;
               p_verified := Some false;
               p_createdAt := None; p_updatedAt := None |} in
      Eff.ret (true, None)
  end.

Definition findByType (userId : jsstring) (type : jsstring)
  : M (list Identity) :=
  let* allIdentities := findByUser userId in
  match allIdentities with
  | VIdentities l =>
      Eff.ret (List.filter
                 (fun identity =>
                    bool_decide (identityTypeName (Types.type identity) = type))
                 l)
  | _ => Eff.throw (notAFunction (lit "allIdentities.filter"))
  end.

Definition findByProvider (userId : jsstring) (provider : jsstring)
  : M (option Identity) :=
  let* allIdentities := findByUser userId in
  match allIdentities with
  | VIdentities l =>
      Eff.ret (List.find
                 (fun identity =>
                    bool_decide (Types.provider identity = provider))
                 l)
  | _ => Eff.throw (notAFunction (lit "allIdentities.find"))
  end.

Definition hasVerifiedIdentity (userId : jsstring) (type : jsstring)
  : M bool :=
  let* identities := findByType userId type in
  Eff.ret (List.existsb verified identities).

(** A call of the mutating interface of the registry. *)
Inductive Call :=
| CallRegister (identity : NewIdentity)
| CallUpdate (id : jsstring) (data : PartialIdentity)
| CallVerifyIdentity (id : jsstring) (proof : list (jsstring * JsValue))
| CallDeactivate (id : jsstring) (reason : jsstring)
| CallDelete (id : jsstring).

(** The world left by a call, whatever it returned or threw. *)
Definition perform (c : Call) (w : Eff.World Store) : Eff.World Store :=
  match c with
  | CallRegister identity => snd (register identity w)
  | CallUpdate id data => snd (update id data w)
  | CallVerifyIdentity id proof => snd (verifyIdentity id proof w)
  | CallDeactivate id reason => snd (deactivate id reason w)
  | CallDelete id => snd (delete id w)
  end.

Definition performAll (calls : list Call) (w : Eff.World Store)
  : Eff.World Store :=
  fold_left (fun w c => perform c w) calls w.

(** How a call ends, without the value it returns. *)
Definition outcome (c : Call) (w : Eff.World Store) : Completion unit :=
  match c with
  | CallRegister identity =>
      mapCompletion (fun _ => tt) (fst (register identity w))
  | CallUpdate id data => mapCompletion (fun _ => tt) (fst (update id data w))
  | CallVerifyIdentity id proof =>
      mapCompletion (fun _ => tt) (fst (verifyIdentity id proof w))
  | CallDeactivate id reason =>
      mapCompletion (fun _ => tt) (fst (deactivate id reason w))
  | CallDelete id => mapCompletion (fun _ => tt) (fst (delete id w))
  end.

End WithRuntime.

(** *** The stores the registry builds when no id names an array *)

(** The entries the registry writes. *)
Definition rowEntry (i : Identity) : StorageEntry :=
  {| value := VIdentity i; expiresAt := None |}.

Definition arrayEntry (l : list Identity) : StorageEntry :=
  {| value := VIdentities l; expiresAt := None |}.

(** [id.startsWith('user:')]: the row key of such an id is the key of a
    user's array. *)
Definition namesIndex (id : jsstring) : bool :=
  bool_decide (take 5 id = lit "user:").

(** A call whose id, if it has one, does not name a user's array. *)
Definition plainCall (c : Call) : bool :=
  match c with
  | CallRegister _ => true
  | CallUpdate id _ | CallVerifyIdentity id _ | CallDeactivate id _
  | CallDelete id => negb (namesIndex id)
  end.

(** The identity filed under an id, and the array filed for a user. *)
Definition row (store : Store) (id : jsstring) : option Identity :=
  match value <$> store !! rowKey id with
  | Some (VIdentity i) => Some i
  | _ => None
  end.

Definition index (store : Store) (userId : jsstring) : list Identity :=
  match value <$> store !! userKey userId with
  | Some (VIdentities l) => l
  | _ => []
  end.

(** No entry expires, arrays live under the users' keys and identities
    under the other keys. *)
Definition registryStore (store : Store) : Prop :=
  forall k e,
    store !! k = Some e ->
    expiresAt e = None /\
    match value e with
    | VIdentity _ => forall u, k <> userKey u
    | VIdentities _ => exists u, k = userKey u
    | VLoose _ => False
    end.

(** Rows are filed under their own id, and the array of a user holds
    identities of that user. *)
Definition filedByOwner (store : Store) : Prop :=
  (forall id i, row store id = Some i -> Types.id i = id) /\
  (forall u, Forall (fun i => userId i = u) (index store u)).

Definition consistent (store : Store) : Prop :=
  registryStore store /\ filedByOwner store.

(** A call ended well when it returned or threw "not found". *)
Definition endedWell (c : Completion unit) : Prop :=
  c = Return tt \/ exists id, c = Throw (JsError (notFound id)).

(** [bag[key]] *)
Fixpoint getField (key : jsstring) (bag : list (jsstring * JsValue))
  : option JsValue :=
  match bag with
  | [] => None
  | (k, v) :: bag' => if bool_decide (k = key) then Some v else getField key bag'
  end.

End IdentityRegistry.

(** ** A concrete environment and concrete inputs

    The environment of the unit tests of the repository: WebAuthn present,
    no [JWT_SECRET], a clock that advances by one millisecond per reading,
    and an authenticator that answers every ceremony with the credential
    whose raw id is 32 zero bytes. *)

Module Examples.

Definition b64char (i : Z) : Z :=
  if i <? 26 then 65 + i
  else if i <? 52 then 71 + i
  else if i <? 62 then i - 4
  else if i =? 62 then 43 else 47.

(** [btoa] on a binary string. *)
Fixpoint btoa (s : jsstring) : jsstring :=
  match s with
  | a :: b :: c :: r =>
      b64char (a / 4) :: b64char (a mod 4 * 16 + b / 16)
      :: b64char (b mod 16 * 4 + c / 64) :: b64char (c mod 64) :: btoa r
  | [a; b] =>
      [b64char (a / 4); b64char (a mod 4 * 16 + b / 16);
       b64char (b mod 16 * 4); 61]
  | [a] => [b64char (a / 4); b64char (a mod 4 * 16); 61; 61]
  | [] => []
  end.

Definition b64value (c : Z) : option Z :=
  if (65 <=? c) && (c <=? 90) then Some (c - 65)
  else if (97 <=? c) && (c <=? 122) then Some (c - 71)
  else if (48 <=? c) && (c <=? 57) then Some (c + 4)
  else if c =? 43 then Some 62
  else if c =? 47 then Some 63
  else None.

Fixpoint sextets (s : jsstring) : option (list Z) :=
  match s with
  | [] => Some []
  | c :: r => v ← b64value c; vs ← sextets r; Some (v :: vs)
  end.

Fixpoint octets (v : list Z) : option (list Z) :=
  match v with
  | a :: b :: c :: d :: r =>
      o ← octets r;
      Some (a * 4 + b / 16 :: b mod 16 * 16 + c / 4 :: c mod 4 * 64 + d :: o)
  | [a; b; c] => Some [a * 4 + b / 16; b mod 16 * 16 + c / 4]
  | [a; b] => Some [a * 4 + b / 16]
  | [_] => None
  | [] => Some []
  end.

(** [atob], without the white space and padding rules that the provider
    never exercises (it strips the padding itself). *)
Definition atob (s : jsstring) : Attempt jsstring :=
  match sextets s ≫= octets with
  | Some o => Returns o
  | None => Throws (JsError (lit "The string to be decoded is not correctly encoded."))
  end.

Definition origin : jsstring := lit "http://localhost:3000".

(** The two documents the tests let [JSON.parse] return. *)
Definition parseClientData (buffer : list Z) : Attempt FIDO2.ClientData :=
  match buffer with
  | [1] => Returns {| FIDO2.cd_type := Some (lit "webauthn.create");
                     FIDO2.cd_origin := Some origin |}
  | [2] => Returns {| FIDO2.cd_type := Some (lit "webauthn.get");
                     FIDO2.cd_origin := Some origin |}
  | [3] => Returns {| FIDO2.cd_type := Some (lit "webauthn.get");
                     FIDO2.cd_origin := Some (lit "https://evil.example") |}
  | _ => Throws (JsError (lit "Unexpected end of JSON input"))
  end.

Definition rawId : list Z := repeat 0 32.

(** 37 bytes of authenticator data whose signature counter is [c]. *)
Definition authenticatorData (c : Z) : list Z :=
  repeat 0 33 ++ [c / 16777216 mod 256; c / 65536 mod 256;
                  c / 256 mod 256; c mod 256].

(** An environment whose authenticator asserts the counter [c]. *)
Definition platform (c : Z) : FIDO2.Platform :=
  {| FIDO2.hasWebAuthn := true;
     FIDO2.jwtSecret := None;
     FIDO2.dateNow := fun n => 1700000000000 + Z.of_nat n;
     FIDO2.mathRandom36 := fun _ => lit "0.4fzyo82mvyr";
     FIDO2.getRandomValues := fun n => repeat (Z.of_nat n) 32;
     FIDO2.btoa := btoa;
     FIDO2.atob := atob;
     FIDO2.textEncode := fun s => s;
     FIDO2.parseClientData := parseClientData;
     FIDO2.rangeErrorMessage := lit "Offset is outside the bounds of the DataView";
     FIDO2.credentialsCreate := fun _ _ =>
       Returns (Some {| FIDO2.at_rawId := rawId;
                       FIDO2.at_clientDataJSON := [1];
                       FIDO2.at_publicKey := Some (repeat 4 65);
                       FIDO2.at_transports := Some [lit "internal"] |});
     FIDO2.credentialsGet := fun _ _ =>
       Returns (Some {| FIDO2.as_rawId := rawId;
                       FIDO2.as_clientDataJSON := [2];
                       FIDO2.as_authenticatorData := authenticatorData c |}) |}.

Definition config : FIDO2.FIDO2Config :=
  {| FIDO2.rpName := lit "Test App";
     FIDO2.rpId := lit "localhost";
     FIDO2.origin := origin;
     FIDO2.timeout := Some 60000;
     FIDO2.attestation := Some (lit "none");
     FIDO2.authenticatorSelection := None;
     FIDO2.userVerification := Some (lit "preferred") |}.

Definition user123 : jsstring := lit "user-123".

Definition registration : FIDO2.RegistrationOptions :=
  {| FIDO2.ro_userId := user123;
     FIDO2.userName := lit "test@example.com";
     FIDO2.userDisplayName := lit "Test User";
     FIDO2.excludeCredentials := None;
     FIDO2.ro_authenticatorSelection := None |}.

(** A registration whose exclude list holds an id that is not base64url. *)
Definition registrationBadExclude : FIDO2.RegistrationOptions :=
  {| FIDO2.ro_userId := user123;
     FIDO2.userName := lit "test@example.com";
     FIDO2.userDisplayName := lit "Test User";
     FIDO2.excludeCredentials :=
       Some [{| FIDO2.id := lit "credential!1";
                FIDO2.publicKey := lit "key-1";
                FIDO2.counter := 0;
                FIDO2.userId := user123;
                FIDO2.transports := None;
                FIDO2.createdAt := DateAt 1700000000000 |}];
     FIDO2.ro_authenticatorSelection := None |}.

Definition anyCredential : FIDO2.AuthenticationOptions :=
  {| FIDO2.allowCredentials := None; FIDO2.ao_userVerification := None |}.

(** A fresh provider. *)
Definition fresh : Eff.World FIDO2.Provider :=
  Eff.mkWorld 0 (FIDO2.new config).

(** The provider of the tests after [register] has succeeded once. *)
Definition registered : Eff.World FIDO2.Provider :=
  snd (FIDO2.register (platform 0) registration fresh).

(** The id under which the credential of [registered] is stored. *)
Definition credentialId : jsstring :=
  FIDO2.arrayBufferToBase64Url (platform 0) rawId.

(** A plugin whose [destroy] succeeds, and one whose [destroy] rejects. *)
Definition tidyPlugin : PluginLoader.IPlugin :=
  {| PluginLoader.name := lit "fido2";
     PluginLoader.version := lit "0.1.0";
     PluginLoader.type := lit "fido2";
     PluginLoader.hasProvider := true;
     PluginLoader.plugin_initialize := fun _ _ => Returns tt;
     PluginLoader.plugin_destroy := fun _ => Returns tt |}.

Definition brokenPlugin : PluginLoader.IPlugin :=
  {| PluginLoader.name := lit "wallet";
     PluginLoader.version := lit "0.1.0";
     PluginLoader.type := lit "wallet";
     PluginLoader.hasProvider := true;
     PluginLoader.plugin_initialize := fun _ _ => Returns tt;
     PluginLoader.plugin_destroy := fun _ =>
       Throws (JsError (lit "provider still connected")) |}.

(** A loader in which both have been registered. *)
Definition loader : Eff.World PluginLoader.Plugins :=
  snd (PluginLoader.register brokenPlugin
         (snd (PluginLoader.register tidyPlugin (Eff.mkWorld 0 [])))).

(** A process whose clock advances by one millisecond per reading and
    whose random draws differ. *)
Definition runtime : Runtime :=
  {| dateNow := fun n => 1700000000000 + Z.of_nat n;
     mathRandom36 := fun n =>
       lit "0." ++ numberToString 36 (123456789 + 7919 * Z.of_nat n);
     (* a stand-in for the ISO 8601 rendering *)
     toISOString := fun t => numberToString 10 t |}.

(** A process in which two registrations fall into the same millisecond
    and [Math.random()] returns 0.5 both times. *)
Definition frozenRuntime : Runtime :=
  {| dateNow := fun _ => 1700000000000;
     mathRandom36 := fun _ => lit "0.i";
     toISOString := fun t => numberToString 10 t |}.

Definition walletOfU1 : IdentityRegistry.NewIdentity :=
  {| IdentityRegistry.n_type := WALLET;
     IdentityRegistry.n_userId := lit "u1";
     IdentityRegistry.n_provider := lit "metamask";
     IdentityRegistry.n_data := [(lit "address", JString (lit "0xabc"))];
     IdentityRegistry.n_verified := false |}.

Definition deviceOfU1 : IdentityRegistry.NewIdentity :=
  {| IdentityRegistry.n_type := DEVICE;
     IdentityRegistry.n_userId := lit "u1";
     IdentityRegistry.n_provider := lit "android";
     IdentityRegistry.n_data := [];
     IdentityRegistry.n_verified := true |}.

Definition emptyRegistry : Eff.World (gmap jsstring InMemoryStorage.StorageEntry) :=
  Eff.mkWorld 0 ∅.

(** The registry after the wallet of [u1] has been registered, and the id
    it was given. *)
Definition oneWallet : Eff.World (gmap jsstring InMemoryStorage.StorageEntry) :=
  snd (IdentityRegistry.register runtime walletOfU1 emptyRegistry).

Definition walletId : jsstring := lit "1700000000000-21i9z8".

(** The row stored for it. *)
Definition registeredWallet : Identity :=
  {| id := walletId; type := WALLET; userId := lit "u1";
     provider := lit "metamask";
     data := [(lit "address", JString (lit "0xabc"))];
     verified := false;
     createdAt := DateAt 1700000000002;
     updatedAt := DateAt 1700000000002 |}.

(** The row after [verifyIdentity], called right after the registration. *)
Definition verifiedWallet : Identity :=
  {| id := walletId; type := WALLET; userId := lit "u1";
     provider := lit "metamask";
     data := [(lit "address", JString (lit "0xabc"))];
     verified := true;
     createdAt := DateAt 1700000000002;
     updatedAt := DateAt 1700000000003 |}.

(** An id that was never given out: its row key is the key of the array
    of [u1]. *)
Definition indexId : jsstring := lit "user:u1".

(** The payload [{ userId: 'u2' }]. *)
Definition movePayload : IdentityRegistry.PartialIdentity :=
  {| IdentityRegistry.p_id := None;
     IdentityRegistry.p_type := None;
     IdentityRegistry.p_userId := Some (lit "u2");
     IdentityRegistry.p_provider := None;
     IdentityRegistry.p_data := None;
     IdentityRegistry.p_verified := None;
     IdentityRegistry.p_createdAt := None;
     IdentityRegistry.p_updatedAt := None |}.

(** The payload of the repository's test "should not allow ID or createdAt
    changes": [{ id: 'new-id', createdAt: new Date('2020-01-01') }]. *)
Definition renamePayload : IdentityRegistry.PartialIdentity :=
  {| IdentityRegistry.p_id := Some (lit "new-id");
     IdentityRegistry.p_type := None;
     IdentityRegistry.p_userId := None;
     IdentityRegistry.p_provider := None;
     IdentityRegistry.p_data := None;
     IdentityRegistry.p_verified := None;
     IdentityRegistry.p_createdAt := Some (DateAt 1577836800000);
     IdentityRegistry.p_updatedAt := None |}.

Definition emailPlatform : EmailPassword.Platform :=
  {| EmailPassword.jwtSecret := None;
     (* a stand-in digest: 64 hexadecimal digits that depend on the input *)
     EmailPassword.sha256Hex := fun s =>
       repeat (digitChar (fold_left Z.add s 0 mod 16)) 64 |}.

End Examples.

(** ** Regular expressions of the source

    The regular expressions used by the e-mail provider, without the [u]
    flag: they work on code units.  Matching follows the derivatives of the
    expression. *)

Module RegExp.

Inductive Regex :=
| Never
| Empty
| Class (p : Z -> bool)
| Seq (r1 r2 : Regex)
| Alt (r1 r2 : Regex)
| Star (r : Regex).

(** [r+] *)
Definition Plus (r : Regex) : Regex := Seq r (Star r).

Fixpoint nullable (r : Regex) : bool :=
  match r with
  | Never => false
  | Empty => true
  | Class _ => false
  | Seq r1 r2 => nullable r1 && nullable r2
  | Alt r1 r2 => nullable r1 || nullable r2
  | Star _ => true
  end.

Fixpoint deriv (c : Z) (r : Regex) : Regex :=
  match r with
  | Never => Never
  | Empty => Never
  | Class p => if p c then Empty else Never
  | Seq r1 r2 =>
      if nullable r1 then Alt (Seq (deriv c r1) r2) (deriv c r2)
      else Seq (deriv c r1) r2
  | Alt r1 r2 => Alt (deriv c r1) (deriv c r2)
  | Star r1 => Seq (deriv c r1) (Star r1)
  end.

(** [/^r$/.test(s)] *)
Fixpoint fullMatch (r : Regex) (s : jsstring) : bool :=
  match s with
  | [] => nullable r
  | c :: s' => fullMatch (deriv c r) s'
  end.

Definition anything : Regex := Star (Class (fun _ => true)).

(** [/r/.test(s)]: a match anywhere in [s]. *)
Definition test (r : Regex) (s : jsstring) : bool :=
  fullMatch (Seq anything (Seq r anything)) s.

(** The strings an expression denotes. *)
Inductive Lang : Regex -> jsstring -> Prop :=
| LangEmpty : Lang Empty []
| LangClass p c : p c = true -> Lang (Class p) [c]
| LangSeq r1 r2 s1 s2 : Lang r1 s1 -> Lang r2 s2 -> Lang (Seq r1 r2) (s1 ++ s2)
| LangAltL r1 r2 s : Lang r1 s -> Lang (Alt r1 r2) s
| LangAltR r1 r2 s : Lang r2 s -> Lang (Alt r1 r2) s
| LangStarNil r : Lang (Star r) []
| LangStarCons r c s1 s2 :
    Lang r (c :: s1) -> Lang (Star r) s2 -> Lang (Star r) (c :: s1 ++ s2).

(** [[^\s@]] *)
Definition notSpaceNorAt (c : Z) : bool :=
  negb (isWhiteSpace c) && negb (c =? 64).

Definition upper (c : Z) : bool := (65 <=? c) && (c <=? 90).
Definition lower (c : Z) : bool := (97 <=? c) && (c <=? 122).
Definition digit (c : Z) : bool := (48 <=? c) && (c <=? 57).

(** The class of special characters of [validatePassword]: the twenty
    punctuation marks listed there, the double quote (code 34) among them. *)
Definition special (c : Z) : bool :=
  bool_decide (c ∈ lit "!@#$%^&*(),.?" ++ 34 :: lit ":{}|<>").

End RegExp.

(** ** The e-mail/password provider: accounts
    ([packages/core/src/providers/email-password.ts]) *)

Module EmailAccounts.

Import RegExp.

Record EmailPasswordConfig := {
  passwordMinLength : option Z;
  requireUppercase : option bool;
  requireLowercase : option bool;
  requireNumbers : option bool;
  requireSpecialChars : option bool;
  saltRounds : option Z
}.

Record EmailPasswordCredentials := {
  c_email : jsstring;
  c_password : jsstring
}.

(** An entry of the [users] map. *)
Record User := {
  email : jsstring;
  passwordHash : jsstring;
  salt : jsstring;
  userId : jsstring
}.

(** [AuthResult] with the metadata of this provider,
    [{ email, authMethod }]. *)
Record AuthResult := {
  success : bool;
  token : option jsstring;
  ar_userId : option jsstring;
  metadata : option (jsstring * jsstring);
  error : option jsstring
}.

Record Platform := {
  (** the secret and digest used for tokens *)
  tokens : EmailPassword.Platform;
  (** [String.prototype.toLowerCase] *)
  toLowerCase : jsstring -> jsstring;
  (** [randomBytes(16).toString('hex')] *)
  randomBytesHex : nat -> jsstring;
  (** [Date.now()] *)
  dateNow : nat -> Z
}.

(** The private fields of an [EmailPasswordProvider]. *)
Record Provider := {
  config : EmailPasswordConfig;
  users : gmap jsstring User
}.

Definition setUsers (f : gmap jsstring User -> gmap jsstring User)
  (p : Provider) : Provider :=
  {| config := config p; users := f (users p) |}.

(** [n || d] on numbers: zero is falsy. *)
Definition orNumber (n : option Z) (d : Z) : Z :=
  match n with
  | Some v => if v =? 0 then d else v
  | None => d
  end.

(** [constructor(config = {})] *)
Definition new (c : EmailPasswordConfig) : Provider :=
  {| config :=
       {| passwordMinLength := Some (orNumber (passwordMinLength c) 8);
          requireUppercase := Some (default true (requireUppercase c));
          requireLowercase := Some (default true (requireLowercase c));
          requireNumbers := Some (default true (requireNumbers c));
          requireSpecialChars := Some (default false (requireSpecialChars c));
          saltRounds := Some (orNumber (saltRounds c) 10) |};
     users := ∅ |}.

(** [/^[^\s@]+@[^\s@]+\.[^\s@]+$/] *)
Definition emailRegex : Regex :=
  Seq (Plus (Class notSpaceNorAt))
    (Seq (Class (Z.eqb 64))
       (Seq (Plus (Class notSpaceNorAt))
          (Seq (Class (Z.eqb 46)) (Plus (Class notSpaceNorAt))))).

Definition isValidEmail (email : jsstring) : bool :=
  fullMatch emailRegex email.

(** [{ valid, error? }] *)
Definition validatePassword (c : EmailPasswordConfig) (password : jsstring)
  : bool * option jsstring :=
  if Z.of_nat (length password) <? orNumber (passwordMinLength c) 8 then
    (false,
     Some (lit "Password must be at least "
           ++ match passwordMinLength c with
              | Some n => numberToString 10 n
              | None => lit "undefined"
              end
           ++ lit " characters"))
  else if default false (requireUppercase c)
          && negb (test (Class upper) password) then
    (false, Some (lit "Password must contain at least one uppercase letter"))
  else if default false (requireLowercase c)
          && negb (test (Class lower) password) then
    (false, Some (lit "Password must contain at least one lowercase letter"))
  else if default false (requireNumbers c)
          && negb (test (Class digit) password) then
    (false, Some (lit "Password must contain at least one number"))
  else if default false (requireSpecialChars c)
          && negb (test (Class special) password) then
    (false, Some (lit "Password must contain at least one special character"))
  else (true, None).

Section WithPlatform.
Variable pf : Platform.

Abbreviation M := (Eff.t Provider).

Definition hashPassword (password salt : jsstring) : jsstring :=
  EmailPassword.sha256Hex (tokens pf) (password ++ salt).

Definition generateSalt : M jsstring := Eff.reading (randomBytesHex pf).

(** [{ success, error? }] *)
Definition register (email password userId : jsstring)
  : M (bool * option jsstring) :=
  if negb (isValidEmail email) then
    Eff.ret (false, Some (lit "Invalid email format"))
  else
    let* p := Eff.get in
    if bool_decide (is_Some (users p !! toLowerCase pf email)) then
      Eff.ret (false, Some (lit "Email already registered"))
    else
      let passwordValidation := validatePassword (config p) password in
      if negb (fst passwordValidation) then
        Eff.ret (false, snd passwordValidation)
      else
        let* salt := generateSalt in
        let passwordHash := hashPassword password salt in
        do* Eff.modify
              (setUsers
                 <[toLowerCase pf email :=
                     {| email := toLowerCase pf email;
                        passwordHash := passwordHash;
                        salt := salt;
                        userId := userId |}]>) in
        Eff.ret (true, None).

Definition failure (reason : string) : AuthResult :=
  {| success := false; token := None; ar_userId := None; metadata := None;
     error := Some (lit reason) |}.

Definition authenticate (creds : EmailPasswordCredentials) : M AuthResult :=
  match c_email creds, c_password creds with
  | [], _ | _, [] => Eff.ret (failure "Email and password are required")
  | _, _ =>
      let* p := Eff.get in
      match users p !! toLowerCase pf (c_email creds) with
      | None => Eff.ret (failure "Invalid email or password")
      | Some user =>
          let passwordHash := hashPassword (c_password creds) (salt user) in
          if negb (bool_decide (passwordHash = EmailAccounts.passwordHash user))
          then Eff.ret (failure "Invalid email or password")
          else
            let* now := Eff.reading (dateNow pf) in
            let token :=
              EmailPassword.generateToken (tokens pf) (userId user) now in
            Eff.ret
              {| success := true;
                 token := Some token;
                 ar_userId := Some (userId user);
                 metadata := Some (email user, lit "email-password");
                 error := None |}
      end
  end.


Definition deleteUser (email : jsstring) : M bool :=
  let* p := Eff.get in
  do* Eff.modify (setUsers (base.delete (toLowerCase pf email))) in
  Eff.ret (bool_decide (is_Some (users p !! toLowerCase pf email))).

End WithPlatform.

End EmailAccounts.

(** ** More of the FIDO2 provider and of the store *)

Module FIDO2Credentials.

Import FIDO2.

(** [deleteCredential(credentialId)] *)
Definition deleteCredential (credentialId : jsstring) : Eff.t Provider bool :=
  let* p := Eff.get in
  do* Eff.modify (setCredentials (base.delete credentialId)) in
  Eff.ret (bool_decide (is_Some (credentials p !! credentialId))).

End FIDO2Credentials.

Module InMemoryStorageAdmin.

Import InMemoryStorage.

(** [size()]: the entries held, expired or not. *)
Definition size : M nat :=
  let* store := Eff.get in Eff.ret (base.size store).

End InMemoryStorageAdmin.

(** ** The engine ([packages/core/src/index.ts]) *)

Module IQAuth.

(** [registerPlugins(plugins)], run to its end. *)
Definition registerPlugins (plugins : option (list PluginLoader.IPlugin))
  : PluginLoader.M unit :=
  match plugins with
  | None => Eff.ret tt
  | Some l => do* Eff.mapM PluginLoader.register l in Eff.ret tt
  end.

End IQAuth.

(** ** More concrete inputs *)

Module RegistryExamples.

Import IdentityRegistry.

(** What [update("user:u1", {})] stores in place of the array of [u1]. *)
Definition looseOfU1 : Loose :=
  {| l_entries := [Examples.registeredWallet];
     l_type := None; l_userId := None; l_provider := None;
     l_data := None; l_verified := None;
     l_updatedAt := DateAt 1700000000003 |}.

(** The wallet after [update(id, { userId: 'u2' })]. *)
Definition movedWallet : Identity :=
  {| id := Examples.walletId; type := WALLET; userId := lit "u2";
     provider := lit "metamask";
     data := [(lit "address", JString (lit "0xabc"))];
     verified := false;
     createdAt := DateAt 1700000000002;
     updatedAt := DateAt 1700000000003 |}.

(** Calls that a client makes with the ids it was given. *)
Definition calls : list Call :=
  [CallRegister Examples.walletOfU1;
   CallVerifyIdentity Examples.walletId [];
   CallUpdate Examples.walletId Examples.movePayload;
   CallDeactivate (lit "1700000000000-unknown") (lit "lost");
   CallDelete Examples.walletId].

End RegistryExamples.

(** ** Sequences of calls on the plugin loader *)

Module PluginLoaderCalls.

Import PluginLoader.

(** A call of the loader's interface that can change the table. *)
Inductive Call :=
| CallRegister (plugin : IPlugin)
| CallInitialize (pluginName : jsstring) (config : list (jsstring * jsstring))
| CallUnregister (pluginName : jsstring)
| CallDestroyAll.

(** The world left by a call, whatever it returned or threw. *)
Definition perform (c : Call) (w : Eff.World Plugins) : Eff.World Plugins :=
  match c with
  | CallRegister plugin => snd (register plugin w)
  | CallInitialize pluginName config => snd (initialize pluginName config w)
  | CallUnregister pluginName => snd (unregister pluginName w)
  | CallDestroyAll => snd (destroyAll w)
  end.

Definition performAll (calls : list Call) (w : Eff.World Plugins)
  : Eff.World Plugins :=
  fold_left (fun w c => perform c w) calls w.

(** Every plugin is filed under its own name, and no name is held twice. *)
Definition wellKeyed (plugins : Plugins) : Prop :=
  Forall (fun kv => fst kv = name (snd kv)) plugins /\
  NoDup (List.map fst plugins).

End PluginLoaderCalls.

(** ** Concrete accounts, stores and calls *)

Module AccountExamples.

Import EmailAccounts.

Definition asciiLower (c : Z) : Z :=
  if (65 <=? c) && (c <=? 90) then c + 32 else c.

(** An environment for the e-mail provider: the digest of [Examples], a
    [toLowerCase] that knows the letters A to Z, salts that differ from one
    draw to the next, and a clock that advances by one millisecond per
    reading. *)
Definition platform : Platform :=
  {| tokens := Examples.emailPlatform;
     toLowerCase := List.map asciiLower;
     randomBytesHex := fun n => repeat (digitChar (Z.of_nat n mod 16)) 32;
     dateNow := fun n => 1700000000000 + Z.of_nat n |}.

(** [new EmailPasswordProvider()] *)
Definition fresh : Eff.World Provider :=
  Eff.mkWorld 0
    (new {| passwordMinLength := None; requireUppercase := None;
            requireLowercase := None; requireNumbers := None;
            requireSpecialChars := None; saltRounds := None |}).

Definition address : jsstring := lit "Alice@Example.com".
Definition lowerAddress : jsstring := lit "alice@example.com".
Definition password : jsstring := lit "Secret123".
Definition wrongPassword : jsstring := lit "Secret124".
Definition nextPassword : jsstring := lit "Better4567".
Definition account : jsstring := lit "user-1".

(** The provider after Alice has registered, and her entry. *)
Definition withAlice : Eff.World Provider :=
  snd (register platform address password account fresh).

Definition aliceAccount : User :=
  {| email := lowerAddress;
     passwordHash := hashPassword platform password (randomBytesHex platform 0);
     salt := randomBytesHex platform 0;
     userId := account |}.

Definition login : EmailPasswordCredentials :=
  {| c_email := address; c_password := password |}.

End AccountExamples.

Module StoreExamples.

(** A process whose clock advances by two seconds per reading. *)
Definition sparseRuntime : Runtime :=
  {| dateNow := fun n => 1700000000000 + 2000 * Z.of_nat n;
     mathRandom36 := fun _ => lit "0.i";
     toISOString := fun t => numberToString 10 t |}.

Definition session : StoreValue := VIdentity Examples.registeredWallet.

(** A store in which a value was set for one second, two seconds ago. *)
Definition held : Eff.World InMemoryStorage.Store :=
  snd (InMemoryStorage.set sparseRuntime (lit "session") session (Some 1)
         (Eff.mkWorld 0 ∅)).

Definition heldEntry : InMemoryStorage.StorageEntry :=
  {| InMemoryStorage.value := session;
     InMemoryStorage.expiresAt := Some 1700000001000 |}.

End StoreExamples.

(** * Properties *)

(** Unfolding of the effect operations, one step of a method at a time. *)
Ltac run :=
  unfold Eff.bind, Eff.ret, Eff.throw, Eff.get, Eff.modify, Eff.reading,
    Eff.call, Eff.lift, Eff.tryCatch, Eff.stuck;
  cbn [Eff.state Eff.steps fst snd].

(** ** Strings and numbers *)

Module JSFacts.

Lemma split_nonempty sep s : split sep s <> [].
Proof.
  destruct s as [|c s]; simpl; [discriminate|].
  destruct (c =? sep); [discriminate|].
  destruct (split sep s); discriminate.
Qed.

(** A string without the separator is a single field. *)
Lemma split_no_sep sep s : sep ∉ s -> split sep s = [s].
Proof.
  induction s as [|c s IH]; intros Hs; [reflexivity|].
  apply not_elem_of_cons in Hs as [Hc Hs]. simpl.
  destruct (Z.eqb_spec c sep); [congruence|].
  now rewrite (IH Hs).
Qed.

(** The first field ends at the first separator. *)
Lemma split_app sep a b :
  sep ∉ a -> split sep (a ++ sep :: b) = a :: split sep b.
Proof.
  induction a as [|c a IH]; intros Ha; simpl.
  - now rewrite Z.eqb_refl.
  - apply not_elem_of_cons in Ha as [Hc Ha].
    destruct (Z.eqb_spec c sep); [congruence|].
    now rewrite (IH Ha).
Qed.

(** There is one field more than there are separators. *)
Lemma split_length sep s :
  length (split sep s) = S (length (List.filter (Z.eqb sep) s)).
Proof.
  induction s as [|c s IH]; [reflexivity|]. simpl.
  rewrite (Z.eqb_sym sep c).
  destruct (c =? sep); simpl; [now rewrite IH|].
  destruct (split sep s) as [|p ps] eqn:E; [now apply split_nonempty in E|].
  exact IH.
Qed.

Lemma filter_app_length (f : Z -> bool) (a b : list Z) :
  length (List.filter f (a ++ b)) =
  (length (List.filter f a) + length (List.filter f b))%nat.
Proof. now rewrite List.filter_app, length_app. Qed.

Lemma filter_elem_length sep (s : list Z) :
  sep ∈ s -> (1 <= length (List.filter (Z.eqb sep) s))%nat.
Proof.
  induction s as [|c s IH]; intros Hs; [now apply elem_of_nil in Hs|].
  simpl. destruct (Z.eqb_spec sep c); simpl; [lia|].
  apply elem_of_cons in Hs as [->|Hs]; [congruence|auto].
Qed.

Lemma digitChar_digitLike radix n :
  2 <= radix <= 36 -> digitLike (digitChar (n mod radix)).
Proof.
  intros Hr. pose proof (Z.mod_pos_bound n radix ltac:(lia)) as Hm.
  unfold digitLike, digitChar. destruct (Z.ltb_spec (n mod radix) 10); lia.
Qed.

Lemma toDigits_digitLike radix fuel : forall n acc,
  2 <= radix <= 36 ->
  Forall digitLike acc -> Forall digitLike (toDigits radix fuel n acc).
Proof.
  induction fuel as [|fuel IH]; intros n acc Hr Hacc; simpl; [exact Hacc|].
  assert (Forall digitLike (digitChar (n mod radix) :: acc))
    by (constructor; [now apply digitChar_digitLike|exact Hacc]).
  destruct (n / radix =? 0); auto.
Qed.

Lemma toDigits_nonempty radix fuel n acc :
  toDigits radix (S fuel) n acc <> [].
Proof.
  revert n acc. induction fuel as [|fuel IH]; intros n acc.
  - simpl. destruct (n / radix =? 0); discriminate.
  - change (toDigits radix (S (S fuel)) n acc) with
      (let acc' := digitChar (n mod radix) :: acc in
       if n / radix =? 0 then acc' else toDigits radix (S fuel) (n / radix) acc').
    cbv zeta. destruct (n / radix =? 0); [discriminate|apply IH].
Qed.

Lemma digitFuel_enough n :
  0 <= n -> n < 2 ^ Z.of_nat (digitFuel n).
Proof.
  intros Hn. unfold digitFuel.
  rewrite Nat2Z.inj_succ, Z2Nat.id by apply Z.log2_nonneg.
  destruct (Z.eq_dec n 0) as [->|Hne]; [reflexivity|].
  apply Z.log2_spec. lia.
Qed.

Lemma parseDigits_digit d acc a :
  0 <= d < 10 ->
  parseDigits (digitChar d :: acc) a =
  parseDigits acc (Some (10 * default 0 a + d)).
Proof.
  intros Hd. simpl. unfold digitValue, digitChar.
  destruct (Z.ltb_spec d 10); [|lia].
  destruct (Z.leb_spec 48 (48 + d)); [|lia].
  destruct (Z.leb_spec (48 + d) 57); [|lia].
  simpl. do 2 f_equal. lia.
Qed.

(** Reading back the decimal digits written by [toDigits]. *)
Lemma parseDigits_toDigits fuel : forall n acc,
  0 <= n < 2 ^ Z.of_nat (S fuel) ->
  parseDigits (toDigits 10 (S fuel) n acc) None = parseDigits acc (Some n).
Proof.
  induction fuel as [|fuel IH]; intros n acc Hn.
  - change (2 ^ Z.of_nat 1) with 2 in Hn.
    assert (n / 10 = 0) as Hq by (apply Z.div_small; lia).
    assert (n mod 10 = n) as Hm by (apply Z.mod_small; lia).
    cbn [toDigits]. rewrite Hq, Hm. cbn [Z.eqb].
    rewrite parseDigits_digit by lia.
    now replace (10 * default 0 None + n) with n by (simpl; lia).
  - change (toDigits 10 (S (S fuel)) n acc) with
      (let acc' := digitChar (n mod 10) :: acc in
       if n / 10 =? 0 then acc' else toDigits 10 (S fuel) (n / 10) acc').
    cbv zeta.
    pose proof (Z.mod_pos_bound n 10 ltac:(lia)) as Hm.
    pose proof (Z.div_mod n 10 ltac:(lia)) as Hdm.
    destruct (Z.eqb_spec (n / 10) 0) as [Hq|Hq].
    + rewrite parseDigits_digit by lia.
      now replace (10 * default 0 None + n mod 10) with n by (simpl; lia).
    + rewrite IH.
      * rewrite parseDigits_digit by lia.
        now replace (10 * default 0 (Some (n / 10)) + n mod 10) with n
          by (simpl; lia).
      * split; [apply Z.div_pos; lia|].
        apply Z.div_lt_upper_bound; [lia|].
        rewrite (Nat2Z.inj_succ (S fuel)), Z.pow_succ_r in Hn by lia. lia.
Qed.

Lemma digitLike_plain c :
  digitLike c -> isWhiteSpace c = false /\ c <> minus /\ c <> plus /\ c <> colon.
Proof.
  unfold digitLike, isWhiteSpace, minus, plus, colon. intros Hc.
  repeat split; lia.
Qed.

(** [toString] never writes a colon. *)
Lemma numberToString_no_colon radix n :
  2 <= radix <= 36 -> colon ∉ numberToString radix n.
Proof.
  intros Hr Hin. unfold numberToString in Hin.
  assert (forall f m, colon ∉ toDigits radix f m []) as Hd.
  { intros f m Hc.
    pose proof (toDigits_digitLike radix f m [] Hr (Forall_nil_2 _)) as Hall.
    rewrite Forall_forall in Hall. apply Hall in Hc.
    now apply digitLike_plain in Hc. }
  destruct (n <? 0).
  - apply elem_of_cons in Hin as [Hin|Hin]; [discriminate|]. now apply Hd in Hin.
  - now apply Hd in Hin.
Qed.

(** [parseInt(n.toString(), 10) === n]. *)
Lemma parseInt_numberToString n : parseInt (numberToString 10 n) = Some n.
Proof.
  assert (forall m, 0 <= m ->
            parseInt (toDigits 10 (digitFuel m) m []) = Some m
            /\ parseDigits (toDigits 10 (digitFuel m) m []) None = Some m)
    as Hpos.
  { intros m Hm.
    pose proof (digitFuel_enough m Hm) as Hfuel.
    unfold digitFuel in *.
    set (f := Z.to_nat (Z.log2 m)) in *.
    pose proof (parseDigits_toDigits f m [] ltac:(lia)) as Hp.
    simpl parseDigits at 2 in Hp.
    split; [|exact Hp].
    pose proof (toDigits_digitLike 10 (S f) m [] ltac:(lia) (Forall_nil_2 _))
      as Hall.
    destruct (toDigits 10 (S f) m []) as [|c r] eqn:E;
      [now apply toDigits_nonempty in E|].
    apply Forall_cons in Hall as [Hc _].
    apply digitLike_plain in Hc as (Hws & Hm1 & Hp1 & _).
    unfold parseInt. simpl trimStart. rewrite Hws.
    destruct (Z.eqb_spec c minus); [congruence|].
    destruct (Z.eqb_spec c plus); [congruence|].
    exact Hp. }
  unfold numberToString. destruct (Z.ltb_spec n 0) as [Hn|Hn].
  - destruct (Hpos (- n) ltac:(lia)) as [_ Hp].
    unfold parseInt. cbn [trimStart].
    change (isWhiteSpace minus) with false. cbv iota.
    rewrite Z.eqb_refl, Hp. cbn [fmap option_fmap option_map]. f_equal. lia.
  - now apply Hpos.
Qed.

Lemma app_sep_inj (sep : Z) (a b x y : jsstring) :
  sep ∉ a -> sep ∉ b -> a ++ sep :: x = b ++ sep :: y -> a = b /\ x = y.
Proof.
  intros Ha Hb Heq.
  pose proof (f_equal (split sep) Heq) as Hs.
  rewrite !split_app in Hs by assumption.
  injection Hs as Hab _. subst b. split; [reflexivity|].
  apply app_inv_head in Heq. now injection Heq.
Qed.

Lemma toDigits_no_minus (f : nat) (n : Z) : minus ∉ toDigits 10 f n [].
Proof.
  intros Hin.
  pose proof (toDigits_digitLike 10 f n [] ltac:(lia) (Forall_nil_2 _))
    as Hall.
  rewrite Forall_forall in Hall. apply Hall in Hin.
  now apply digitLike_plain in Hin.
Qed.

Lemma numberToString_inj (a b : Z) :
  numberToString 10 a = numberToString 10 b -> a = b.
Proof.
  intros Heq. pose proof (parseInt_numberToString a) as Ha.
  rewrite Heq, parseInt_numberToString in Ha. now injection Ha.
Qed.

(** The text of a number, a dash and a suffix determines both parts. *)
Lemma numbered_inj (a b : Z) (x y : jsstring) :
  numberToString 10 a ++ minus :: x = numberToString 10 b ++ minus :: y ->
  a = b /\ x = y.
Proof.
  intros Heq.
  assert (numberToString 10 a = numberToString 10 b /\ x = y) as [Hn Hx].
  { unfold numberToString in *.
    pose proof (toDigits_no_minus (digitFuel (- a)) (- a)) as Hna.
    pose proof (toDigits_no_minus (digitFuel (- b)) (- b)) as Hnb.
    pose proof (toDigits_no_minus (digitFuel a) a) as Hpa.
    pose proof (toDigits_no_minus (digitFuel b) b) as Hpb.
    pose proof (toDigits_nonempty 10 (Z.to_nat (Z.log2 a)) a [])
      as Hea.
    pose proof (toDigits_nonempty 10 (Z.to_nat (Z.log2 b)) b [])
      as Heb.
    fold (digitFuel a) in Hea. fold (digitFuel b) in Heb.
    set (da := toDigits 10 (digitFuel a) a []) in *.
    set (db := toDigits 10 (digitFuel b) b []) in *.
    set (na := toDigits 10 (digitFuel (- a)) (- a) []) in *.
    set (nb := toDigits 10 (digitFuel (- b)) (- b) []) in *.
    clearbody da db na nb.
    destruct (a <? 0), (b <? 0).
    - injection Heq as Heq.
      apply app_sep_inj in Heq as [Hab Hxy]; [|assumption..].
      now subst.
    - exfalso. destruct db as [|c r]; [congruence|].
      injection Heq as Hc _. apply Hpb. rewrite <- Hc. left.
    - exfalso. destruct da as [|c r]; [congruence|].
      injection Heq as Hc _. apply Hpa. rewrite Hc. left.
    - apply app_sep_inj in Heq as [Hab Hxy]; [|assumption..].
      now subst. }
  split; [now apply numberToString_inj|exact Hx].
Qed.

Lemma toDigits_decimal (fuel : nat) : forall (n : Z) (acc : jsstring),
  Forall (fun c => 48 <= c <= 57) acc ->
  Forall (fun c => 48 <= c <= 57) (toDigits 10 fuel n acc).
Proof.
  induction fuel as [|fuel IH]; intros n acc Hacc; simpl; [exact Hacc|].
  assert (Forall (fun c => 48 <= c <= 57) (digitChar (n mod 10) :: acc)).
  { constructor; [|exact Hacc].
    pose proof (Z.mod_pos_bound n 10 ltac:(lia)). unfold digitChar.
    destruct (Z.ltb_spec (n mod 10) 10); lia. }
  destruct (n / 10 =? 0); auto.
Qed.

(** The text of a number never starts with a letter. *)
Lemma numberToString_head (n : Z) :
  exists c r, numberToString 10 n = c :: r /\ c <> 117.
Proof.
  unfold numberToString. destruct (n <? 0).
  - exists minus, (toDigits 10 (digitFuel (- n)) (- n) []). now split.
  - pose proof (toDigits_decimal (digitFuel n) n [] (Forall_nil_2 _)) as Hall.
    destruct (toDigits 10 (digitFuel n) n []) as [|c r] eqn:E;
      [now apply toDigits_nonempty in E|].
    apply Forall_cons in Hall as [Hc _]. exists c, r. split; [reflexivity|].
    lia.
Qed.

End JSFacts.

(** ** Session tokens of any provider *)

Module ProviderFacts.
Section Contract.

Variable signToken : jsstring -> jsstring -> jsstring.

Abbreviation verify := (Provider.verify signToken).
Abbreviation generateToken := (Provider.generateToken signToken).

Lemma verify_malformed token now :
  length (split colon token) <> 3%nat ->
  verify token now = Provider.rejected "Invalid token format".
Proof.
  unfold Provider.verify. intros Hlen.
  now destruct (Nat.eqb_spec (length (split colon token)) 3).
Qed.

Lemma verify_fields token now u t s :
  split colon token = [u; t; s] ->
  verify token now =
  if negb (bool_decide (s = signToken u t))
  then Provider.rejected "Invalid token signature"
  else if gt now (getTime (Provider.expiry t))
       then Provider.rejected "Token expired"
       else Provider.accepted u (Provider.expiry t).
Proof. unfold Provider.verify. now intros ->. Qed.

(** A subject with a colon yields a token of more than three fields. *)
Lemma generateToken_fields_colon userId t :
  colon ∈ userId ->
  (3 < length (split colon (generateToken userId t)))%nat.
Proof.
  intros Hin. unfold Provider.generateToken.
  rewrite JSFacts.split_length, JSFacts.filter_app_length.
  pose proof (JSFacts.filter_elem_length colon userId Hin).
  cbn [List.filter]. rewrite Z.eqb_refl. cbn [length].
  rewrite JSFacts.filter_app_length. cbn [List.filter].
  rewrite Z.eqb_refl. cbn [length]. lia.
Qed.

Lemma verify_colon_subject userId t now :
  colon ∈ userId ->
  verify (generateToken userId t) now =
  Provider.rejected "Invalid token format".
Proof.
  intros Hin. apply verify_malformed.
  pose proof (generateToken_fields_colon userId t Hin). lia.
Qed.

(** Two different reason texts are never equal. *)
Ltac reasons :=
  match goal with
  | H : Some (lit _) = Some (lit _) |- _ => vm_compute in H; discriminate
  | H : Some (lit _) = None |- _ => discriminate
  | H : None = Some _ |- _ => discriminate
  end.

(** Open the descriptions of the three kinds found among the hypotheses. *)
Ltac kinds :=
  repeat match goal with
         | H : _ \/ _ |- _ => destruct H
         | H : ex _ |- _ => destruct H
         | H : _ /\ _ |- _ => destruct H
         | H : [_; _; _] = [_; _; _] |- _ => injection H as -> -> ->
         | H1 : getTime ?d = Some _, H2 : getTime ?d = Some _ |- _ =>
             rewrite H1 in H2; injection H2 as ->
         end.

Ltac verdict :=
  cbn [vr_error valid Provider.rejected Provider.accepted length];
  repeat split; intros; kinds;
  try reasons; try discriminate; try reflexivity; try lia; try congruence.

(** Every verdict of [verify] is classified. *)
Lemma verify_classified token now :
  Provider.classified signToken token now (verify token now).
Proof.
  unfold Provider.classified, Provider.malformed, Provider.tampered,
    Provider.pastExpiry.
  destruct (decide (length (split colon token) = 3%nat)) as [Hlen|Hlen].
  - destruct (split colon token) as [|u [|t [|s [|x r]]]] eqn:E;
      try discriminate Hlen.
    rewrite (verify_fields token now u t s E).
    destruct (decide (s = signToken u t)) as [Hs|Hs].
    + rewrite bool_decide_eq_true_2 by exact Hs. cbn [negb].
      destruct (getTime (Provider.expiry t)) as [e|] eqn:He; cbn [gt].
      * destruct (Z.ltb_spec e now) as [Hlt|Hge]; verdict; naive_solver.
      * verdict.
    + rewrite bool_decide_eq_false_2 by exact Hs. cbn [negb].
      verdict; naive_solver.
  - rewrite verify_malformed by exact Hlen.
    verdict; try naive_solver;
      match goal with
      | H : split colon token = _ |- _ => rewrite H in Hlen; now destruct Hlen
      end.
Qed.

(** The three reasons are different texts, and no token is of two kinds. *)
Lemma reasons_distinct :
  lit "Invalid token format" <> lit "Invalid token signature" /\
  lit "Invalid token format" <> lit "Token expired" /\
  lit "Invalid token signature" <> lit "Token expired".
Proof. repeat split; intros H; vm_compute in H; discriminate. Qed.

Lemma kinds_exclusive token now :
  ~ (Provider.malformed token /\ Provider.tampered signToken token) /\
  ~ (Provider.malformed token /\ Provider.pastExpiry signToken token now) /\
  ~ (Provider.tampered signToken token /\
     Provider.pastExpiry signToken token now).
Proof.
  unfold Provider.malformed, Provider.tampered, Provider.pastExpiry.
  repeat split; intros [H1 H2].
  - destruct H2 as (u & t & s & E & _). rewrite E in H1. now apply H1.
  - destruct H2 as (u & t & s & e & E & _). rewrite E in H1. now apply H1.
  - destruct H1 as (u & t & s & E & Hne).
    destruct H2 as (u' & t' & s' & e & E' & Heq & _).
    rewrite E in E'. inversion E'; subst. now apply Hne.
Qed.

Hypothesis signToken_no_colon : forall u t, colon ∉ signToken u t.

Lemma split_generateToken userId t :
  colon ∉ userId ->
  split colon (generateToken userId t) =
  [userId; numberToString 10 t; signToken userId (numberToString 10 t)].
Proof.
  intros Hu. unfold Provider.generateToken.
  rewrite JSFacts.split_app by exact Hu.
  rewrite JSFacts.split_app by (apply JSFacts.numberToString_no_colon; lia).
  now rewrite JSFacts.split_no_sep by apply signToken_no_colon.
Qed.

Lemma expiry_numberToString t :
  - maxTime <= t + Provider.day <= maxTime ->
  Provider.expiry (numberToString 10 t) = DateAt (t + Provider.day).
Proof.
  intros Ht. unfold Provider.expiry.
  rewrite JSFacts.parseInt_numberToString. cbn [fmap option_fmap option_map].
  unfold newDate. destruct (Z.leb_spec (Z.abs (t + Provider.day)) maxTime); [reflexivity|lia].
Qed.

(** A minted token is accepted up to and including its expiry time, and is
    expired after it. *)
Lemma verify_generateToken userId t now :
  colon ∉ userId ->
  - maxTime <= t + Provider.day <= maxTime ->
  verify (generateToken userId t) now =
  if t + Provider.day <? now then Provider.rejected "Token expired"
  else Provider.accepted userId (DateAt (t + Provider.day)).
Proof.
  intros Hu Ht.
  rewrite (verify_fields _ _ _ _ _ (split_generateToken userId t Hu)).
  rewrite bool_decide_eq_true_2 by reflexivity. cbn [negb].
  now rewrite expiry_numberToString by exact Ht.
Qed.

End Contract.
End ProviderFacts.

Module FIDO2Facts.

Lemma signToken_no_colon pf u t : colon ∉ FIDO2.signToken pf u t.
Proof. apply JSFacts.numberToString_no_colon. lia. Qed.

End FIDO2Facts.

Module EmailPasswordFacts.

(** A hexadecimal digest has no colon; so has the stand-in digest of the
    examples. *)
Lemma example_digest_no_colon s :
  colon ∉ EmailPassword.sha256Hex Examples.emailPlatform s.
Proof.
  cbn [EmailPassword.sha256Hex Examples.emailPlatform]. intros Hin.
  apply list_elem_of_In, repeat_spec in Hin.
  pose proof (JSFacts.digitChar_digitLike 16 (fold_left Z.add s 0) ltac:(lia))
    as Hd.
  rewrite <- Hin in Hd. now apply JSFacts.digitLike_plain in Hd.
Qed.

End EmailPasswordFacts.

(** ** Claims about session tokens *)

Module TokenClaims.

(** C4 (as amended).  For a subject without a colon, the token minted at
    time [t] by either provider is accepted by that provider's [verify],
    with the same subject and [expiresAt = t + 24h], whenever [verify] runs
    at or before [t + 24h], and is refused as expired whenever it runs
    strictly after [t + 24h].  The SHA-256 digest of the e-mail provider is
    assumed to be colon-free (it is hexadecimal), and [t + 24h] to be a time
    a [Date] can hold. *)
Theorem token_round_trip
  (fp : FIDO2.Platform) (ep : EmailPassword.Platform)
  (userId : jsstring) (t now : Z) :
  colon ∉ userId ->
  (forall s, colon ∉ EmailPassword.sha256Hex ep s) ->
  - maxTime <= t + Provider.day <= maxTime ->
  (now <= t + Provider.day ->
   FIDO2.verify fp (FIDO2.generateSessionToken fp userId t) now =
     Provider.accepted userId (DateAt (t + Provider.day)) /\
   EmailPassword.verify ep (EmailPassword.generateToken ep userId t) now =
     Provider.accepted userId (DateAt (t + Provider.day))) /\
  (t + Provider.day < now ->
   FIDO2.verify fp (FIDO2.generateSessionToken fp userId t) now =
     Provider.rejected "Token expired" /\
   EmailPassword.verify ep (EmailPassword.generateToken ep userId t) now =
     Provider.rejected "Token expired").
Proof.
  intros Hu Hsha Ht.
  unfold FIDO2.verify, FIDO2.generateSessionToken, EmailPassword.verify,
    EmailPassword.generateToken.
  rewrite !ProviderFacts.verify_generateToken;
    try exact Hu; try exact Ht;
    try (intros; apply FIDO2Facts.signToken_no_colon);
    try (intros; apply Hsha).
  split; intros Hnow.
  - destruct (Z.ltb_spec (t + Provider.day) now); [lia|now split].
  - destruct (Z.ltb_spec (t + Provider.day) now); [now split|lia].
Qed.

Lemma token_round_trip_witness :
  (colon ∉ Examples.user123) /\
  (forall s, colon ∉ EmailPassword.sha256Hex Examples.emailPlatform s) /\
  (- maxTime <= 1700000000000 + Provider.day <= maxTime) /\
  FIDO2.verify (Examples.platform 0)
    (FIDO2.generateSessionToken (Examples.platform 0) Examples.user123
       1700000000000) 1700000001000 =
  Provider.accepted Examples.user123 (DateAt (1700000000000 + Provider.day)).
Proof.
  assert (colon ∉ Examples.user123) as Hu
    by (apply (bool_decide_unpack _); vm_compute; exact I).
  assert (- maxTime <= 1700000000000 + Provider.day <= maxTime) as Ht
    by (vm_compute; split; discriminate).
  split; [exact Hu|].
  split; [exact EmailPasswordFacts.example_digest_no_colon|].
  split; [exact Ht|].
  destruct (token_round_trip (Examples.platform 0) Examples.emailPlatform
              Examples.user123 1700000000000 1700000001000 Hu
              EmailPasswordFacts.example_digest_no_colon Ht) as [Hok _].
  apply Hok. vm_compute. discriminate.
Defined.

(** C4 as stated fails at the boundary: a token minted at [t] and verified
    exactly at [t + 24h] is still valid, because [verify] refuses only when
    [Date.now() > expiresAt.getTime()]. *)
Lemma token_valid_at_expiry :
  (colon ∉ Examples.user123) /\
  valid (FIDO2.verify (Examples.platform 0)
           (FIDO2.generateSessionToken (Examples.platform 0) Examples.user123
              1700000000000)
           (1700000000000 + 24 * 60 * 60 * 1000)) = true /\
  valid (EmailPassword.verify Examples.emailPlatform
           (EmailPassword.generateToken Examples.emailPlatform Examples.user123
              1700000000000)
           (1700000000000 + 24 * 60 * 60 * 1000)) = true.
Proof.
  split; [apply (bool_decide_unpack _); vm_compute; exact I|].
  split; vm_compute; reflexivity.
Qed.

(** C5.  For every input string and both providers, [verify] gives the
    reason "Invalid token format" exactly to the tokens whose field count is
    not three, "Invalid token signature" exactly to the three-field tokens
    whose signature is not the keyed hash of the first two fields, and
    "Token expired" exactly to the well-formed, correctly signed tokens past
    their validity window; it answers [valid = false] exactly in these three
    cases; the three reasons are different texts and no token falls under
    two of them. *)
Theorem verify_rejections_classified
  (fp : FIDO2.Platform) (ep : EmailPassword.Platform)
  (token : jsstring) (now : Z) :
  Provider.classified (FIDO2.signToken fp) token now
    (FIDO2.verify fp token now) /\
  Provider.classified (EmailPassword.signToken ep) token now
    (EmailPassword.verify ep token now) /\
  (lit "Invalid token format" <> lit "Invalid token signature" /\
   lit "Invalid token format" <> lit "Token expired" /\
   lit "Invalid token signature" <> lit "Token expired") /\
  ~ (Provider.malformed token /\
     (Provider.tampered (FIDO2.signToken fp) token \/
      Provider.tampered (EmailPassword.signToken ep) token \/
      Provider.pastExpiry (FIDO2.signToken fp) token now \/
      Provider.pastExpiry (EmailPassword.signToken ep) token now)) /\
  ~ (Provider.tampered (FIDO2.signToken fp) token /\
     Provider.pastExpiry (FIDO2.signToken fp) token now) /\
  ~ (Provider.tampered (EmailPassword.signToken ep) token /\
     Provider.pastExpiry (EmailPassword.signToken ep) token now).
Proof.
  pose proof (ProviderFacts.kinds_exclusive (FIDO2.signToken fp) token now)
    as (F1 & F2 & F3).
  pose proof (ProviderFacts.kinds_exclusive (EmailPassword.signToken ep)
                token now) as (E1 & E2 & E3).
  split; [apply ProviderFacts.verify_classified|].
  split; [apply ProviderFacts.verify_classified|].
  split; [apply ProviderFacts.reasons_distinct|].
  repeat split; try assumption.
  intros [Hm [H|[H|[H|H]]]]; tauto.
Qed.

(** C10.  For every subject that contains a colon, the token minted by
    either provider splits into more than three colon-separated fields, and
    the provider's own [verify] refuses it with "Invalid token format": the
    minter does not enforce the no-colon restriction. *)
Theorem colon_subject_token_malformed
  (fp : FIDO2.Platform) (ep : EmailPassword.Platform)
  (userId : jsstring) (t now : Z) :
  colon ∈ userId ->
  ((3 < length (split colon (FIDO2.generateSessionToken fp userId t)))%nat /\
   FIDO2.verify fp (FIDO2.generateSessionToken fp userId t) now =
     Provider.rejected "Invalid token format") /\
  ((3 < length (split colon (EmailPassword.generateToken ep userId t)))%nat /\
   EmailPassword.verify ep (EmailPassword.generateToken ep userId t) now =
     Provider.rejected "Invalid token format").
Proof.
  intros Hin. repeat split;
    try (apply ProviderFacts.generateToken_fields_colon; exact Hin);
    apply ProviderFacts.verify_colon_subject; exact Hin.
Qed.

Lemma colon_subject_token_malformed_witness :
  (colon ∈ lit "team:alice") /\
  FIDO2.verify (Examples.platform 0)
    (FIDO2.generateSessionToken (Examples.platform 0) (lit "team:alice")
       1700000000000) 1700000000001 =
  Provider.rejected "Invalid token format".
Proof.
  assert (colon ∈ lit "team:alice") as Hin
    by (apply (bool_decide_unpack _); vm_compute; exact I).
  split; [exact Hin|].
  apply (colon_subject_token_malformed (Examples.platform 0)
           Examples.emailPlatform (lit "team:alice") 1700000000000
           1700000000001 Hin).
Defined.

End TokenClaims.

(** ** The FIDO2 provider: ceremonies *)

Module FIDO2Ceremonies.

Import FIDO2.

(** Case analysis on the innermost undetermined step. *)
Ltac case_step :=
  match goal with
  | |- context [match ?x with _ => _ end] =>
      lazymatch x with
      | context [match _ with _ => _ end] => fail
      | _ => destruct x
      end
  end;
  cbn [Eff.state Eff.steps fst snd setChallenges setCredentials challenges
         negb completion].

(** Building credential descriptors touches neither the state nor the
    environment. *)
Lemma mapM_descriptor_pure pf (l : list FIDO2Credential) w :
  snd (Eff.mapM (descriptor pf) l w) = w.
Proof.
  induction l as [|cred l IH]; [reflexivity|].
  cbn [Eff.mapM]. unfold descriptor at 1. run.
  destruct (base64UrlToArrayBuffer pf (id cred)); cbn [completion];
    try reflexivity.
  destruct (Eff.mapM (descriptor pf) l w) as [[ds| |] w1]; exact IH.
Qed.

Lemma descriptors_pure pf creds w : snd (descriptors pf creds w) = w.
Proof.
  destruct creds as [l|]; [|reflexivity].
  unfold descriptors. run.
  pose proof (mapM_descriptor_pure pf l w) as Hp.
  destruct (Eff.mapM (descriptor pf) l w) as [[ds| |] w1]; exact Hp.
Qed.

(** [generateAuthenticationOptions] stores one challenge and changes
    nothing else, whether or not it returns. *)
Lemma generateAuthenticationOptions_world pf options w :
  snd (generateAuthenticationOptions pf options w) =
  Eff.mkWorld (S (S (S (S (Eff.steps w)))))
    (setChallenges <[mintedChallengeId pf w := mintedChallenge pf w]>
       (Eff.state w)).
Proof.
  unfold generateAuthenticationOptions, generateChallenge, generateChallengeId.
  run.
  match goal with
  | |- context [descriptors pf ?c ?w0] =>
      pose proof (descriptors_pure pf c w0) as Hp;
      destruct (descriptors pf c w0) as [[ds| |] w1]
  end; cbn [snd] in *; subst; reflexivity.
Qed.

(** [authenticate] never removes a challenge: whatever the outcome, the
    challenge it stored is still there afterwards. *)
Lemma authenticate_challenges pf credentials w :
  hasWebAuthn pf = true ->
  challenges (Eff.state (snd (authenticate pf credentials w))) =
  <[mintedChallengeId pf w := mintedChallenge pf w]>
    (challenges (Eff.state w)).
Proof.
  intros Hsup. unfold authenticate, isSupported. rewrite Hsup. cbn [negb].
  pose proof (generateAuthenticationOptions_world pf credentials w) as Hw1.
  run.
  destruct (generateAuthenticationOptions pf credentials w)
    as [[publicKeyOptions| |] w1]; cbn [snd] in Hw1; subst w1;
    cbn [Eff.state Eff.steps snd setChallenges challenges]; try reflexivity.
  unfold completion. repeat case_step; reflexivity.
Qed.

Lemma generateRegistrationOptions_world pf options w :
  snd (generateRegistrationOptions pf options w) =
  Eff.mkWorld (S (S (Eff.steps w)))
    (setChallenges
       <[ro_userId options :=
           {| challenge := getRandomValues pf (Eff.steps w);
              timestamp := dateNow pf (S (Eff.steps w)) |}]>
       (Eff.state w)).
Proof.
  unfold generateRegistrationOptions, generateChallenge. run.
  match goal with
  | |- context [descriptors pf ?c ?w0] =>
      pose proof (descriptors_pure pf c w0) as Hp;
      destruct (descriptors pf c w0) as [[ds| |] w1]
  end; cbn [snd] in *; subst; reflexivity.
Qed.

(** Once the registration ceremony has been started, [register] deletes
    the challenge of the user on every path. *)
Lemma register_consumes_challenge pf options w publicKeyOptions w1 :
  hasWebAuthn pf = true ->
  generateRegistrationOptions pf options w = (Return publicKeyOptions, w1) ->
  challenges (Eff.state (snd (register pf options w)))
    !! ro_userId options = None.
Proof.
  intros Hsup Hgen. unfold register, isSupported. rewrite Hsup. cbn [negb].
  run. rewrite Hgen. cbn [Eff.state Eff.steps].
  unfold completion. repeat case_step; apply lookup_delete_eq.
Qed.

Lemma mapM_descriptor_stuck_free (pf : Platform) (l : list FIDO2Credential)
  (w : Eff.World Provider) :
  fst (Eff.mapM (descriptor pf) l w) <> Stuck.
Proof.
  induction l as [|cred l IH]; [discriminate|].
  cbn [Eff.mapM]. unfold descriptor at 1. run.
  destruct (base64UrlToArrayBuffer pf (id cred)); cbn [completion];
    [|discriminate].
  destruct (Eff.mapM (descriptor pf) l w) as [[ds| |] w1];
    cbn [fst] in *; congruence.
Qed.

Lemma generateAuthenticationOptions_stuck_free (pf : Platform)
  (options : AuthenticationOptions) (w : Eff.World Provider) :
  fst (generateAuthenticationOptions pf options w) <> Stuck.
Proof.
  unfold generateAuthenticationOptions, generateChallenge, generateChallengeId,
    descriptors.
  run. destruct (allowCredentials options) as [l|]; run; [|discriminate].
  match goal with
  | |- context [Eff.mapM (descriptor pf) l ?w0] =>
      pose proof (mapM_descriptor_stuck_free pf l w0) as Hp;
      destruct (Eff.mapM (descriptor pf) l w0) as [[ds| |] w1]
  end; cbn [fst] in *; congruence.
Qed.

(** [authenticate] always returns a result: every throw is caught. *)
Lemma authenticate_returns (pf : Platform) (credentials : AuthenticationOptions)
  (w : Eff.World Provider) :
  exists result, fst (authenticate pf credentials w) = Return result.
Proof.
  unfold authenticate. destruct (negb (isSupported pf)); [now eexists|].
  pose proof (generateAuthenticationOptions_stuck_free pf credentials w) as Hgen.
  run.
  destruct (generateAuthenticationOptions pf credentials w)
    as [[publicKeyOptions|e|] w1]; cbn [fst] in *;
    [|now eexists|now destruct Hgen].
  unfold completion. repeat case_step; now eexists.
Qed.

(** An unsuccessful [authenticate] leaves every credential as it was. *)
Lemma authenticate_failure_frame (pf : Platform)
  (credentials : AuthenticationOptions) (w : Eff.World Provider)
  (result : AuthResult) :
  fst (authenticate pf credentials w) = Return result ->
  success result = false ->
  FIDO2.credentials (Eff.state (snd (authenticate pf credentials w)))
  = FIDO2.credentials (Eff.state w).
Proof.
  unfold authenticate. destruct (negb (isSupported pf)); [reflexivity|].
  pose proof (generateAuthenticationOptions_world pf credentials w) as Hw1.
  run.
  destruct (generateAuthenticationOptions pf credentials w)
    as [[publicKeyOptions|e|] w1]; cbn [snd] in Hw1; subst w1;
    cbn [Eff.state Eff.steps fst snd setChallenges FIDO2.credentials];
    try reflexivity.
  unfold completion.
  repeat case_step;
    cbn [Eff.state Eff.steps fst snd setChallenges FIDO2.credentials];
    try reflexivity.
  intros Hres Hfalse. injection Hres as <-. discriminate.
Qed.

(** Outside that window [register] keeps the challenge: in an unsupported
    environment it throws before anything else. *)
Lemma register_unsupported pf options w :
  hasWebAuthn pf = false ->
  register pf options w =
  (Throw (JsError (lit "WebAuthn is not supported in this environment")), w).
Proof. intros Hsup. unfold register, isSupported. now rewrite Hsup. Qed.

End FIDO2Ceremonies.

Module FIDO2Claims.

Import FIDO2 FIDO2Ceremonies.

(** C1.  Replay protection.  Take a call to [authenticate], in a supported
    environment, whose ceremony returns an assertion for a registered
    credential with stored counter [N = counter stored], carrying the
    counter value [c].  If [c <= N] the call returns an unsuccessful result
    and the stored credentials, so the counter [N], are untouched; when the
    client data passes the type and origin checks, the reason given is the
    security rejection "Invalid counter - possible cloned authenticator".
    If [c > N] and the client data passes these checks, the call returns a
    successful result for the credential's user and the stored counter is
    exactly [c]. *)
Theorem authenticate_replay_protection
  (pf : Platform) (w w1 : Eff.World Provider)
  (credentials : AuthenticationOptions)
  (publicKeyOptions : PublicKeyCredentialRequestOptions)
  (assertion : AssertionCredential) (stored : FIDO2Credential) (c : Z) :
  hasWebAuthn pf = true ->
  generateAuthenticationOptions pf credentials w
    = (Return publicKeyOptions, w1) ->
  credentialsGet pf (Eff.steps w1) publicKeyOptions
    = Returns (Some assertion) ->
  FIDO2.credentials (Eff.state w)
    !! arrayBufferToBase64Url pf (as_rawId assertion) = Some stored ->
  getCounterFromAuthData pf (as_authenticatorData assertion) = Returns c ->
  exists result w',
    authenticate pf credentials w = (Return result, w') /\
    (c <= counter stored ->
     success result = false /\
     FIDO2.credentials (Eff.state w') = FIDO2.credentials (Eff.state w) /\
     (counter <$> FIDO2.credentials (Eff.state w')
        !! arrayBufferToBase64Url pf (as_rawId assertion))
       = Some (counter stored)) /\
    (forall clientData,
       parseClientData pf (as_clientDataJSON assertion) = Returns clientData ->
       cd_type clientData = Some (lit "webauthn.get") ->
       cd_origin clientData = Some (origin (config (Eff.state w))) ->
       (c <= counter stored ->
        ar_error result =
          Some (lit "Invalid counter - possible cloned authenticator")) /\
       (counter stored < c ->
        success result = true /\
        ar_userId result = Some (userId stored) /\
        ar_metadata result =
          Some (arrayBufferToBase64Url pf (as_rawId assertion), c) /\
        (counter <$> FIDO2.credentials (Eff.state w')
           !! arrayBufferToBase64Url pf (as_rawId assertion)) = Some c /\
        FIDO2.credentials (Eff.state w') =
          <[arrayBufferToBase64Url pf (as_rawId assertion)
              := setCounter c stored]>
            (FIDO2.credentials (Eff.state w)))).
Proof.
  intros Hsup Hgen Hget Hstored Hcounter.
  pose proof (generateAuthenticationOptions_world pf credentials w) as Hw1.
  rewrite Hgen in Hw1. cbn [snd] in Hw1.
  unfold authenticate, isSupported. rewrite Hsup. cbn [negb].
  run. rewrite Hgen, Hget. subst w1. cbn [Eff.state Eff.steps completion].
  cbn [setChallenges FIDO2.credentials config].
  rewrite Hstored.
  destruct (parseClientData pf (as_clientDataJSON assertion))
    as [clientData|e] eqn:Hparse; cbn [completion].
  2:{ eexists _, _. split; [reflexivity|].
      cbn [Eff.state FIDO2.credentials success failure setChallenges].
      rewrite Hstored.
      split; [now intros _|]. intros clientData Hcd. discriminate. }
  destruct (decide (cd_type clientData = Some (lit "webauthn.get")))
    as [Htype|Htype].
  2:{ rewrite bool_decide_eq_false_2 by exact Htype. cbn [negb].
      eexists _, _. split; [reflexivity|].
      cbn [Eff.state FIDO2.credentials success failure setChallenges].
      rewrite Hstored.
      split; [now intros _|]. intros cd Hcd. injection Hcd as <-.
      intros Hty. now destruct Htype. }
  rewrite bool_decide_eq_true_2 by exact Htype. cbn [negb].
  destruct (decide (cd_origin clientData = Some (origin (config (Eff.state w)))))
    as [Horigin|Horigin].
  2:{ rewrite bool_decide_eq_false_2 by exact Horigin. cbn [negb].
      eexists _, _. split; [reflexivity|].
      cbn [Eff.state FIDO2.credentials success failure setChallenges].
      rewrite Hstored.
      split; [now intros _|]. intros cd Hcd. injection Hcd as <-.
      intros _ Hor. now destruct Horigin. }
  rewrite bool_decide_eq_true_2 by exact Horigin. cbn [negb].
  rewrite Hcounter. cbn [completion].
  destruct (Z.leb_spec c (counter stored)) as [Hle|Hgt].
  - eexists _, _. split; [reflexivity|].
    cbn [Eff.state FIDO2.credentials success ar_error failure setChallenges].
    rewrite Hstored. split; [now intros _|].
    intros _ _ _ _. split; [now intros _|lia].
  - eexists _, _. split; [reflexivity|].
    split; [lia|]. intros _ _ _ _. split; [lia|]. intros _.
    cbn [success ar_userId ar_metadata Eff.state setCredentials
           FIDO2.credentials].
    repeat split. now rewrite lookup_insert_eq.
Qed.

Lemma authenticate_replay_protection_witness :
  hasWebAuthn (Examples.platform 1) = true /\
  (counter <$> FIDO2.credentials (Eff.state Examples.registered)
     !! Examples.credentialId) = Some 0 /\
  getCounterFromAuthData (Examples.platform 1) (Examples.authenticatorData 1)
    = Returns 1 /\
  exists result w',
    authenticate (Examples.platform 1) Examples.anyCredential
      Examples.registered = (Return result, w') /\
    success result = true /\
    (counter <$> FIDO2.credentials (Eff.state w') !! Examples.credentialId)
      = Some 1.
Proof.
  split; [reflexivity|]. split; [vm_compute; reflexivity|].
  split; [vm_compute; reflexivity|].
  set (assertion := {| as_rawId := Examples.rawId; as_clientDataJSON := [2];
                       as_authenticatorData := Examples.authenticatorData 1 |}).
  set (clientData := {| cd_type := Some (lit "webauthn.get");
                        cd_origin := Some Examples.origin |}).
  destruct (generateAuthenticationOptions (Examples.platform 1)
              Examples.anyCredential Examples.registered)
    as [[publicKeyOptions| |] w1] eqn:Hgen; try (vm_compute in Hgen; discriminate).
  destruct (FIDO2.credentials (Eff.state Examples.registered)
              !! arrayBufferToBase64Url (Examples.platform 1) (as_rawId assertion))
    as [stored|] eqn:Hstored; [|vm_compute in Hstored; discriminate].
  assert (counter stored = 0) as Hzero
    by (vm_compute in Hstored; injection Hstored as <-; reflexivity).
  assert (arrayBufferToBase64Url (Examples.platform 1) (as_rawId assertion)
          = Examples.credentialId) as Hid by (vm_compute; reflexivity).
  assert (cd_origin clientData
          = Some (origin (config (Eff.state Examples.registered)))) as Horigin
    by (vm_compute; reflexivity).
  assert (getCounterFromAuthData (Examples.platform 1)
            (as_authenticatorData assertion) = Returns 1) as Hcounter
    by (vm_compute; reflexivity).
  destruct (authenticate_replay_protection (Examples.platform 1)
              Examples.registered w1 Examples.anyCredential publicKeyOptions
              assertion stored 1 eq_refl Hgen eq_refl Hstored Hcounter)
    as (result & w' & Hrun & _ & Hchecked).
  exists result, w'. split; [exact Hrun|].
  destruct (Hchecked clientData eq_refl eq_refl Horigin) as [_ Hfresh].
  destruct (Hfresh ltac:(lia)) as (Hok & _ & _ & Hc & _).
  rewrite Hid in Hc. split; [exact Hok|exact Hc].
Defined.

(** The scenario of the specification: with the stored counter at 0, an
    assertion with counter 1 succeeds, the same assertion replayed fails and
    leaves the counter at 1, and an assertion with counter 2 succeeds. *)
Lemma counter_sequence_scenario :
  let attempt c w := authenticate (Examples.platform c) Examples.anyCredential w in
  let w1 := snd (attempt 1 Examples.registered) in
  let w2 := snd (attempt 1 w1) in
  let w3 := snd (attempt 2 w2) in
  let stored (w : Eff.World Provider) :=
    counter <$> FIDO2.credentials (Eff.state w) !! Examples.credentialId in
  stored Examples.registered = Some 0 /\
  mapCompletion success (fst (attempt 1 Examples.registered)) = Return true /\
  stored w1 = Some 1 /\
  mapCompletion ar_error (fst (attempt 1 w1))
    = Return (Some (lit "Invalid counter - possible cloned authenticator")) /\
  stored w2 = Some 1 /\
  mapCompletion success (fst (attempt 2 w2)) = Return true /\
  stored w3 = Some 2.
Proof. repeat split; vm_compute; reflexivity. Qed.

(** C2, at a concrete input.  In the environment of the tests, with no
    challenge pending, a successful [authenticate] leaves behind the
    challenge it stored under its freshly minted challenge id: the attempt
    did not consume it. *)
Lemma authenticate_leaves_challenge :
  challenges (Eff.state Examples.registered) = ∅ /\
  mapCompletion success
    (fst (authenticate (Examples.platform 1) Examples.anyCredential
            Examples.registered)) = Return true /\
  is_Some
    (challenges
       (Eff.state
          (snd (authenticate (Examples.platform 1) Examples.anyCredential
                  Examples.registered)))
       !! lit "challenge-1700000000005-4fzyo82mvyr").
Proof.
  split; [vm_compute; reflexivity|].
  split; [vm_compute; reflexivity|].
  apply (bool_decide_unpack _). vm_compute. exact I.
Qed.

(** The same defect on the registration side: [generateRegistrationOptions]
    runs before the [try], so a [register] call that fails while building
    its options leaves the challenge it has just stored. *)
Lemma register_leaves_challenge :
  (exists e, fst (register (Examples.platform 0)
                    Examples.registrationBadExclude Examples.fresh) = Throw e) /\
  is_Some
    (challenges
       (Eff.state
          (snd (register (Examples.platform 0)
                  Examples.registrationBadExclude Examples.fresh)))
       !! Examples.user123).
Proof.
  split; [eexists; vm_compute; reflexivity|].
  apply (bool_decide_unpack _). vm_compute. exact I.
Qed.

End FIDO2Claims.

(** ** The plugin loader *)

Module PluginLoaderFacts.

Import PluginLoader.

Lemma mapGet_mapDelete_eq k (m : Plugins) : mapGet k (mapDelete k m) = None.
Proof.
  induction m as [|[k' v] m IH]; [reflexivity|].
  unfold mapDelete in *. cbn [List.filter fst].
  destruct (decide (k' = k)) as [Heq|Hne].
  - now rewrite bool_decide_eq_true_2 by exact Heq.
  - rewrite bool_decide_eq_false_2 by exact Hne. cbn [negb mapGet].
    now rewrite bool_decide_eq_false_2 by exact Hne.
Qed.

Lemma mapGet_mapDelete_ne k k' (m : Plugins) :
  k' <> k -> mapGet k' (mapDelete k m) = mapGet k' m.
Proof.
  intros Hne. induction m as [|[k0 v] m IH]; [reflexivity|].
  unfold mapDelete in *. cbn [List.filter fst].
  destruct (decide (k0 = k)) as [Heq|Hne0].
  - rewrite bool_decide_eq_true_2 by exact Heq. cbn [negb mapGet].
    subst k0. now rewrite bool_decide_eq_false_2 by congruence.
  - rewrite bool_decide_eq_false_2 by exact Hne0. cbn [negb mapGet].
    now rewrite IH.
Qed.

(** C8 (as amended).  [unregister(name)] calls the plugin's [destroy] and
    then removes the plugin: when [destroy] completes, the call completes,
    [get(name)] returns absent afterwards and every other plugin stays;
    when [destroy] raises, the error propagates and the table is unchanged,
    so [get(name)] still returns the plugin; for an unknown name it raises
    "not found" and the table is unchanged. *)
Theorem unregister_bookkeeping
  (w : Eff.World Plugins) (pluginName : jsstring) :
  match mapGet pluginName (Eff.state w) with
  | None =>
      unregister pluginName w = (Throw (JsError (notFound pluginName)), w)
  | Some plugin =>
      match plugin_destroy plugin (Eff.steps w) with
      | Returns _ =>
          exists w',
            unregister pluginName w = (Return tt, w') /\
            fst (get pluginName w') = Return None /\
            forall other, other <> pluginName ->
              fst (get other w') = fst (get other w)
      | Throws e =>
          exists w',
            unregister pluginName w = (Throw e, w') /\
            Eff.state w' = Eff.state w /\
            fst (get pluginName w') = Return (Some plugin)
      end
  end.
Proof.
  unfold unregister, get, Eff.bind, Eff.get, Eff.call, Eff.modify, Eff.ret,
    Eff.throw.
  cbn [Eff.state Eff.steps fst].
  destruct (mapGet pluginName (Eff.state w)) as [plugin|] eqn:Hget;
    [|reflexivity].
  destruct (plugin_destroy plugin (Eff.steps w)) as [[]|e]; cbn [completion].
  - eexists. split; [reflexivity|]. cbn [Eff.state fst]. split.
    + now rewrite mapGet_mapDelete_eq.
    + intros other Hne. now rewrite mapGet_mapDelete_ne.
  - eexists. split; [reflexivity|]. cbn [Eff.state fst].
    split; [reflexivity|]. now rewrite Hget.
Qed.

(** C8 as stated fails: when [destroy] raises, [unregister] raises before
    it reaches [plugins.delete], and the plugin is still registered. *)
Lemma unregister_destroy_failure_keeps_plugin :
  fst (get (lit "wallet") Examples.loader)
    = Return (Some Examples.brokenPlugin) /\
  fst (unregister (lit "wallet") Examples.loader)
    = Throw (JsError (lit "provider still connected")) /\
  fst (get (lit "wallet") (snd (unregister (lit "wallet") Examples.loader)))
    = Return (Some Examples.brokenPlugin).
Proof. repeat split; vm_compute; reflexivity. Qed.

End PluginLoaderFacts.

(** ** The identity registry *)

Module RegistryFacts.

Import InMemoryStorage IdentityRegistry.

(** Reading an entry without expiry returns its value and changes nothing. *)
Lemma storage_get_plain (rt : Runtime) (key : jsstring)
  (w : Eff.World Store) (v : StoreValue) :
  Eff.state w !! key = Some {| value := v; expiresAt := None |} ->
  InMemoryStorage.get rt key w = (Return (Some v), w).
Proof.
  intros Hk. unfold InMemoryStorage.get, expired. run. now rewrite Hk.
Qed.

Lemma storage_get_absent (rt : Runtime) (key : jsstring)
  (w : Eff.World Store) :
  Eff.state w !! key = None ->
  InMemoryStorage.get rt key w = (Return None, w).
Proof.
  intros Hk. unfold InMemoryStorage.get. run. now rewrite Hk.
Qed.

Lemma storage_set_plain (rt : Runtime) (key : jsstring) (v : StoreValue)
  (w : Eff.World Store) :
  InMemoryStorage.set rt key v None w =
  (Return tt,
   Eff.mkWorld (Eff.steps w)
     (<[key := {| value := v; expiresAt := None |}]> (Eff.state w))).
Proof. reflexivity. Qed.

Lemma index_key_is_row_key (u : jsstring) :
  rowKey (lit "user:" ++ u) = userKey u.
Proof. reflexivity. Qed.

(** ** What [update] and [delete] do with the id of an identity *)

(** The half of the contract of [update] that holds: on a row that holds an
    identity, [id] and [createdAt] are the stored ones whatever the payload
    says, [updatedAt] is the clock reading of the call and the other fields
    are merged; the row then holds the result.  On a free key [update]
    throws "Identity <id> not found" and changes nothing. *)
Lemma update_row_contract (rt : Runtime) (w : Eff.World Store)
  (id : jsstring) (payload : PartialIdentity) :
  (forall existing,
     Eff.state w !! rowKey id = Some (rowEntry existing) ->
     exists updated w',
       update rt id payload w = (Return (VIdentity updated), w') /\
       Types.id updated = Types.id existing /\
       createdAt updated = createdAt existing /\
       updatedAt updated = newDate (Some (dateNow rt (Eff.steps w))) /\
       Types.type updated = default (Types.type existing) (p_type payload) /\
       userId updated = default (userId existing) (p_userId payload) /\
       Types.provider updated
         = default (Types.provider existing) (p_provider payload) /\
       Types.data updated = default (Types.data existing) (p_data payload) /\
       verified updated = default (verified existing) (p_verified payload) /\
       IdentityRegistry.get rt id w' = (Return (Some (VIdentity updated)), w'))
  /\
  (Eff.state w !! rowKey id = None ->
   update rt id payload w = (Throw (JsError (notFound id)), w)).
Proof.
  split.
  - intros existing Hrow. unfold update, IdentityRegistry.get. run.
    rewrite (storage_get_plain rt _ w _ Hrow). rewrite storage_set_plain.
    eexists _, _. split; [reflexivity|].
    cbn [Types.id createdAt updatedAt Types.type userId Types.provider
           Types.data verified spread].
    repeat split. apply storage_get_plain. cbn [Eff.state].
    apply lookup_insert_eq.
  - intros Habsent. unfold update, IdentityRegistry.get. run.
    now rewrite (storage_get_absent rt _ w Habsent).
Qed.

(** What [update] does with an id that names the array of a user: the
    array is read as the identity, no error is thrown, and the array is
    replaced by an object that is not an array. *)
Lemma update_index_key (rt : Runtime) (w : Eff.World Store) (u : jsstring)
  (l : list Identity) (payload : PartialIdentity) :
  Eff.state w !! userKey u = Some (arrayEntry l) ->
  exists o w',
    update rt (lit "user:" ++ u) payload w = (Return (VLoose o), w') /\
    l_entries o = l /\
    findByUser rt u w = (Return (VIdentities l), w) /\
    findByUser rt u w' = (Return (VLoose o), w').
Proof.
  intros Hk. unfold update, findByUser, IdentityRegistry.get. run.
  rewrite index_key_is_row_key.
  rewrite (storage_get_plain rt _ w _ Hk). rewrite storage_set_plain.
  eexists _, _. split; [reflexivity|]. split; [reflexivity|].
  split; [reflexivity|].
  erewrite storage_get_plain; [reflexivity|].
  cbn [Eff.state]. apply lookup_insert_eq.
Qed.

(** C6, at a concrete input.  The registry holds the wallet of [u1] and
    nothing else; the id "user:u1" was never given out.  [update] with this
    id and the payload [{}] does not throw "not found": it reads the array
    of [u1] as the identity, returns an object and stores it in place of
    the array.  From then on [findByUser("u1")] returns that object,
    [hasVerifiedIdentity] throws a [TypeError] and so does the next
    [register] for [u1]. *)
Lemma update_unregistered_id_overwrites_index :
  let rt := Examples.runtime in
  let w := snd (update rt Examples.indexId noChange Examples.oneWallet) in
  fst (register rt Examples.walletOfU1 Examples.emptyRegistry)
    = Return Examples.registeredWallet /\
  Examples.indexId <> Types.id Examples.registeredWallet /\
  fst (findByUser rt (lit "u1") Examples.oneWallet)
    = Return (VIdentities [Examples.registeredWallet]) /\
  fst (update rt Examples.indexId noChange Examples.oneWallet)
    = Return (VLoose RegistryExamples.looseOfU1) /\
  fst (findByUser rt (lit "u1") w)
    = Return (VLoose RegistryExamples.looseOfU1) /\
  fst (hasVerifiedIdentity rt (lit "u1") (lit "wallet") w)
    = Throw (notAFunction (lit "allIdentities.filter")) /\
  fst (register rt Examples.deviceOfU1 w) = Throw notIterable.
Proof.
  repeat split; try (vm_compute; reflexivity). vm_compute. discriminate.
Qed.

(** What [delete] does with an id that names the array of a user: the
    array is read as the identity, so the call removes the array and
    returns [true]. *)
Lemma delete_index_key (rt : Runtime) (w : Eff.World Store) (u : jsstring)
  (l : list Identity) :
  Eff.state w !! userKey u = Some (arrayEntry l) ->
  u <> lit "undefined" ->
  Eff.state w !! userKey (lit "undefined") = None ->
  exists w',
    IdentityRegistry.delete rt (lit "user:" ++ u) w = (Return true, w') /\
    findByUser rt u w = (Return (VIdentities l), w) /\
    findByUser rt u w' = (Return (VIdentities []), w').
Proof.
  intros Hk Hu Hfree.
  assert (userKey (lit "undefined") <> userKey u) as Hne.
  { unfold userKey. intros Heq. apply app_inv_head, app_inv_head in Heq.
    congruence. }
  unfold IdentityRegistry.delete, findByUser, IdentityRegistry.get. run.
  rewrite index_key_is_row_key.
  rewrite (storage_get_plain rt _ w _ Hk).
  unfold InMemoryStorage.delete. run.
  cbn [userIdOf templateString default].
  rewrite storage_get_absent
    by (cbn [Eff.state]; now rewrite lookup_delete_ne by congruence).
  cbn [default]. rewrite storage_set_plain.
  eexists. split; [reflexivity|]. split; [reflexivity|].
  rewrite storage_get_absent; [reflexivity|]. cbn [Eff.state].
  rewrite lookup_insert_ne by exact Hne. apply lookup_delete_eq.
Qed.

(** C7, at a concrete input.  The registry holds the wallet of [u1] and
    nothing else; the id "user:u1" was never given out.  [delete] with this
    id returns [true]: it has read the array of [u1] as the identity and
    removed it.  Afterwards [findByUser("u1")] is empty although the row of
    the wallet is still there. *)
Lemma delete_unregistered_id_returns_true :
  let rt := Examples.runtime in
  let w := snd (IdentityRegistry.delete rt Examples.indexId Examples.oneWallet) in
  fst (register rt Examples.walletOfU1 Examples.emptyRegistry)
    = Return Examples.registeredWallet /\
  Examples.indexId <> Types.id Examples.registeredWallet /\
  fst (findByUser rt (lit "u1") Examples.oneWallet)
    = Return (VIdentities [Examples.registeredWallet]) /\
  fst (IdentityRegistry.delete rt Examples.indexId Examples.oneWallet)
    = Return true /\
  fst (findByUser rt (lit "u1") w) = Return (VIdentities []) /\
  fst (IdentityRegistry.get rt Examples.walletId w)
    = Return (Some (VIdentity Examples.registeredWallet)).
Proof.
  repeat split; try (vm_compute; reflexivity). vm_compute. discriminate.
Qed.

(** The index is pruned under the owner the row names at the time of the
    [delete]: after [update(id, { userId: 'u2' })] and [delete(id)], which
    returns [true], [get(id)] is absent but [findByUser("u1")] still returns
    the deleted identity. *)
Lemma delete_after_owner_change_leaves_index :
  let rt := Examples.runtime in
  let w1 := snd (update rt Examples.walletId Examples.movePayload
                   Examples.oneWallet) in
  let w2 := snd (IdentityRegistry.delete rt Examples.walletId w1) in
  fst (update rt Examples.walletId Examples.movePayload Examples.oneWallet)
    = Return (VIdentity RegistryExamples.movedWallet) /\
  fst (IdentityRegistry.delete rt Examples.walletId w1) = Return true /\
  fst (IdentityRegistry.get rt Examples.walletId w2) = Return None /\
  fst (findByUser rt (lit "u1") w2)
    = Return (VIdentities [Examples.registeredWallet]).
Proof. repeat split; vm_compute; reflexivity. Qed.

(** ** Generated ids *)

Lemma generated_row_is_not_index (t : Z) (suffix userId : jsstring) :
  rowKey (generatedId t suffix) <> userKey userId.
Proof.
  unfold rowKey, userKey, generatedId. intros Heq.
  apply app_inv_head in Heq.
  destruct (JSFacts.numberToString_head t) as (c & r & E & Hc).
  rewrite E in Heq. change (lit "user:") with [117; 115; 101; 114; 58] in Heq.
  cbn [app] in Heq. injection Heq as Heq _. congruence.
Qed.

(** C9, at a concrete input.  When two registrations read the same
    millisecond and draw the same random number, the second identity gets
    the id of the first, and its row replaces the row of the first: the
    registry never compares a new id with the stored ones.  The two inputs
    are those of the repository's test "should generate unique IDs for
    different identities", which expects different ids. *)
Lemma register_id_collision :
  exists previous newIdentity,
    fst (register Examples.frozenRuntime Examples.walletOfU1
           Examples.emptyRegistry) = Return previous /\
    fst (register Examples.frozenRuntime Examples.deviceOfU1
           (snd (register Examples.frozenRuntime Examples.walletOfU1
                   Examples.emptyRegistry))) = Return newIdentity /\
    Types.id newIdentity = Types.id previous.
Proof. eexists _, _. repeat split; vm_compute; reflexivity. Qed.

(** C3, at a concrete input.  Register the unverified wallet of [u1], then
    call [verifyIdentity] on it: the primary row is verified, but
    [findByUser] still returns the row as it was registered, and
    [hasVerifiedIdentity] answers [false].  [update] writes the primary row
    only; the array kept under the user's key is never refreshed. *)
Lemma verified_identity_stale_in_index :
  let w := snd (verifyIdentity Examples.runtime Examples.walletId []
                  Examples.oneWallet) in
  fst (verifyIdentity Examples.runtime Examples.walletId []
         Examples.oneWallet) = Return (true, None) /\
  fst (IdentityRegistry.get Examples.runtime Examples.walletId w)
    = Return (Some (VIdentity Examples.verifiedWallet)) /\
  verified Examples.verifiedWallet = true /\
  fst (findByUser Examples.runtime (lit "u1") w)
    = Return (VIdentities [Examples.registeredWallet]) /\
  verified Examples.registeredWallet = false /\
  fst (hasVerifiedIdentity Examples.runtime (lit "u1") (lit "wallet") w)
    = Return false.
Proof. repeat split; vm_compute; reflexivity. Qed.

End RegistryFacts.

(** ** The identity registry over sequences of calls *)

Module RegistryCallFacts.

Import InMemoryStorage IdentityRegistry RegistryFacts.

Lemma rowKey_inj (id id' : jsstring) : rowKey id = rowKey id' -> id = id'.
Proof. apply app_inv_head. Qed.

Lemma userKey_inj (u u' : jsstring) : userKey u = userKey u' -> u = u'.
Proof.
  unfold userKey. intros H. now apply app_inv_head, app_inv_head in H.
Qed.

Lemma namesIndex_false (id u : jsstring) :
  namesIndex id = false -> rowKey id <> userKey u.
Proof.
  unfold namesIndex. intros Hid Heq. apply app_inv_head in Heq. subst id.
  now rewrite bool_decide_eq_true_2 in Hid.
Qed.

Lemma generated_plain (t : Z) (suffix : jsstring) :
  namesIndex (generatedId t suffix) = false.
Proof.
  unfold namesIndex, generatedId. apply bool_decide_eq_false_2.
  destruct (JSFacts.numberToString_head t) as (c & r & E & Hc).
  rewrite E. change (lit "user:") with [117; 115; 101; 114; 58].
  cbn [app take]. intros Heq. injection Heq as Heq _. congruence.
Qed.

(** *** Reads and writes in a well-kept store *)

Lemma registryStore_empty : registryStore ∅.
Proof. intros k e Hk. now rewrite lookup_empty in Hk. Qed.

Lemma registryStore_row (st : Store) (id : jsstring) (i : Identity) :
  registryStore st -> namesIndex id = false ->
  registryStore (<[rowKey id := rowEntry i]> st).
Proof.
  intros Hst Hid k' e. rewrite lookup_insert.
  destruct (decide (rowKey id = k')) as [<-|Hne]; [|apply Hst].
  intros He. injection He as <-. cbn. split; [reflexivity|].
  intros u. now apply namesIndex_false.
Qed.

Lemma registryStore_array (st : Store) (u : jsstring) (l : list Identity) :
  registryStore st -> registryStore (<[userKey u := arrayEntry l]> st).
Proof.
  intros Hst k' e. rewrite lookup_insert.
  destruct (decide (userKey u = k')) as [<-|Hne]; [|apply Hst].
  intros He. injection He as <-. cbn. split; [reflexivity|]. now exists u.
Qed.

Lemma registryStore_delete (st : Store) (k : jsstring) :
  registryStore st -> registryStore (base.delete k st).
Proof.
  intros Hst k' e. rewrite lookup_delete.
  destruct (decide (k = k')); [discriminate|apply Hst].
Qed.

Section WellKept.
Variable rt : Runtime.
Variable w : Eff.World Store.
Hypothesis Hst : registryStore (Eff.state w).

(** In such a store every read is a plain lookup. *)
Lemma storage_get_registryStore (key : jsstring) :
  InMemoryStorage.get rt key w = (Return (value <$> Eff.state w !! key), w).
Proof.
  destruct (Eff.state w !! key) as [[v e]|] eqn:Hk.
  - destruct (Hst _ _ Hk) as [He _]. cbn in He. subst e.
    now apply storage_get_plain.
  - now apply storage_get_absent.
Qed.

Lemma get_registry (id : jsstring) :
  namesIndex id = false ->
  IdentityRegistry.get rt id w
  = (Return (VIdentity <$> row (Eff.state w) id), w).
Proof.
  intros Hid. unfold IdentityRegistry.get, row.
  rewrite storage_get_registryStore.
  destruct (Eff.state w !! rowKey id) as [[v e]|] eqn:Hk; [|reflexivity].
  destruct (Hst _ _ Hk) as [_ Hv]. cbn in Hv |- *.
  destruct v as [i|l|o]; [reflexivity| |contradiction].
  destruct Hv as [u Hu]. now destruct (namesIndex_false id u Hid).
Qed.

Lemma findByUser_registry (u : jsstring) :
  findByUser rt u w = (Return (VIdentities (index (Eff.state w) u)), w).
Proof.
  unfold findByUser, index. run. rewrite storage_get_registryStore.
  destruct (Eff.state w !! userKey u) as [[v e]|] eqn:Hk; [|reflexivity].
  destruct (Hst _ _ Hk) as [_ Hv]. cbn in Hv |- *.
  destruct v as [i|l|o]; [|reflexivity|contradiction].
  now destruct (Hv u).
Qed.

End WellKept.

Lemma index_insert_row (st : Store) (id u : jsstring) (e : StorageEntry) :
  rowKey id <> userKey u ->
  index (<[rowKey id := e]> st) u = index st u.
Proof. intros Hne. unfold index. now rewrite lookup_insert_ne. Qed.

Lemma index_delete_row (st : Store) (id u : jsstring) :
  rowKey id <> userKey u ->
  index (base.delete (rowKey id) st) u = index st u.
Proof. intros Hne. unfold index. now rewrite lookup_delete_ne. Qed.

(** What [register] leaves. *)
Lemma register_world (rt : Runtime) (w : Eff.World Store)
  (identity : NewIdentity) :
  registryStore (Eff.state w) ->
  let newId := generatedId (dateNow rt (Eff.steps w))
                 (substring 2 15 (mathRandom36 rt (S (Eff.steps w)))) in
  let now := newDate (Some (dateNow rt (S (S (Eff.steps w))))) in
  let newIdentity :=
    {| Types.id := newId; Types.type := n_type identity;
       userId := n_userId identity; Types.provider := n_provider identity;
       Types.data := n_data identity; verified := n_verified identity;
       createdAt := now; updatedAt := now |} in
  register rt identity w
  = (Return newIdentity,
     Eff.mkWorld (S (S (S (Eff.steps w))))
       (<[userKey (n_userId identity) :=
            arrayEntry (index (Eff.state w) (n_userId identity)
                        ++ [newIdentity])]>
          (<[rowKey newId := rowEntry newIdentity]> (Eff.state w)))).
Proof.
  intros Hst newId now newIdentity. unfold register, generateId. run.
  fold newId now newIdentity. rewrite storage_set_plain.
  cbn [Eff.state Eff.steps].
  rewrite findByUser_registry
    by (apply registryStore_row; [exact Hst|apply generated_plain]).
  cbn [Eff.state]. rewrite index_insert_row
    by apply generated_row_is_not_index.
  now rewrite storage_set_plain.
Qed.

(** What [update] leaves. *)
Lemma update_world (rt : Runtime) (w : Eff.World Store) (id : jsstring)
  (data : PartialIdentity) :
  registryStore (Eff.state w) ->
  namesIndex id = false ->
  update rt id data w =
  match row (Eff.state w) id with
  | None => (Throw (JsError (notFound id)), w)
  | Some existing =>
      let updated :=
        merge (VIdentity existing) data
          (newDate (Some (dateNow rt (Eff.steps w)))) in
      (Return updated,
       Eff.mkWorld (S (Eff.steps w))
         (<[rowKey id := {| value := updated; expiresAt := None |}]>
            (Eff.state w)))
  end.
Proof.
  intros Hst Hid. unfold update. run.
  rewrite (get_registry rt w Hst id Hid).
  destruct (row (Eff.state w) id) as [existing|]; [|reflexivity].
  cbn [fmap option_fmap option_map]. now rewrite storage_set_plain.
Qed.

(** What [delete] leaves. *)
Lemma delete_world (rt : Runtime) (w : Eff.World Store) (id : jsstring) :
  registryStore (Eff.state w) ->
  namesIndex id = false ->
  IdentityRegistry.delete rt id w =
  match row (Eff.state w) id with
  | None => (Return false, w)
  | Some identity =>
      (Return true,
       Eff.mkWorld (Eff.steps w)
         (<[userKey (userId identity) :=
              arrayEntry
                (List.filter (fun i => negb (bool_decide (Types.id i = id)))
                   (index (Eff.state w) (userId identity)))]>
            (base.delete (rowKey id) (Eff.state w))))
  end.
Proof.
  intros Hst Hid. unfold IdentityRegistry.delete. run.
  rewrite (get_registry rt w Hst id Hid).
  destruct (row (Eff.state w) id) as [identity|]; [|reflexivity].
  cbn [fmap option_fmap option_map userIdOf templateString default].
  unfold InMemoryStorage.delete. run.
  rewrite findByUser_registry
    by (cbn [Eff.state]; now apply registryStore_delete).
  cbn [Eff.state].
  rewrite index_delete_row by now apply namesIndex_false.
  now rewrite storage_set_plain.
Qed.

(** *** The store stays consistent *)

Lemma consistent_empty : consistent ∅.
Proof.
  split; [apply registryStore_empty|]. split.
  - intros id i. unfold row. now rewrite lookup_empty.
  - intros u. unfold index. rewrite lookup_empty. constructor.
Qed.

Lemma consistent_row (st : Store) (id : jsstring) (i : Identity) :
  consistent st -> namesIndex id = false -> Types.id i = id ->
  consistent (<[rowKey id := rowEntry i]> st).
Proof.
  intros [Hst [Hrows Harrays]] Hid Hi. split; [|split].
  - now apply registryStore_row.
  - intros id' i'. unfold row. rewrite lookup_insert.
    destruct (decide (rowKey id = rowKey id')) as [Heq|Hne].
    + apply rowKey_inj in Heq. subst id'. cbn. now intros [= <-].
    + apply Hrows.
  - intros u. rewrite index_insert_row by now apply namesIndex_false.
    apply Harrays.
Qed.

Lemma consistent_array (st : Store) (u : jsstring) (l : list Identity) :
  consistent st -> Forall (fun i => userId i = u) l ->
  consistent (<[userKey u := arrayEntry l]> st).
Proof.
  intros [Hst [Hrows Harrays]] Hl. split; [|split].
  - now apply registryStore_array.
  - intros id i. unfold row. rewrite lookup_insert.
    destruct (decide (userKey u = rowKey id)); [discriminate|apply Hrows].
  - intros u'. unfold index. rewrite lookup_insert.
    destruct (decide (userKey u = userKey u')) as [Heq|Hne].
    + apply userKey_inj in Heq. now subst u'.
    + apply Harrays.
Qed.

Lemma consistent_delete (st : Store) (k : jsstring) :
  consistent st -> consistent (base.delete k st).
Proof.
  intros [Hst [Hrows Harrays]]. split; [|split].
  - now apply registryStore_delete.
  - intros id i. unfold row. rewrite lookup_delete.
    destruct (decide (k = rowKey id)); [discriminate|apply Hrows].
  - intros u. unfold index. rewrite lookup_delete.
    destruct (decide (k = userKey u)); [constructor|apply Harrays].
Qed.

Lemma update_consistent (rt : Runtime) (w : Eff.World Store) (id : jsstring)
  (data : PartialIdentity) :
  consistent (Eff.state w) -> namesIndex id = false ->
  consistent (Eff.state (snd (update rt id data w))) /\
  endedWell (mapCompletion (fun _ => tt) (fst (update rt id data w))).
Proof.
  intros Hw Hid. rewrite update_world by (apply Hw || exact Hid).
  destruct (row (Eff.state w) id) as [existing|] eqn:Hrow;
    cbn [fst snd Eff.state mapCompletion].
  - split; [|now left]. apply consistent_row; [exact Hw|exact Hid|].
    cbn [Types.id]. now apply Hw.
  - split; [exact Hw|]. right. now exists id.
Qed.

Lemma perform_consistent (rt : Runtime) (c : Call) (w : Eff.World Store) :
  plainCall c = true ->
  consistent (Eff.state w) ->
  consistent (Eff.state (perform rt c w)) /\ endedWell (outcome rt c w).
Proof.
  intros Hc Hw. pose proof Hw as [Hst [Hrows Harrays]].
  destruct c as [identity|id data|id proof|id reason|id];
    cbn [perform outcome plainCall] in *;
    try apply negb_true_iff in Hc.
  - rewrite register_world by exact Hst. cbn [fst snd Eff.state mapCompletion].
    split; [|now left].
    apply consistent_array.
    + apply consistent_row; [exact Hw|apply generated_plain|reflexivity].
    + apply Forall_app. split; [apply Harrays|]. now repeat constructor.
  - now apply update_consistent.
  - unfold verifyIdentity. run. rewrite (get_registry rt w Hst id Hc).
    destruct (row (Eff.state w) id) as [existing|] eqn:Hrow;
      cbn [fst snd mapCompletion fmap option_fmap option_map];
      [|split; [exact Hw|now left]].
    match goal with
    | |- context [update rt id ?d w] =>
        destruct (update_consistent rt w id d Hw Hc) as [Hu Hend];
        destruct (update rt id d w) as [[u|e|] w']
    end; cbn [fst snd mapCompletion] in *;
      (split; [exact Hu|]); [now left|exact Hend|exact Hend].
  - unfold deactivate. run. rewrite (get_registry rt w Hst id Hc).
    destruct (row (Eff.state w) id) as [existing|] eqn:Hrow;
      cbn [fst snd mapCompletion fmap option_fmap option_map];
      [|split; [exact Hw|now left]].
    match goal with
    | |- context [update rt id ?d ?w0] =>
        destruct (update_consistent rt w0 id d Hw Hc) as [Hu Hend];
        destruct (update rt id d w0) as [[u|e|] w']
    end; cbn [fst snd mapCompletion] in *;
      (split; [exact Hu|]); [now left|exact Hend|exact Hend].
  - rewrite delete_world by assumption.
    destruct (row (Eff.state w) id) as [identity|];
      cbn [fst snd Eff.state mapCompletion]; [|split; [exact Hw|now left]].
    split; [|now left].
    apply consistent_array; [now apply consistent_delete|].
    apply List.Forall_forall. intros i Hi.
    apply List.filter_In in Hi as [Hi _].
    specialize (Harrays (userId identity)).
    rewrite List.Forall_forall in Harrays. now apply Harrays.
Qed.

Lemma performAll_consistent (rt : Runtime) (calls : list Call) :
  forall w : Eff.World Store,
    forallb plainCall calls = true ->
    consistent (Eff.state w) ->
    consistent (Eff.state (performAll rt calls w)).
Proof.
  induction calls as [|c calls IH]; intros w Hcalls Hw; [exact Hw|].
  cbn [forallb] in Hcalls. apply andb_true_iff in Hcalls as [Hc Hcalls].
  cbn [performAll fold_left]. apply IH; [exact Hcalls|].
  now apply perform_consistent.
Qed.


(** X26.  Start from an empty store and make any calls of [register],
    [update], [verifyIdentity], [deactivate] and [delete] whose ids do not
    start with "user:".  Then every further such call returns or throws
    "not found", never a [TypeError]; [findByUser(u)] returns, without a
    change to the store, an array of identities whose [userId] is [u]; and
    [get(id)], for such an id, returns absent or an identity whose [id] is
    the one asked for. *)
Theorem registry_store_consistent (rt : Runtime) (calls : list Call)
  (steps : nat) :
  forallb plainCall calls = true ->
  let w := performAll rt calls (Eff.mkWorld steps ∅) in
  (forall c, plainCall c = true -> endedWell (outcome rt c w)) /\
  (forall u,
     exists l, findByUser rt u w = (Return (VIdentities l), w) /\
               Forall (fun i => userId i = u) l) /\
  (forall id,
     namesIndex id = false ->
     exists found,
       IdentityRegistry.get rt id w = (Return (VIdentity <$> found), w) /\
       forall i, found = Some i -> Types.id i = id).
Proof.
  intros Hcalls w.
  assert (consistent (Eff.state w)) as Hw
    by (apply performAll_consistent; [exact Hcalls|apply consistent_empty]).
  pose proof Hw as [Hst [Hrows Harrays]]. split; [|split].
  - intros c Hc. now apply perform_consistent.
  - intros u. exists (index (Eff.state w) u).
    split; [now apply findByUser_registry|apply Harrays].
  - intros id Hid. exists (row (Eff.state w) id).
    split; [now apply get_registry|]. intros i Hi. now apply Hrows.
Qed.

Lemma registry_store_consistent_witness :
  forallb plainCall RegistryExamples.calls = true /\
  exists l,
    findByUser Examples.runtime (lit "u1")
      (performAll Examples.runtime RegistryExamples.calls
         Examples.emptyRegistry)
    = (Return (VIdentities l),
       performAll Examples.runtime RegistryExamples.calls
         Examples.emptyRegistry) /\
    Forall (fun i => userId i = lit "u1") l.
Proof.
  assert (forallb plainCall RegistryExamples.calls = true) as Hcalls
    by (vm_compute; reflexivity).
  split; [exact Hcalls|].
  destruct (registry_store_consistent Examples.runtime RegistryExamples.calls
              0 Hcalls) as (_ & Hfind & _).
  exact (Hfind (lit "u1")).
Defined.

Lemma example_row :
  Eff.state Examples.oneWallet !! rowKey Examples.walletId
  = Some (rowEntry Examples.registeredWallet).
Proof. vm_compute. reflexivity. Qed.

Lemma example_registryStore : registryStore (Eff.state Examples.oneWallet).
Proof.
  apply (perform_consistent Examples.runtime
           (CallRegister Examples.walletOfU1) Examples.emptyRegistry);
    [reflexivity|apply consistent_empty].
Qed.

(** X27.  [verifyIdentity] marks the row of a stored identity as verified
    whatever proof it is given: it returns [{ verified: true }], the row
    then holds the identity with [verified] true and [updatedAt] stamped,
    and no other key of the store has changed, the array of the owner
    included.  For a free key it returns [{ verified: false, error:
    'Identity not found' }] and changes nothing. *)
Theorem verifyIdentity_contract (rt : Runtime) (w : Eff.World Store)
  (id : jsstring) (proof : list (jsstring * JsValue)) :
  (forall existing,
     Eff.state w !! rowKey id = Some (rowEntry existing) ->
     exists w',
       verifyIdentity rt id proof w = (Return (true, None), w') /\
       IdentityRegistry.get rt id w'
       = (Return
            (Some
               (VIdentity
                  {| Types.id := Types.id existing;
                     Types.type := Types.type existing;
                     userId := userId existing;
                     Types.provider := Types.provider existing;
                     Types.data := Types.data existing;
                     verified := true;
                     createdAt := createdAt existing;
                     updatedAt :=
                       newDate (Some (dateNow rt (Eff.steps w))) |})),
          w') /\
       forall k, k <> rowKey id -> Eff.state w' !! k = Eff.state w !! k) /\
  (Eff.state w !! rowKey id = None ->
   verifyIdentity rt id proof w
   = (Return (false, Some (lit "Identity not found")), w)).
Proof.
  split.
  - intros existing Hrow. unfold verifyIdentity, update, IdentityRegistry.get.
    run. rewrite (storage_get_plain rt _ w _ Hrow). run.
    rewrite (storage_get_plain rt _ w _ Hrow). rewrite storage_set_plain.
    eexists. split; [reflexivity|]. cbn [Eff.state]. split.
    + erewrite storage_get_plain; [reflexivity|].
      cbn [Eff.state]. apply lookup_insert_eq.
    + intros k Hk. now rewrite lookup_insert_ne.
  - intros Habsent. unfold verifyIdentity, IdentityRegistry.get. run.
    now rewrite (storage_get_absent rt _ w Habsent).
Qed.

Lemma verifyIdentity_contract_witness :
  Eff.state Examples.oneWallet !! rowKey Examples.walletId
  = Some (rowEntry Examples.registeredWallet) /\
  exists w',
    verifyIdentity Examples.runtime Examples.walletId
      [(lit "signature", JString (lit "anything"))] Examples.oneWallet
    = (Return (true, None), w').
Proof.
  split; [exact example_row|].
  destruct (verifyIdentity_contract Examples.runtime Examples.oneWallet
              Examples.walletId [(lit "signature", JString (lit "anything"))])
    as [Hpresent _].
  destruct (Hpresent Examples.registeredWallet example_row)
    as (w' & Hrun & _).
  exists w'. exact Hrun.
Defined.

Lemma getField_setField_eq (key : jsstring) (v : JsValue)
  (bag : list (jsstring * JsValue)) :
  getField key (setField key v bag) = Some v.
Proof.
  induction bag as [|[k v'] bag IH]; cbn [setField getField].
  - now rewrite bool_decide_eq_true_2.
  - destruct (decide (k = key)) as [Heq|Hne].
    + rewrite (bool_decide_eq_true_2 _ Heq). cbn [getField].
      now rewrite (bool_decide_eq_true_2 _ Heq).
    + rewrite (bool_decide_eq_false_2 _ Hne). cbn [getField].
      now rewrite (bool_decide_eq_false_2 _ Hne).
Qed.

Lemma getField_setField_ne (key key' : jsstring) (v : JsValue)
  (bag : list (jsstring * JsValue)) :
  key' <> key -> getField key' (setField key v bag) = getField key' bag.
Proof.
  intros Hkey. induction bag as [|[k v'] bag IH]; cbn [setField getField].
  - now rewrite bool_decide_eq_false_2 by congruence.
  - destruct (decide (k = key)) as [Heq|Hne].
    + rewrite (bool_decide_eq_true_2 _ Heq). cbn [getField]. subst k.
      now rewrite !bool_decide_eq_false_2 by congruence.
    + rewrite (bool_decide_eq_false_2 _ Hne). cbn [getField].
      now rewrite IH.
Qed.

(** X28.  [deactivate] is a soft delete: on the row of a stored identity it
    returns [{ success: true }]; the row stays, with [verified] false and
    with [deactivated: true], the time of the call and the reason added to
    its data, whose other fields are kept, as are [id], [type], [userId],
    [provider] and [createdAt]; no other key of the store has changed.  For
    a free key it returns [{ success: false, error: 'Identity not found' }]
    and changes nothing. *)
Theorem deactivate_contract (rt : Runtime) (w : Eff.World Store)
  (id reason : jsstring) :
  (forall existing,
     Eff.state w !! rowKey id = Some (rowEntry existing) ->
     exists updated w',
       deactivate rt id reason w = (Return (true, None), w') /\
       IdentityRegistry.get rt id w' = (Return (Some (VIdentity updated)), w')
       /\
       verified updated = false /\
       getField (lit "deactivated") (Types.data updated) = Some (JBool true)
       /\
       getField (lit "deactivatedAt") (Types.data updated)
       = Some (JString (toISOString rt (dateNow rt (Eff.steps w)))) /\
       getField (lit "deactivationReason") (Types.data updated)
       = Some (JString reason) /\
       (forall key,
          key <> lit "deactivated" -> key <> lit "deactivatedAt" ->
          key <> lit "deactivationReason" ->
          getField key (Types.data updated)
          = getField key (Types.data existing)) /\
       (Types.id updated, Types.type updated, userId updated,
        Types.provider updated, createdAt updated)
       = (Types.id existing, Types.type existing, userId existing,
          Types.provider existing, createdAt existing) /\
       forall k, k <> rowKey id -> Eff.state w' !! k = Eff.state w !! k) /\
  (Eff.state w !! rowKey id = None ->
   deactivate rt id reason w
   = (Return (false, Some (lit "Identity not found")), w)).
Proof.
  split.
  - intros existing Hrow. unfold deactivate, update, IdentityRegistry.get.
    run. rewrite (storage_get_plain rt _ w _ Hrow). run.
    erewrite storage_get_plain by (cbn [Eff.state]; exact Hrow).
    rewrite storage_set_plain.
    eexists _, _. split; [reflexivity|]. cbn [Eff.state Eff.steps]. split.
    { erewrite storage_get_plain; [reflexivity|].
      cbn [Eff.state]. apply lookup_insert_eq. }
    cbn [merge spread verified Types.data Types.id Types.type userId
           Types.provider createdAt default p_verified p_data p_id p_type
           p_userId p_provider p_createdAt dataOf].
    unfold Datatypes.id. split; [reflexivity|]. split; [|split; [|split; [|split; [|split]]]].
    + rewrite getField_setField_ne by discriminate.
      rewrite getField_setField_ne by discriminate.
      apply getField_setField_eq.
    + rewrite getField_setField_ne by discriminate.
      apply getField_setField_eq.
    + apply getField_setField_eq.
    + intros key H1 H2 H3. now rewrite !getField_setField_ne by assumption.
    + reflexivity.
    + intros k Hk. now rewrite lookup_insert_ne.
  - intros Habsent. unfold deactivate, IdentityRegistry.get. run.
    now rewrite (storage_get_absent rt _ w Habsent).
Qed.

Lemma deactivate_contract_witness :
  Eff.state Examples.oneWallet !! rowKey Examples.walletId
  = Some (rowEntry Examples.registeredWallet) /\
  exists updated w',
    deactivate Examples.runtime Examples.walletId (lit "lost")
      Examples.oneWallet = (Return (true, None), w') /\
    IdentityRegistry.get Examples.runtime Examples.walletId w'
    = (Return (Some (VIdentity updated)), w') /\
    verified updated = false.
Proof.
  split; [exact example_row|].
  destruct (deactivate_contract Examples.runtime Examples.oneWallet
              Examples.walletId (lit "lost")) as [Hpresent _].
  destruct (Hpresent Examples.registeredWallet example_row)
    as (updated & w' & Hrun & Hget & Hverified & _).
  exists updated, w'. split; [exact Hrun|]. split; [exact Hget|exact Hverified].
Defined.

(** X29.  In a store kept by the registry, [register] followed by [delete]
    of the id it returned undoes the registration: [delete] returns
    [true], [get] of the id is absent, and [findByUser] of the owner
    returns the identities it returned before the registration, without any
    that had the same id. *)
Theorem register_then_delete (rt : Runtime) (w : Eff.World Store)
  (identity : NewIdentity) :
  registryStore (Eff.state w) ->
  exists newIdentity w1 w2 l,
    register rt identity w = (Return newIdentity, w1) /\
    findByUser rt (n_userId identity) w = (Return (VIdentities l), w) /\
    IdentityRegistry.delete rt (Types.id newIdentity) w1 = (Return true, w2) /\
    IdentityRegistry.get rt (Types.id newIdentity) w2 = (Return None, w2) /\
    findByUser rt (n_userId identity) w2
    = (Return
         (VIdentities
            (List.filter
               (fun i =>
                  negb (bool_decide (Types.id i = Types.id newIdentity)))
               l)),
       w2).
Proof.
  intros Hst. pose proof (register_world rt w identity Hst) as Hreg.
  cbv zeta in Hreg.
  set (newId := generatedId (dateNow rt (Eff.steps w))
                  (substring 2 15 (mathRandom36 rt (S (Eff.steps w))))) in *.
  set (newIdentity := Build_Identity newId _ _ _ _ _ _ _) in *.
  set (l := index (Eff.state w) (n_userId identity)) in *.
  set (w1 := Eff.mkWorld _ _) in Hreg.
  assert (registryStore (Eff.state w1)) as Hst1
    by (apply registryStore_array, registryStore_row;
        [exact Hst|apply generated_plain]).
  assert (row (Eff.state w1) newId = Some newIdentity) as Hrow.
  { unfold row. cbn [w1 Eff.state].
    rewrite lookup_insert_ne
      by (intros E; symmetry in E; revert E; apply generated_row_is_not_index).
    now rewrite lookup_insert_eq. }
  assert (index (Eff.state w1) (n_userId identity) = l ++ [newIdentity])
    as Hidx by (unfold index; cbn [w1 Eff.state]; now rewrite lookup_insert_eq).
  pose proof (delete_world rt w1 newId Hst1 (generated_plain _ _)) as Hdel.
  rewrite Hrow in Hdel. cbn [userId newIdentity] in Hdel.
  rewrite Hidx, List.filter_app in Hdel. cbn [List.filter Types.id] in Hdel.
  rewrite bool_decide_eq_true_2 in Hdel by reflexivity.
  cbn [negb] in Hdel. rewrite app_nil_r in Hdel.
  eexists newIdentity, w1, _, l. split; [exact Hreg|].
  split; [now apply findByUser_registry|]. split; [exact Hdel|]. split.
  - apply storage_get_absent. cbn [Eff.state].
    rewrite lookup_insert_ne
      by (intros E; symmetry in E; revert E; apply generated_row_is_not_index).
    apply lookup_delete_eq.
  - unfold findByUser. run. erewrite storage_get_plain; [reflexivity|].
    cbn [Eff.state]. apply lookup_insert_eq.
Qed.

Lemma register_then_delete_witness :
  registryStore (Eff.state Examples.oneWallet) /\
  exists newIdentity w1 w2,
    register Examples.runtime Examples.deviceOfU1 Examples.oneWallet
    = (Return newIdentity, w1) /\
    IdentityRegistry.delete Examples.runtime (Types.id newIdentity) w1
    = (Return true, w2) /\
    IdentityRegistry.get Examples.runtime (Types.id newIdentity) w2
    = (Return None, w2).
Proof.
  split; [exact example_registryStore|].
  destruct (register_then_delete Examples.runtime Examples.oneWallet
              Examples.deviceOfU1 example_registryStore)
    as (newIdentity & w1 & w2 & l & Hreg & _ & Hdel & Hget & _).
  exists newIdentity, w1, w2. split; [exact Hreg|]. split; [exact Hdel|exact Hget].
Defined.

(** X30.  In a store kept by the registry, an identity that [register]
    returned is found right away: [findByType] of the owner and of its type
    lists it, [findByProvider] of the owner and of its provider returns an
    identity of that provider, and, when it
    was registered as verified, [hasVerifiedIdentity] of the owner and of
    its type answers [true]. *)
Theorem registered_identity_is_found (rt : Runtime) (w : Eff.World Store)
  (identity : NewIdentity) :
  registryStore (Eff.state w) ->
  exists newIdentity w1,
    register rt identity w = (Return newIdentity, w1) /\
    (exists l,
       findByType rt (n_userId identity) (identityTypeName (n_type identity))
         w1 = (Return l, w1) /\
       newIdentity ∈ l) /\
    (exists found,
       findByProvider rt (n_userId identity) (n_provider identity) w1
       = (Return (Some found), w1) /\
       Types.provider found = n_provider identity) /\
    (n_verified identity = true ->
     hasVerifiedIdentity rt (n_userId identity)
       (identityTypeName (n_type identity)) w1 = (Return true, w1)).
Proof.
  intros Hst. pose proof (register_world rt w identity Hst) as Hreg.
  cbv zeta in Hreg.
  set (newId := generatedId (dateNow rt (Eff.steps w))
                  (substring 2 15 (mathRandom36 rt (S (Eff.steps w))))) in *.
  set (newIdentity := Build_Identity newId _ _ _ _ _ _ _) in *.
  set (l := index (Eff.state w) (n_userId identity)) in *.
  set (w1 := Eff.mkWorld _ _) in Hreg.
  assert (findByUser rt (n_userId identity) w1
          = (Return (VIdentities (l ++ [newIdentity])), w1)) as Hfind.
  { unfold findByUser. run. erewrite storage_get_plain; [reflexivity|].
    cbn [w1 Eff.state]. apply lookup_insert_eq. }
  assert (List.In newIdentity (l ++ [newIdentity])) as Hin
    by (apply List.in_or_app; right; now left).
  exists newIdentity, w1. split; [exact Hreg|]. split; [|split].
  - unfold findByType. run. rewrite Hfind. eexists. split; [reflexivity|].
    apply list_elem_of_In, List.filter_In. split; [exact Hin|].
    now apply bool_decide_eq_true_2.
  - unfold findByProvider. run. rewrite Hfind.
    destruct (List.find _ (l ++ [newIdentity])) as [found|] eqn:Hfound.
    + exists found. split; [reflexivity|].
      apply List.find_some in Hfound as [_ Hp].
      now apply bool_decide_eq_true in Hp.
    + exfalso. pose proof (List.find_none _ _ Hfound _ Hin) as Hp.
      cbn [Types.provider newIdentity] in Hp.
      now rewrite bool_decide_eq_true_2 in Hp.
  - intros Hverified. unfold hasVerifiedIdentity, findByType. run.
    rewrite Hfind. f_equal. f_equal. apply List.existsb_exists.
    exists newIdentity. split; [|exact Hverified].
    apply List.filter_In. split; [exact Hin|].
    now apply bool_decide_eq_true_2.
Qed.

Lemma registered_identity_is_found_witness :
  registryStore (Eff.state Examples.oneWallet) /\
  exists newIdentity w1,
    register Examples.runtime Examples.deviceOfU1 Examples.oneWallet
    = (Return newIdentity, w1) /\
    hasVerifiedIdentity Examples.runtime (lit "u1") (lit "device") w1
    = (Return true, w1).
Proof.
  split; [exact example_registryStore|].
  destruct (registered_identity_is_found Examples.runtime Examples.oneWallet
              Examples.deviceOfU1 example_registryStore)
    as (newIdentity & w1 & Hreg & _ & _ & Hverified).
  exists newIdentity, w1. split; [exact Hreg|]. exact (Hverified eq_refl).
Defined.

End RegistryCallFacts.

(** ** Regular expressions *)

Module RegExpFacts.

Import RegExp.

Lemma lang_seq_inv (r1 r2 : Regex) (s : jsstring) :
  Lang (Seq r1 r2) s <->
  exists s1 s2, s = s1 ++ s2 /\ Lang r1 s1 /\ Lang r2 s2.
Proof.
  split.
  - inversion 1; subst; eauto.
  - intros (s1 & s2 & -> & H1 & H2). now constructor.
Qed.

Lemma lang_alt_inv (r1 r2 : Regex) (s : jsstring) :
  Lang (Alt r1 r2) s <-> Lang r1 s \/ Lang r2 s.
Proof.
  split.
  - inversion 1; subst; auto.
  - intros [H|H]; [now apply LangAltL|now apply LangAltR].
Qed.

Lemma lang_star_cons_inv (r : Regex) (c : Z) (s : jsstring) :
  Lang (Star r) (c :: s) <->
  exists s1 s2, s = s1 ++ s2 /\ Lang r (c :: s1) /\ Lang (Star r) s2.
Proof.
  split.
  - inversion 1; subst; eauto.
  - intros (s1 & s2 & -> & H1 & H2). now constructor.
Qed.

Lemma nullable_spec (r : Regex) : nullable r = true <-> Lang r [].
Proof.
  induction r as [| |p|r1 IH1 r2 IH2|r1 IH1 r2 IH2|r IH]; cbn [nullable].
  - split; [discriminate|inversion 1].
  - split; [constructor|reflexivity].
  - split; [discriminate|inversion 1].
  - rewrite andb_true_iff, IH1, IH2, lang_seq_inv. split.
    + intros [H1 H2]. now exists [], [].
    + intros (s1 & s2 & Heq & H1 & H2). symmetry in Heq.
      apply app_eq_nil in Heq as [-> ->]. now split.
  - now rewrite orb_true_iff, IH1, IH2, lang_alt_inv.
  - split; [constructor|reflexivity].
Qed.

Lemma deriv_spec (c : Z) (r : Regex) :
  forall s, Lang (deriv c r) s <-> Lang r (c :: s).
Proof.
  induction r as [| |p|r1 IH1 r2 IH2|r1 IH1 r2 IH2|r IH]; intros s;
    cbn [deriv].
  - split; inversion 1.
  - split; inversion 1.
  - destruct (p c) eqn:Hp.
    + split; inversion 1; subst; [now constructor|constructor].
    + split; inversion 1; subst; congruence.
  - assert (Lang (Seq (deriv c r1) r2) s <->
            exists s1 s2, s = s1 ++ s2 /\ Lang r1 (c :: s1) /\ Lang r2 s2)
      as Hhead.
    { rewrite lang_seq_inv. split; intros (s1 & s2 & -> & H1 & H2);
        exists s1, s2; (split; [reflexivity|]); split; try assumption;
        now apply IH1. }
    rewrite (lang_seq_inv r1 r2 (c :: s)).
    destruct (nullable r1) eqn:Hn.
    + rewrite lang_alt_inv, Hhead, IH2. split.
      * intros [(s1 & s2 & -> & H1 & H2)|H2].
        -- now exists (c :: s1), s2.
        -- exists [], (c :: s). repeat split; [|exact H2].
           now apply nullable_spec.
      * intros ([|c' s1] & s2 & Heq & H1 & H2); cbn [app] in Heq.
        -- right. now subst s2.
        -- injection Heq as <- ->. left. now exists s1, s2.
    + rewrite Hhead. split.
      * intros (s1 & s2 & -> & H1 & H2). now exists (c :: s1), s2.
      * intros ([|c' s1] & s2 & Heq & H1 & H2); cbn [app] in Heq.
        -- apply nullable_spec in H1. congruence.
        -- injection Heq as <- ->. now exists s1, s2.
  - now rewrite !lang_alt_inv, IH1, IH2.
  - rewrite lang_seq_inv, lang_star_cons_inv.
    split; intros (s1 & s2 & -> & H1 & H2); exists s1, s2;
      (split; [reflexivity|]); split; try assumption; now apply IH.
Qed.

(** The matcher decides the language of the expression. *)
Theorem fullMatch_spec (r : Regex) (s : jsstring) :
  fullMatch r s = true <-> Lang r s.
Proof.
  revert r. induction s as [|c s IH]; intros r; cbn [fullMatch].
  - apply nullable_spec.
  - now rewrite IH, deriv_spec.
Qed.

Lemma lang_class_inv (p : Z -> bool) (s : jsstring) :
  Lang (Class p) s <-> exists c, s = [c] /\ p c = true.
Proof.
  split.
  - inversion 1; subst; eauto.
  - intros (c & -> & Hp). now constructor.
Qed.

Lemma lang_star_class (p : Z -> bool) (s : jsstring) :
  Lang (Star (Class p)) s <-> Forall (fun c => p c = true) s.
Proof.
  induction s as [|c s IH].
  - split; constructor.
  - rewrite lang_star_cons_inv, Forall_cons. split.
    + intros (s1 & s2 & -> & H1 & H2).
      apply lang_class_inv in H1 as (c' & Heq & Hp).
      injection Heq as <- ->. split; [exact Hp|]. now apply IH.
    + intros [Hp Hs]. exists [], s. repeat split; [|now apply IH].
      now constructor.
Qed.

Lemma lang_plus_class (p : Z -> bool) (s : jsstring) :
  Lang (Plus (Class p)) s <-> s <> [] /\ Forall (fun c => p c = true) s.
Proof.
  unfold Plus. rewrite lang_seq_inv. split.
  - intros (s1 & s2 & -> & H1 & H2).
    apply lang_class_inv in H1 as (c & -> & Hp).
    apply lang_star_class in H2. split; [discriminate|now constructor].
  - intros [Hne Hall]. destruct s as [|c s]; [congruence|].
    apply Forall_cons in Hall as [Hp Hs].
    exists [c], s. repeat split; [now constructor|now apply lang_star_class].
Qed.

(** [/[class]/.test(s)] holds when some code unit of [s] is in the class. *)
Lemma test_class (p : Z -> bool) (s : jsstring) :
  test (Class p) s = true <-> exists c, c ∈ s /\ p c = true.
Proof.
  unfold test. rewrite fullMatch_spec, lang_seq_inv. split.
  - intros (s1 & s2 & -> & _ & H2).
    apply lang_seq_inv in H2 as (s3 & s4 & -> & H3 & _).
    apply lang_class_inv in H3 as (c & -> & Hp).
    exists c. split; [|exact Hp]. set_solver.
  - intros (c & Hin & Hp).
    apply list_elem_of_split in Hin as (s1 & s2 & ->).
    exists s1, (c :: s2). split; [reflexivity|]. split.
    + apply lang_star_class. now apply Forall_forall.
    + apply lang_seq_inv. exists [c], s2. repeat split.
      * now constructor.
      * apply lang_star_class. now apply Forall_forall.
Qed.

End RegExpFacts.

(** ** The e-mail/password provider: accounts *)

Module EmailAccountsFacts.

Import RegExp EmailAccounts.

(** X1.  [isValidEmail] accepts exactly the strings of the form
    local@domain.tld in which the three parts are non-empty and hold
    neither white space nor [@] (the domain and the tld may hold dots). *)
Theorem isValidEmail_shape (email : jsstring) :
  isValidEmail email = true <->
  exists local domain tld,
    email = local ++ 64 :: domain ++ 46 :: tld /\
    local <> [] /\ domain <> [] /\ tld <> [] /\
    Forall (fun c => notSpaceNorAt c = true) (local ++ domain ++ tld).
Proof.
  unfold isValidEmail, emailRegex. rewrite RegExpFacts.fullMatch_spec.
  rewrite RegExpFacts.lang_seq_inv. split.
  - intros (a & r1 & -> & Ha & H1).
    apply RegExpFacts.lang_seq_inv in H1 as (at_ & r2 & -> & Hat & H2).
    apply RegExpFacts.lang_seq_inv in H2 as (b & r3 & -> & Hb & H3).
    apply RegExpFacts.lang_seq_inv in H3 as (dot & c & -> & Hdot & Hc).
    apply RegExpFacts.lang_class_inv in Hat as (x & -> & Hx).
    apply RegExpFacts.lang_class_inv in Hdot as (y & -> & Hy).
    apply Z.eqb_eq in Hx, Hy. subst x y.
    apply RegExpFacts.lang_plus_class in Ha as [Ha1 Ha2].
    apply RegExpFacts.lang_plus_class in Hb as [Hb1 Hb2].
    apply RegExpFacts.lang_plus_class in Hc as [Hc1 Hc2].
    exists a, b, c. repeat split; try assumption.
    rewrite !Forall_app. auto.
  - intros (a & b & c & -> & Ha & Hb & Hc & Hall).
    rewrite !Forall_app in Hall. destruct Hall as (Ha2 & Hb2 & Hc2).
    exists a, (64 :: b ++ 46 :: c). split; [reflexivity|].
    split; [now apply RegExpFacts.lang_plus_class|].
    apply RegExpFacts.lang_seq_inv. exists [64], (b ++ 46 :: c).
    split; [reflexivity|]. split; [now constructor|].
    apply RegExpFacts.lang_seq_inv. exists b, (46 :: c).
    split; [reflexivity|]. split; [now apply RegExpFacts.lang_plus_class|].
    apply RegExpFacts.lang_seq_inv. exists [46], c.
    split; [reflexivity|]. split; [now constructor|].
    now apply RegExpFacts.lang_plus_class.
Qed.

(** A valid e-mail address is not empty. *)
Lemma isValidEmail_nonempty (email : jsstring) :
  isValidEmail email = true -> email <> [].
Proof.
  intros H ->. discriminate H.
Qed.

(** What a requirement of the configuration asks of a password. *)
Lemma requirement_spec (flag : option bool) (p : Z -> bool)
  (password : jsstring) :
  default false flag && negb (test (Class p) password) = false <->
  (flag = Some true -> exists c, c ∈ password /\ p c = true).
Proof.
  rewrite <- RegExpFacts.test_class.
  destruct flag as [[|]|]; cbn [default andb].
  - destruct (test (Class p) password); cbn [negb].
    + split; auto.
    + split; [discriminate|]. intros H. now specialize (H eq_refl).
  - split; [discriminate|reflexivity].
  - split; [discriminate|reflexivity].
Qed.

(** X2.  [validatePassword] accepts a password exactly when it has at least
    [passwordMinLength || 8] code units and, for each requirement that is
    switched on, holds an upper-case letter, a lower-case letter, a digit, a
    special character; it gives an error text exactly when it refuses. *)
Theorem validatePassword_accepts (c : EmailPasswordConfig)
  (password : jsstring) :
  (fst (validatePassword c password) = true <->
   orNumber (passwordMinLength c) 8 <= Z.of_nat (length password) /\
   (requireUppercase c = Some true ->
    exists ch, ch ∈ password /\ upper ch = true) /\
   (requireLowercase c = Some true ->
    exists ch, ch ∈ password /\ lower ch = true) /\
   (requireNumbers c = Some true ->
    exists ch, ch ∈ password /\ digit ch = true) /\
   (requireSpecialChars c = Some true ->
    exists ch, ch ∈ password /\ special ch = true)) /\
  (fst (validatePassword c password) = true <->
   snd (validatePassword c password) = None).
Proof.
  rewrite <- !requirement_spec. unfold validatePassword.
  destruct (Z.ltb_spec (Z.of_nat (length password))
              (orNumber (passwordMinLength c) 8)) as [Hlen|Hlen];
    cbn [fst snd]; [split; split; try discriminate; lia|].
  repeat match goal with
         | |- context [if ?b then _ else _] =>
             destruct b eqn:?; cbn [fst snd]
         end;
    (split; split; try discriminate; try reflexivity; try tauto;
     intros (_ & ? & ? & ? & ?); congruence).
Qed.


(** X4.  [register] never touches an account that exists: for an address
    whose lower-case form is taken, it answers [success: false] with an
    error text and changes nothing, so the stored password stays. *)
Theorem register_existing_email_unchanged (pf : Platform)
  (w : Eff.World Provider) (email password userId : jsstring) :
  is_Some (users (Eff.state w) !! toLowerCase pf email) ->
  exists reason,
    register pf email password userId w = (Return (false, Some reason), w) /\
    (isValidEmail email = true -> reason = lit "Email already registered").
Proof.
  intros Htaken. unfold register.
  destruct (isValidEmail email); cbn [negb]; run.
  - rewrite bool_decide_eq_true_2 by exact Htaken. eexists. split; reflexivity.
  - eexists. split; [reflexivity|discriminate].
Qed.

(** X5.  [authenticate] does not tell an unknown address from a wrong
    password: in both cases, for non-empty credentials, it answers
    "Invalid email or password", and it changes nothing. *)
Theorem authenticate_rejections_uniform (pf : Platform)
  (w : Eff.World Provider) (creds : EmailPasswordCredentials) :
  c_email creds <> [] ->
  c_password creds <> [] ->
  (users (Eff.state w) !! toLowerCase pf (c_email creds) = None \/
   exists user,
     users (Eff.state w) !! toLowerCase pf (c_email creds) = Some user /\
     hashPassword pf (c_password creds) (salt user) <> passwordHash user) ->
  authenticate pf creds w = (Return (failure "Invalid email or password"), w).
Proof.
  intros He Hp Hcase. unfold authenticate.
  destruct (c_email creds) as [|e0 er] eqn:Ee; [congruence|].
  destruct (c_password creds) as [|p0 pr] eqn:Ep; [congruence|].
  run. destruct Hcase as [->|(user & -> & Hhash)]; [reflexivity|].
  now rewrite bool_decide_eq_false_2 by exact Hhash.
Qed.

(** [authenticate] succeeds only for an account whose stored hash is the
    hash of the password given, and never changes the accounts. *)
Lemma authenticate_inv (pf : Platform) (w w' : Eff.World Provider)
  (creds : EmailPasswordCredentials) (result : AuthResult) :
  authenticate pf creds w = (Return result, w') ->
  Eff.state w' = Eff.state w /\
  (success result = true ->
   exists user,
     users (Eff.state w) !! toLowerCase pf (c_email creds) = Some user /\
     hashPassword pf (c_password creds) (salt user) = passwordHash user /\
     c_password creds <> [] /\
     ar_userId result = Some (userId user) /\
     token result =
       Some (EmailPassword.generateToken (tokens pf) (userId user)
               (dateNow pf (Eff.steps w)))).
Proof.
  unfold authenticate.
  destruct (c_email creds) as [|e0 er] eqn:Ee;
    destruct (c_password creds) as [|p0 pr] eqn:Ep;
    try (intros [= <- <-]; split; [reflexivity|discriminate]).
  run.
  destruct (users (Eff.state w) !! toLowerCase pf (e0 :: er)) as [user|];
    [|intros [= <- <-]; split; [reflexivity|discriminate]].
  destruct (decide (hashPassword pf (p0 :: pr) (salt user) = passwordHash user))
    as [Hh|Hh].
  - rewrite bool_decide_eq_true_2 by exact Hh. cbn [negb].
    intros [= <- <-]. cbn [Eff.state]. split; [reflexivity|]. intros _.
    exists user. repeat split; auto; discriminate.
  - rewrite bool_decide_eq_false_2 by exact Hh. cbn [negb].
    intros [= <- <-]. split; [reflexivity|discriminate].
Qed.

(** X6.  The token of a successful [authenticate] is accepted by [verify]:
    when the user id has no colon (and the digest is colon-free, the expiry
    a time a [Date] can hold), [verify] answers valid for that user id, with
    the expiry 24 hours after the authentication, at every time up to that
    expiry. *)
Theorem account_token_verifies (pf : Platform)
  (w w' : Eff.World Provider) (creds : EmailPasswordCredentials)
  (result : AuthResult) (u : jsstring) (now : Z) :
  authenticate pf creds w = (Return result, w') ->
  success result = true ->
  ar_userId result = Some u ->
  colon ∉ u ->
  (forall s, colon ∉ EmailPassword.sha256Hex (tokens pf) s) ->
  - maxTime <= dateNow pf (Eff.steps w) + Provider.day <= maxTime ->
  now <= dateNow pf (Eff.steps w) + Provider.day ->
  exists t,
    token result = Some t /\
    EmailPassword.verify (tokens pf) t now =
      Provider.accepted u (DateAt (dateNow pf (Eff.steps w) + Provider.day)).
Proof.
  intros Hrun Hok Hu Hcolon Hsha Hrange Hnow.
  destruct (authenticate_inv pf w w' creds result Hrun) as [_ Hinv].
  destruct (Hinv Hok) as (user & _ & _ & _ & Hid & Htok).
  rewrite Hu in Hid. injection Hid as ->.
  eexists. split; [exact Htok|].
  unfold EmailPassword.verify, EmailPassword.generateToken.
  rewrite ProviderFacts.verify_generateToken;
    [|intros; apply Hsha|exact Hcolon|exact Hrange].
  destruct (Z.ltb_spec (dateNow pf (Eff.steps w) + Provider.day) now);
    [lia|reflexivity].
Qed.


(** X8.  [deleteUser] tells whether the account existed, and after it no
    password authenticates the address any more. *)
Theorem deleteUser_then_authenticate (pf : Platform)
  (w : Eff.World Provider) (email password : jsstring) :
  exists w1 result w2,
    deleteUser pf email w
      = (Return (bool_decide
                   (is_Some (users (Eff.state w) !! toLowerCase pf email))),
         w1) /\
    authenticate pf {| c_email := email; c_password := password |} w1
      = (Return result, w2) /\
    success result = false /\
    (forall other,
       other <> toLowerCase pf email ->
       users (Eff.state w1) !! other = users (Eff.state w) !! other).
Proof.
  assert (forall (st : Provider) (other : jsstring),
            other <> toLowerCase pf email ->
            users (setUsers (base.delete (toLowerCase pf email)) st) !! other
            = users st !! other) as Hother
    by (intros st other Hne; cbn [users setUsers];
        now rewrite lookup_delete_ne).
  unfold deleteUser, authenticate. cbn [c_email c_password]. run.
  destruct email as [|e0 er]; [|destruct password as [|p0 pr]].
  - eexists _, _, _. split; [reflexivity|].
    destruct password; (split; [reflexivity|]); (split; [reflexivity|]);
      apply Hother.
  - eexists _, _, _. split; [reflexivity|]. split; [reflexivity|].
    split; [reflexivity|]. apply Hother.
  - eexists _, _, _. split; [reflexivity|].
    run. cbn [users setUsers]. rewrite lookup_delete_eq.
    split; [reflexivity|]. split; [reflexivity|]. apply Hother.
Qed.

(** *** The theorems at concrete accounts *)

Lemma example_account :
  users (Eff.state AccountExamples.withAlice)
    !! toLowerCase AccountExamples.platform AccountExamples.address
  = Some AccountExamples.aliceAccount.
Proof. vm_compute. reflexivity. Qed.


Lemma register_existing_email_unchanged_witness :
  is_Some (users (Eff.state AccountExamples.withAlice)
             !! toLowerCase AccountExamples.platform AccountExamples.address)
  /\
  register AccountExamples.platform AccountExamples.address
    AccountExamples.nextPassword (lit "user-2") AccountExamples.withAlice
  = (Return (false, Some (lit "Email already registered")),
     AccountExamples.withAlice).
Proof.
  assert (is_Some (users (Eff.state AccountExamples.withAlice)
                     !! toLowerCase AccountExamples.platform
                          AccountExamples.address)) as H1
    by (exists AccountExamples.aliceAccount; exact example_account).
  split; [exact H1|].
  destruct (register_existing_email_unchanged AccountExamples.platform
              AccountExamples.withAlice AccountExamples.address
              AccountExamples.nextPassword (lit "user-2") H1)
    as (reason & Hrun & Hreason).
  rewrite Hrun. rewrite Hreason by (vm_compute; reflexivity). reflexivity.
Defined.

Lemma authenticate_rejections_uniform_witness :
  hashPassword AccountExamples.platform AccountExamples.wrongPassword
    (salt AccountExamples.aliceAccount)
  <> passwordHash AccountExamples.aliceAccount /\
  authenticate AccountExamples.platform
    {| c_email := AccountExamples.address;
       c_password := AccountExamples.wrongPassword |}
    AccountExamples.withAlice
  = (Return (failure "Invalid email or password"), AccountExamples.withAlice).
Proof.
  assert (hashPassword AccountExamples.platform AccountExamples.wrongPassword
            (salt AccountExamples.aliceAccount)
          <> passwordHash AccountExamples.aliceAccount) as H1
    by (intros Heq; vm_compute in Heq; discriminate Heq).
  split; [exact H1|].
  apply (authenticate_rejections_uniform AccountExamples.platform
           AccountExamples.withAlice
           {| c_email := AccountExamples.address;
              c_password := AccountExamples.wrongPassword |}).
  - vm_compute. discriminate.
  - vm_compute. discriminate.
  - right. exists AccountExamples.aliceAccount.
    split; [exact example_account|exact H1].
Defined.

Lemma account_token_verifies_witness :
  (colon ∉ AccountExamples.account) /\
  exists result w' t,
    authenticate AccountExamples.platform AccountExamples.login
      AccountExamples.withAlice = (Return result, w') /\
    token result = Some t /\
    EmailPassword.verify (tokens AccountExamples.platform) t 1700000001000
    = Provider.accepted AccountExamples.account
        (DateAt (dateNow AccountExamples.platform
                   (Eff.steps AccountExamples.withAlice) + Provider.day)).
Proof.
  assert (colon ∉ AccountExamples.account) as Hu
    by (apply (bool_decide_unpack _); vm_compute; exact I).
  split; [exact Hu|].
  destruct (authenticate AccountExamples.platform AccountExamples.login
              AccountExamples.withAlice) as [[result| |] w'] eqn:Hrun;
    try (vm_compute in Hrun; discriminate).
  assert (success result = true /\ ar_userId result = Some AccountExamples.account)
    as [Hok Hid].
  { pose proof Hrun as Hc. vm_compute in Hc. injection Hc as Hr _.
    rewrite <- Hr. split; vm_compute; reflexivity. }
  assert (- maxTime <= dateNow AccountExamples.platform
                         (Eff.steps AccountExamples.withAlice) + Provider.day
          <= maxTime) as Ht by (vm_compute; split; discriminate).
  assert (1700000001000 <= dateNow AccountExamples.platform
                             (Eff.steps AccountExamples.withAlice)
                           + Provider.day) as Hnow
    by (vm_compute; discriminate).
  destruct (account_token_verifies AccountExamples.platform
              AccountExamples.withAlice w' AccountExamples.login result
              AccountExamples.account 1700000001000 Hrun Hok Hid Hu
              EmailPasswordFacts.example_digest_no_colon Ht Hnow)
    as (t & Htoken & Hverify).
  exists result, w', t. split; [reflexivity|]. split; [exact Htoken|exact Hverify].
Defined.


End EmailAccountsFacts.

(** ** The FIDO2 provider: helpers *)

Module FIDO2HelperFacts.

Import FIDO2.

(** X9.  [getCounterFromAuthData] throws a [RangeError] when the
    authenticator data has fewer than 37 bytes; otherwise it returns the
    big-endian value of the bytes 33 to 36, which for byte values lies in
    the range of an unsigned 32-bit integer. *)
Theorem getCounterFromAuthData_spec (pf : Platform) (authData : list Z) :
  ((length authData < 37)%nat ->
   getCounterFromAuthData pf authData
     = Throws (JsError (rangeErrorMessage pf))) /\
  ((37 <= length authData)%nat ->
   exists b0 b1 b2 b3,
     authData !! 33%nat = Some b0 /\ authData !! 34%nat = Some b1 /\
     authData !! 35%nat = Some b2 /\ authData !! 36%nat = Some b3 /\
     getCounterFromAuthData pf authData
       = Returns (b0 * 2 ^ 24 + b1 * 2 ^ 16 + b2 * 2 ^ 8 + b3) /\
     (Forall (fun b => 0 <= b < 256) authData ->
      0 <= b0 * 2 ^ 24 + b1 * 2 ^ 16 + b2 * 2 ^ 8 + b3 < 2 ^ 32)).
Proof.
  unfold getCounterFromAuthData.
  assert (length (take 4 (drop 33 authData))
          = Nat.min 4 (length authData - 33)) as Hlen
    by now rewrite length_take, length_drop.
  assert (forall i, (i < 4)%nat ->
            take 4 (drop 33 authData) !! i = authData !! (33 + i)%nat) as Hnth
    by (intros i Hi; now rewrite lookup_take_lt, lookup_drop by exact Hi).
  destruct (take 4 (drop 33 authData)) as [|b0 [|b1 [|b2 [|b3 [|b4 r]]]]];
    cbn [length] in Hlen; (split; [intros Hshort|intros Hlong]);
    try reflexivity; try lia.
  exists b0, b1, b2, b3.
  pose proof (Hnth 0%nat ltac:(lia)) as H0.
  pose proof (Hnth 1%nat ltac:(lia)) as H1.
  pose proof (Hnth 2%nat ltac:(lia)) as H2.
  pose proof (Hnth 3%nat ltac:(lia)) as H3.
  cbn in H0, H1, H2, H3.
  repeat split; auto; try (f_equal; lia).
  - rewrite Forall_forall in H.
    assert (0 <= b0 < 256) by (apply H; eapply list_elem_of_lookup_2; eauto).
    assert (0 <= b1 < 256) by (apply H; eapply list_elem_of_lookup_2; eauto).
    assert (0 <= b2 < 256) by (apply H; eapply list_elem_of_lookup_2; eauto).
    assert (0 <= b3 < 256) by (apply H; eapply list_elem_of_lookup_2; eauto).
    lia.
  - rewrite Forall_forall in H.
    assert (0 <= b0 < 256) by (apply H; eapply list_elem_of_lookup_2; eauto).
    assert (0 <= b1 < 256) by (apply H; eapply list_elem_of_lookup_2; eauto).
    assert (0 <= b2 < 256) by (apply H; eapply list_elem_of_lookup_2; eauto).
    assert (0 <= b3 < 256) by (apply H; eapply list_elem_of_lookup_2; eauto).
    lia.
Qed.

Lemma replaceAll_gone (c d : Z) (s : jsstring) :
  c <> d -> c ∉ replaceAll c d s.
Proof.
  intros Hne Hin. unfold replaceAll in Hin.
  apply list_elem_of_In, in_map_iff in Hin as (x & Hx & _).
  destruct (Z.eqb_spec x c); congruence.
Qed.

Lemma replaceAll_keeps_out (c d x : Z) (s : jsstring) :
  x <> d -> x ∉ s -> x ∉ replaceAll c d s.
Proof.
  intros Hne Hout Hin. unfold replaceAll in Hin.
  apply list_elem_of_In, in_map_iff in Hin as (y & Hy & Hin).
  apply list_elem_of_In in Hin.
  destruct (Z.eqb_spec y c); [congruence|]. now subst y.
Qed.

Lemma removeAll_keeps_out (c x : Z) (s : jsstring) :
  x ∉ s -> x ∉ removeAll c s.
Proof.
  intros Hout Hin. unfold removeAll in Hin.
  apply list_elem_of_In, filter_In in Hin as [Hin _].
  now apply list_elem_of_In in Hin.
Qed.

Lemma removeAll_gone (c : Z) (s : jsstring) : c ∉ removeAll c s.
Proof.
  intros Hin. unfold removeAll in Hin.
  apply list_elem_of_In, filter_In in Hin as [_ Hc].
  now rewrite Z.eqb_refl in Hc.
Qed.

(** X10.  The credential ids made by [arrayBufferToBase64Url] are safe in
    URLs: whatever [btoa] returns, the id holds none of [+], [/] and [=]. *)
Theorem arrayBufferToBase64Url_url_safe (pf : Platform) (buffer : list Z) :
  (43 ∉ arrayBufferToBase64Url pf buffer) /\
  (47 ∉ arrayBufferToBase64Url pf buffer) /\
  (61 ∉ arrayBufferToBase64Url pf buffer).
Proof.
  unfold arrayBufferToBase64Url. repeat split.
  - apply removeAll_keeps_out, replaceAll_keeps_out; [lia|].
    now apply replaceAll_gone.
  - apply removeAll_keeps_out. now apply replaceAll_gone.
  - apply removeAll_gone.
Qed.

Lemma url_substitutions_undone (s : jsstring) :
  45 ∉ s -> 95 ∉ s ->
  replaceAll 95 47
    (replaceAll 45 43 (removeAll 61 (replaceAll 47 95 (replaceAll 43 45 s))))
  = removeAll 61 s.
Proof.
  unfold replaceAll, removeAll.
  induction s as [|c s IH]; intros H45 H95; [reflexivity|].
  apply not_elem_of_cons in H45 as [Hc45 H45].
  apply not_elem_of_cons in H95 as [Hc95 H95].
  cbn [List.map List.filter]. specialize (IH H45 H95).
  destruct (Z.eqb_spec c 43) as [->|H43]; cbn.
  - now rewrite IH.
  - destruct (Z.eqb_spec c 47) as [->|H47]; cbn.
    + now rewrite IH.
    + destruct (Z.eqb_spec c 61) as [->|H61]; cbn; [exact IH|].
      destruct (Z.eqb_spec c 45); [congruence|].
      destruct (Z.eqb_spec c 95); [congruence|].
      now rewrite IH.
Qed.

(** X11.  Decoding undoes encoding: when [btoa] writes the standard
    alphabet (no [-], no [_]) and [atob] decodes its unpadded output to the
    binary string [binary], [base64UrlToArrayBuffer] applied to
    [arrayBufferToBase64Url(buffer)] returns the bytes of [binary]. *)
Theorem base64Url_round_trip (pf : Platform) (buffer binary : list Z) :
  45 ∉ btoa pf buffer ->
  95 ∉ btoa pf buffer ->
  atob pf (removeAll 61 (btoa pf buffer)) = Returns binary ->
  base64UrlToArrayBuffer pf (arrayBufferToBase64Url pf buffer)
  = Returns (List.map (fun c => c mod 256) binary).
Proof.
  intros H45 H95 Hatob.
  unfold base64UrlToArrayBuffer, arrayBufferToBase64Url.
  now rewrite url_substitutions_undone, Hatob by assumption.
Qed.

Lemma toInt32_range (z : Z) : - 2 ^ 31 <= toInt32 z < 2 ^ 31.
Proof.
  unfold toInt32.
  pose proof (Z.mod_pos_bound (z + 2 ^ 31) (2 ^ 32) ltac:(lia)). lia.
Qed.

Lemma hash_range (data : jsstring) : forall h,
  - 2 ^ 31 <= h < 2 ^ 31 ->
  - 2 ^ 31 <= fold_left hashStep data h < 2 ^ 31.
Proof.
  induction data as [|c data IH]; intros h Hh; [exact Hh|].
  cbn [fold_left]. apply IH. apply toInt32_range.
Qed.

Lemma toDigits_length (radix : Z) (fuel : nat) : forall (k : nat) (n : Z)
  (acc : jsstring),
  2 <= radix -> 0 <= n < radix ^ Z.of_nat (S k) ->
  (length (toDigits radix fuel n acc) <= S k + length acc)%nat.
Proof.
  induction fuel as [|fuel IH]; intros k n acc Hr Hn; cbn [toDigits];
    [lia|].
  destruct (Z.eqb_spec (n / radix) 0) as [Hq|Hq]; [cbn [length]; lia|].
  destruct k as [|k].
  - change (radix ^ Z.of_nat 1) with (radix ^ 1) in Hn.
    rewrite Z.pow_1_r in Hn. rewrite Z.div_small in Hq by lia. congruence.
  - etransitivity; [apply (IH k)|cbn [length]; lia]; [exact Hr|].
    split; [apply Z.div_pos; lia|].
    apply Z.div_lt_upper_bound; [lia|].
    rewrite (Nat2Z.inj_succ (S k)), Z.pow_succ_r in Hn by lia. lia.
Qed.

(** X12.  A signature of the FIDO2 provider is a text of one to six of the
    characters [0-9a-z] (the base-36 form of a number of at most 2^31), so
    it never holds a colon. *)
Theorem signToken_shape (pf : Platform) (userId timestamp : jsstring) :
  (1 <= length (signToken pf userId timestamp) <= 6)%nat /\
  Forall digitLike (signToken pf userId timestamp).
Proof.
  unfold signToken.
  set (data := userId ++ colon :: timestamp ++ colon :: secret pf).
  pose proof (hash_range data 0 ltac:(lia)) as Hh.
  set (h := fold_left hashStep data 0) in *. clearbody h.
  assert (0 <= Z.abs h <= 2 ^ 31) as Ha by lia.
  unfold numberToString.
  destruct (Z.ltb_spec (Z.abs h) 0) as [Hneg|_]; [lia|].
  pose proof (toDigits_length 36 (digitFuel (Z.abs h)) 5 (Z.abs h) []
                ltac:(lia)) as Hlen.
  pose proof (JSFacts.toDigits_nonempty 36 (Z.to_nat (Z.log2 (Z.abs h)))
                (Z.abs h) []) as Hne.
  fold (digitFuel (Z.abs h)) in Hne.
  split.
  - destruct (toDigits 36 (digitFuel (Z.abs h)) (Z.abs h) []);
      [congruence|]. cbn [length] in *.
    assert (Z.abs h < 36 ^ Z.of_nat 6) by (change (36 ^ Z.of_nat 6) with 2176782336; lia).
    lia.
  - apply JSFacts.toDigits_digitLike; [lia|constructor].
Qed.

(** *** The theorems at concrete inputs *)

Lemma getCounterFromAuthData_spec_witness :
  (37 <= length (Examples.authenticatorData 5))%nat /\
  getCounterFromAuthData (Examples.platform 0) (Examples.authenticatorData 5)
  = Returns 5.
Proof.
  assert (37 <= length (Examples.authenticatorData 5))%nat as Hlen
    by (vm_compute; lia).
  split; [exact Hlen|].
  destruct (getCounterFromAuthData_spec (Examples.platform 0)
              (Examples.authenticatorData 5)) as [_ Hlong].
  destruct (Hlong Hlen) as (b0 & b1 & b2 & b3 & H0 & H1 & H2 & H3 & Hrun & _).
  rewrite Hrun. vm_compute in H0, H1, H2, H3.
  injection H0 as <-. injection H1 as <-. injection H2 as <-.
  injection H3 as <-. reflexivity.
Defined.

Lemma base64Url_round_trip_witness :
  (45 ∉ btoa (Examples.platform 0) Examples.rawId) /\
  (95 ∉ btoa (Examples.platform 0) Examples.rawId) /\
  base64UrlToArrayBuffer (Examples.platform 0)
    (arrayBufferToBase64Url (Examples.platform 0) Examples.rawId)
  = Returns Examples.rawId.
Proof.
  assert (45 ∉ btoa (Examples.platform 0) Examples.rawId) as H1
    by (apply (bool_decide_unpack _); vm_compute; exact I).
  assert (95 ∉ btoa (Examples.platform 0) Examples.rawId) as H2
    by (apply (bool_decide_unpack _); vm_compute; exact I).
  assert (atob (Examples.platform 0)
            (removeAll 61 (btoa (Examples.platform 0) Examples.rawId))
          = Returns Examples.rawId) as H3 by (vm_compute; reflexivity).
  split; [exact H1|]. split; [exact H2|].
  rewrite (base64Url_round_trip (Examples.platform 0) Examples.rawId
             Examples.rawId H1 H2 H3).
  vm_compute. reflexivity.
Defined.

End FIDO2HelperFacts.

(** ** The FIDO2 provider: registration and authentication *)

Module FIDO2CeremonyFacts.

Import FIDO2 FIDO2Ceremonies FIDO2Credentials.

Lemma generateRegistrationOptions_stuck_free (pf : Platform)
  (options : RegistrationOptions) (w : Eff.World Provider) :
  fst (generateRegistrationOptions pf options w) <> Stuck.
Proof.
  unfold generateRegistrationOptions, generateChallenge, descriptors.
  run. destruct (excludeCredentials options) as [l|]; run; [|discriminate].
  match goal with
  | |- context [Eff.mapM (descriptor pf) l ?w0] =>
      pose proof (mapM_descriptor_stuck_free pf l w0) as Hp;
      destruct (Eff.mapM (descriptor pf) l w0) as [[ds| |] w1]
  end; cbn [fst] in *; congruence.
Qed.

(** X13.  A registration whose ceremony returns a credential with client
    data of type "webauthn.create" from the configured origin returns a
    credential for the user with counter 0, stored under the base64url form
    of its raw id; the user's challenge is gone and every other credential
    is as before.  A credential already stored under that id is replaced,
    its counter back at 0. *)
Theorem register_success (pf : Platform) (w w1 : Eff.World Provider)
  (options : RegistrationOptions)
  (publicKeyOptions : PublicKeyCredentialCreationOptions)
  (credential : AttestationCredential) (clientData : ClientData) :
  hasWebAuthn pf = true ->
  generateRegistrationOptions pf options w = (Return publicKeyOptions, w1) ->
  credentialsCreate pf (Eff.steps w1) publicKeyOptions
    = Returns (Some credential) ->
  parseClientData pf (at_clientDataJSON credential) = Returns clientData ->
  cd_type clientData = Some (lit "webauthn.create") ->
  cd_origin clientData = Some (origin (config (Eff.state w))) ->
  exists registered w',
    register pf options w = (Return registered, w') /\
    counter registered = 0 /\
    userId registered = ro_userId options /\
    id registered = arrayBufferToBase64Url pf (at_rawId credential) /\
    FIDO2.credentials (Eff.state w') !! id registered = Some registered /\
    challenges (Eff.state w') !! ro_userId options = None /\
    (forall other,
       other <> id registered ->
       FIDO2.credentials (Eff.state w') !! other
       = FIDO2.credentials (Eff.state w) !! other).
Proof.
  intros Hsup Hgen Hcreate Hparse Htype Horigin.
  pose proof (generateRegistrationOptions_world pf options w) as Hw1.
  rewrite Hgen in Hw1. cbn [snd] in Hw1.
  unfold register, isSupported. rewrite Hsup. cbn [negb].
  run. rewrite Hgen, Hcreate. subst w1.
  cbn [Eff.state Eff.steps completion setChallenges challenges config].
  rewrite lookup_insert_eq, Hparse. cbn [completion].
  rewrite Htype, Horigin, !bool_decide_eq_true_2 by reflexivity. cbn [negb].
  eexists _, _. split; [reflexivity|].
  cbn [counter userId id Eff.state setCredentials setChallenges
         FIDO2.credentials challenges].
  repeat split.
  - apply lookup_insert_eq.
  - apply lookup_delete_eq.
  - intros other Hne. now rewrite lookup_insert_ne.
Qed.

(** X14.  [register] changes the stored credentials only by adding the
    credential it returns: when it throws, whatever the reason, the
    credentials are as before. *)
Theorem register_credentials_frame (pf : Platform)
  (options : RegistrationOptions) (w : Eff.World Provider) :
  match register pf options w with
  | (Return registered, w') =>
      FIDO2.credentials (Eff.state w')
      = <[id registered := registered]> (FIDO2.credentials (Eff.state w))
  | (Throw _, w') =>
      FIDO2.credentials (Eff.state w') = FIDO2.credentials (Eff.state w)
  | (Stuck, _) => False
  end.
Proof.
  unfold register. destruct (negb (isSupported pf)); [reflexivity|].
  pose proof (generateRegistrationOptions_world pf options w) as Hw1.
  pose proof (generateRegistrationOptions_stuck_free pf options w) as Hns.
  run.
  destruct (generateRegistrationOptions pf options w)
    as [[publicKeyOptions|e|] w1]; cbn [fst snd] in *;
    [|subst w1; reflexivity|congruence].
  subst w1. cbn [Eff.state Eff.steps setChallenges challenges].
  unfold completion.
  repeat case_step; cbn [FIDO2.credentials id]; reflexivity.
Qed.

(** X15.  [authenticate] never throws: every failure becomes a result with
    [success: false] and an error text, and such a result leaves the stored
    credentials, counters included, as they were. *)
Theorem authenticate_total (pf : Platform)
  (credentials : AuthenticationOptions) (w : Eff.World Provider) :
  exists result,
    fst (authenticate pf credentials w) = Return result /\
    (success result = false ->
     is_Some (ar_error result) /\
     FIDO2.credentials (Eff.state (snd (authenticate pf credentials w)))
     = FIDO2.credentials (Eff.state w)).
Proof.
  destruct (authenticate_returns pf credentials w) as [result Hres].
  exists result. split; [exact Hres|]. intros Hfail.
  split; [|now apply (authenticate_failure_frame pf credentials w result)].
  revert Hres Hfail. unfold authenticate.
  destruct (negb (isSupported pf)); [intros [= <-] _; now eexists|].
  run.
  destruct (generateAuthenticationOptions pf credentials w)
    as [[publicKeyOptions|e|] w1]; cbn [fst];
    [|intros [= <-] _; now eexists|discriminate].
  unfold completion.
  repeat case_step; cbn [fst]; intros [= <-]; try (intros _; now eexists);
    discriminate.
Qed.

(** What a successful [authenticate] returns. *)
Lemma authenticate_success_inv (pf : Platform)
  (credentials : AuthenticationOptions) (w : Eff.World Provider)
  (result : AuthResult) :
  fst (authenticate pf credentials w) = Return result ->
  success result = true ->
  exists u,
    ar_userId result = Some u /\
    ar_token result =
      Some (generateSessionToken pf u (dateNow pf (5 + Eff.steps w))).
Proof.
  unfold authenticate.
  destruct (negb (isSupported pf)); [intros [= <-]; discriminate|].
  pose proof (generateAuthenticationOptions_world pf credentials w) as Hw1.
  run.
  destruct (generateAuthenticationOptions pf credentials w)
    as [[publicKeyOptions|e|] w1]; cbn [fst snd] in *;
    [|intros [= <-]; discriminate|discriminate].
  subst w1. cbn [Eff.state Eff.steps]. unfold completion.
  repeat case_step; cbn [fst]; try discriminate; intros [= <-];
    try discriminate.
  intros _. eexists. split; reflexivity.
Qed.

(** X16.  The session token of a successful [authenticate] is accepted by
    [verify] of the same provider: when the user id has no colon, [verify]
    answers valid for that user id at every time up to 24 hours after the
    token was minted. *)
Theorem session_token_verifies (pf : Platform)
  (credentials : AuthenticationOptions) (w : Eff.World Provider)
  (result : AuthResult) (u : jsstring) (now : Z) :
  fst (authenticate pf credentials w) = Return result ->
  success result = true ->
  ar_userId result = Some u ->
  colon ∉ u ->
  - maxTime <= dateNow pf (5 + Eff.steps w) + Provider.day <= maxTime ->
  now <= dateNow pf (5 + Eff.steps w) + Provider.day ->
  exists t,
    ar_token result = Some t /\
    verify pf t now =
      Provider.accepted u
        (DateAt (dateNow pf (5 + Eff.steps w) + Provider.day)).
Proof.
  intros Hrun Hok Hu Hcolon Hrange Hnow.
  destruct (authenticate_success_inv pf credentials w result Hrun Hok)
    as (u' & Hu' & Htok).
  rewrite Hu in Hu'. injection Hu' as <-.
  eexists. split; [exact Htok|].
  unfold verify, generateSessionToken.
  rewrite ProviderFacts.verify_generateToken;
    [|intros; apply FIDO2Facts.signToken_no_colon|exact Hcolon|exact Hrange].
  destruct (Z.ltb_spec (dateNow pf (5 + Eff.steps w) + Provider.day) now);
    [lia|reflexivity].
Qed.

(** X17.  [deleteCredential] tells whether the credential was stored, and a
    later assertion made with the deleted credential is refused with
    "Credential not found". *)
Theorem deleteCredential_then_authenticate (pf : Platform)
  (w w2 : Eff.World Provider) (credentialId : jsstring)
  (credentials : AuthenticationOptions)
  (publicKeyOptions : PublicKeyCredentialRequestOptions)
  (assertion : AssertionCredential) :
  let w1 := snd (deleteCredential credentialId w) in
  hasWebAuthn pf = true ->
  generateAuthenticationOptions pf credentials w1
    = (Return publicKeyOptions, w2) ->
  credentialsGet pf (Eff.steps w2) publicKeyOptions
    = Returns (Some assertion) ->
  arrayBufferToBase64Url pf (as_rawId assertion) = credentialId ->
  fst (deleteCredential credentialId w)
    = Return (bool_decide
                (is_Some (FIDO2.credentials (Eff.state w) !! credentialId)))
  /\
  fst (authenticate pf credentials w1)
    = Return (failure (lit "Credential not found")).
Proof.
  intros w1 Hsup Hgen Hget Hid. split; [reflexivity|].
  pose proof (generateAuthenticationOptions_world pf credentials w1) as Hw2.
  rewrite Hgen in Hw2. cbn [snd] in Hw2.
  unfold authenticate, isSupported. rewrite Hsup. cbn [negb].
  run. rewrite Hgen, Hget. subst w2.
  cbn [Eff.state Eff.steps completion setChallenges FIDO2.credentials].
  rewrite Hid. subst w1. unfold deleteCredential. run.
  cbn [FIDO2.credentials setCredentials]. now rewrite lookup_delete_eq.
Qed.

(** X18.  The challenge handed out by [generateRegistrationOptions] is the
    one stored for the user, in place of any challenge stored before; the
    options ask for ES256 and RS256 keys, and no credential is touched. *)
Theorem generateRegistrationOptions_binds_challenge (pf : Platform)
  (options : RegistrationOptions) (w w1 : Eff.World Provider)
  (publicKeyOptions : PublicKeyCredentialCreationOptions) :
  generateRegistrationOptions pf options w = (Return publicKeyOptions, w1) ->
  (challenge <$> challenges (Eff.state w1) !! ro_userId options)
    = Some (co_challenge publicKeyOptions) /\
  co_pubKeyCredParams publicKeyOptions = [-7; -257] /\
  FIDO2.credentials (Eff.state w1) = FIDO2.credentials (Eff.state w) /\
  (forall other,
     other <> ro_userId options ->
     challenges (Eff.state w1) !! other = challenges (Eff.state w) !! other).
Proof.
  intros Hgen.
  pose proof (generateRegistrationOptions_world pf options w) as Hw1.
  rewrite Hgen in Hw1. cbn [snd] in Hw1.
  revert Hgen. unfold generateRegistrationOptions, generateChallenge. run.
  match goal with
  | |- context [descriptors pf ?c ?w0] =>
      destruct (descriptors pf c w0) as [[ds| |] w3]
  end; intros [= <- _]; subst w1.
  cbn [Eff.state setChallenges challenges FIDO2.credentials co_challenge
         co_pubKeyCredParams].
  rewrite lookup_insert_eq. repeat split.
  intros other Hne. now rewrite lookup_insert_ne.
Qed.

(** *** The theorems in the environment of the tests *)

Lemma register_success_witness :
  hasWebAuthn (Examples.platform 0) = true /\
  exists registered w',
    register (Examples.platform 0) Examples.registration Examples.fresh
    = (Return registered, w') /\
    counter registered = 0 /\
    FIDO2.credentials (Eff.state w') !! id registered = Some registered /\
    challenges (Eff.state w') !! Examples.user123 = None.
Proof.
  split; [reflexivity|].
  set (credential := {| at_rawId := Examples.rawId; at_clientDataJSON := [1];
                        at_publicKey := Some (repeat 4 65);
                        at_transports := Some [lit "internal"] |}).
  set (clientData := {| cd_type := Some (lit "webauthn.create");
                        cd_origin := Some Examples.origin |}).
  destruct (generateRegistrationOptions (Examples.platform 0)
              Examples.registration Examples.fresh)
    as [[publicKeyOptions| |] w1] eqn:Hgen;
    try (vm_compute in Hgen; discriminate).
  destruct (register_success (Examples.platform 0) Examples.fresh w1
              Examples.registration publicKeyOptions credential clientData
              eq_refl Hgen eq_refl eq_refl eq_refl eq_refl)
    as (registered & w' & Hrun & Hcounter & _ & _ & Hstored & Hchallenge & _).
  exists registered, w'. split; [exact Hrun|]. split; [exact Hcounter|].
  split; [exact Hstored|exact Hchallenge].
Defined.

Lemma session_token_verifies_witness :
  (colon ∉ Examples.user123) /\
  exists result t,
    fst (authenticate (Examples.platform 1) Examples.anyCredential
           Examples.registered) = Return result /\
    ar_token result = Some t /\
    valid (verify (Examples.platform 1) t 1700000001000) = true.
Proof.
  assert (colon ∉ Examples.user123) as Hu
    by (apply (bool_decide_unpack _); vm_compute; exact I).
  split; [exact Hu|].
  destruct (fst (authenticate (Examples.platform 1) Examples.anyCredential
                   Examples.registered)) as [result| |] eqn:Hrun;
    try (vm_compute in Hrun; discriminate).
  assert (success result = true /\ ar_userId result = Some Examples.user123)
    as [Hok Hid].
  { pose proof Hrun as Hc. vm_compute in Hc. injection Hc as Hr.
    rewrite <- Hr. split; vm_compute; reflexivity. }
  assert (- maxTime <= dateNow (Examples.platform 1)
                         (5 + Eff.steps Examples.registered) + Provider.day
          <= maxTime) as Ht by (vm_compute; split; discriminate).
  assert (1700000001000 <= dateNow (Examples.platform 1)
                             (5 + Eff.steps Examples.registered)
                           + Provider.day) as Hnow
    by (vm_compute; discriminate).
  destruct (session_token_verifies (Examples.platform 1)
              Examples.anyCredential Examples.registered result
              Examples.user123 1700000001000 Hrun Hok Hid Hu Ht Hnow)
    as (t & Htoken & Hverify).
  exists result, t. split; [reflexivity|]. split; [exact Htoken|].
  rewrite Hverify. reflexivity.
Defined.

Lemma deleteCredential_then_authenticate_witness :
  hasWebAuthn (Examples.platform 1) = true /\
  fst (deleteCredential Examples.credentialId Examples.registered)
    = Return true /\
  fst (authenticate (Examples.platform 1) Examples.anyCredential
         (snd (deleteCredential Examples.credentialId Examples.registered)))
    = Return (failure (lit "Credential not found")).
Proof.
  split; [reflexivity|].
  set (assertion := {| as_rawId := Examples.rawId; as_clientDataJSON := [2];
                       as_authenticatorData := Examples.authenticatorData 1 |}).
  destruct (generateAuthenticationOptions (Examples.platform 1)
              Examples.anyCredential
              (snd (deleteCredential Examples.credentialId Examples.registered)))
    as [[publicKeyOptions| |] w2] eqn:Hgen;
    try (vm_compute in Hgen; discriminate).
  assert (arrayBufferToBase64Url (Examples.platform 1) (as_rawId assertion)
          = Examples.credentialId) as Hid by (vm_compute; reflexivity).
  destruct (deleteCredential_then_authenticate (Examples.platform 1)
              Examples.registered w2 Examples.credentialId
              Examples.anyCredential publicKeyOptions assertion
              eq_refl Hgen eq_refl Hid) as [Hdeleted Hrefused].
  split; [|exact Hrefused]. rewrite Hdeleted. vm_compute. reflexivity.
Defined.

Lemma generateRegistrationOptions_binds_challenge_witness :
  exists publicKeyOptions w1,
    generateRegistrationOptions (Examples.platform 0) Examples.registration
      Examples.fresh = (Return publicKeyOptions, w1) /\
    (challenge <$> challenges (Eff.state w1) !! Examples.user123)
    = Some (co_challenge publicKeyOptions).
Proof.
  destruct (generateRegistrationOptions (Examples.platform 0)
              Examples.registration Examples.fresh)
    as [[publicKeyOptions| |] w1] eqn:Hgen;
    try (vm_compute in Hgen; discriminate).
  destruct (generateRegistrationOptions_binds_challenge (Examples.platform 0)
              Examples.registration Examples.fresh w1 publicKeyOptions Hgen)
    as (Hchallenge & _).
  exists publicKeyOptions, w1. split; [reflexivity|exact Hchallenge].
Defined.

End FIDO2CeremonyFacts.

(** ** The plugin loader and the engine *)

Module PluginTableFacts.

Import PluginLoader PluginLoaderCalls.

Lemma mapGet_none (k : jsstring) (m : Plugins) :
  mapGet k m = None <-> k ∉ List.map fst m.
Proof.
  induction m as [|[k' v] m IH]; cbn [mapGet List.map fst].
  - split; [intros _; apply not_elem_of_nil|reflexivity].
  - rewrite not_elem_of_cons. destruct (decide (k' = k)) as [Heq|Hne].
    + rewrite bool_decide_eq_true_2 by exact Heq.
      split; [discriminate|intros [Hk _]; congruence].
    + rewrite bool_decide_eq_false_2 by exact Hne. rewrite IH.
      split; [intros Hk; split; [congruence|exact Hk]|intros [_ Hk]; exact Hk].
Qed.

Lemma mapSet_fresh (k : jsstring) (v : IPlugin) (m : Plugins) :
  mapGet k m = None -> mapSet k v m = m ++ [(k, v)].
Proof.
  induction m as [|[k' v'] m IH]; cbn [mapGet mapSet app]; [reflexivity|].
  destruct (bool_decide (k' = k)); [discriminate|].
  intros Hk. now rewrite IH.
Qed.

Lemma mapGet_app (k : jsstring) (m m' : Plugins) :
  mapGet k (m ++ m') =
  match mapGet k m with Some v => Some v | None => mapGet k m' end.
Proof.
  induction m as [|[k' v'] m IH]; cbn [mapGet app]; [reflexivity|].
  now destruct (bool_decide (k' = k)).
Qed.

(** X19.  [register] files a plugin under its name when the name is free:
    [get] then returns it, [getAll] lists it last, after the plugins held
    before, and the other names are as before.  When the name is taken it
    throws "already registered" and the plugin held under the name stays. *)
Theorem register_fresh_or_taken (w : Eff.World Plugins) (plugin : IPlugin) :
  match mapGet (name plugin) (Eff.state w) with
  | Some held =>
      register plugin w = (Throw (JsError (already (name plugin))), w) /\
      fst (get (name plugin) w) = Return (Some held)
  | None =>
      exists w',
        register plugin w = (Return tt, w') /\
        fst (get (name plugin) w') = Return (Some plugin) /\
        (forall l, fst (getAll w) = Return l ->
                   fst (getAll w') = Return (l ++ [plugin])) /\
        (forall other, other <> name plugin ->
                       fst (get other w') = fst (get other w))
  end.
Proof.
  unfold register, get, getAll, mapHas. run.
  destruct (mapGet (name plugin) (Eff.state w)) as [held|] eqn:Hget.
  - run. split; reflexivity.
  - run. eexists. split; [reflexivity|]. cbn [Eff.state fst].
    rewrite (mapSet_fresh _ _ _ Hget). repeat split.
    + rewrite mapGet_app, Hget. cbn [mapGet].
      now rewrite bool_decide_eq_true_2.
    + intros l [= <-]. now rewrite List.map_app.
    + intros other Hne. rewrite mapGet_app. cbn [mapGet].
      rewrite bool_decide_eq_false_2 by congruence.
      now destruct (mapGet other (Eff.state w)).
Qed.

(** *** No two registered plugins share a name *)

Lemma wellKeyed_nil : wellKeyed [].
Proof. split; [constructor|constructor]. Qed.

Lemma wellKeyed_register (plugin : IPlugin) (m : Plugins) :
  wellKeyed m -> mapGet (name plugin) m = None ->
  wellKeyed (mapSet (name plugin) plugin m).
Proof.
  intros [Hkeys Hnodup] Hfree. rewrite (mapSet_fresh _ _ _ Hfree). split.
  - apply Forall_app. split; [exact Hkeys|]. now repeat constructor.
  - rewrite List.map_app. cbn [List.map fst]. apply NoDup_app.
    split; [exact Hnodup|]. split.
    + intros k Hk Hk'. apply list_elem_of_singleton in Hk'. subst k.
      now apply mapGet_none in Hfree.
    + apply NoDup_singleton.
Qed.

Lemma wellKeyed_delete (k : jsstring) (m : Plugins) :
  wellKeyed m -> wellKeyed (mapDelete k m).
Proof.
  intros [Hkeys Hnodup]. unfold mapDelete. split.
  - apply List.Forall_forall. intros kv Hin.
    apply List.filter_In in Hin as [Hin _].
    rewrite List.Forall_forall in Hkeys. now apply Hkeys.
  - induction m as [|[k' v] m IH]; cbn [List.filter List.map fst];
      [constructor|].
    cbn [List.map fst] in Hnodup. apply NoDup_cons in Hnodup as [Hk' Hnodup].
    apply Forall_cons in Hkeys as [_ Hkeys].
    destruct (negb (bool_decide (k' = k))); [|now apply IH].
    cbn [List.map fst]. apply NoDup_cons. split; [|now apply IH].
    intros Hin. apply Hk'.
    apply list_elem_of_In, List.in_map_iff in Hin as ([k0 v0] & <- & Hin).
    apply List.filter_In in Hin as [Hin _].
    apply list_elem_of_In, List.in_map_iff. now exists (k0, v0).
Qed.

(** What a round of [destroy] calls leaves: the table is as it was. *)
Lemma destroy_each_state (l : list IPlugin) :
  forall w : Eff.World Plugins,
    Eff.state
      (snd (Eff.mapM (fun plugin => Eff.call (plugin_destroy plugin)) l w))
    = Eff.state w.
Proof.
  induction l as [|p l IH]; intros w; [reflexivity|].
  cbn [Eff.mapM]. run.
  destruct (completion (plugin_destroy p (Eff.steps w))) as [u|e|];
    [|reflexivity|reflexivity].
  specialize (IH (Eff.mkWorld (S (Eff.steps w)) (Eff.state w))).
  destruct (Eff.mapM _ l _) as [[us|e|] w']; exact IH.
Qed.

Lemma perform_wellKeyed (c : Call) (w : Eff.World Plugins) :
  wellKeyed (Eff.state w) -> wellKeyed (Eff.state (perform c w)).
Proof.
  intros Hw. destruct c as [plugin|pluginName config|pluginName|];
    cbn [perform].
  - unfold register, mapHas. run.
    destruct (mapGet (name plugin) (Eff.state w)) eqn:Hget; [exact Hw|].
    run. now apply wellKeyed_register.
  - unfold initialize. run.
    destruct (mapGet pluginName (Eff.state w)); exact Hw.
  - unfold unregister. run.
    destruct (mapGet pluginName (Eff.state w)) as [plugin|]; [|exact Hw].
    run. destruct (completion (plugin_destroy plugin (Eff.steps w)));
      cbn [snd Eff.state]; [now apply wellKeyed_delete|exact Hw|exact Hw].
  - unfold destroyAll. run.
    pose proof (destroy_each_state (List.map snd (Eff.state w)) w) as Hst.
    destruct (Eff.mapM _ (List.map snd (Eff.state w)) w) as [[us|e|] w'];
      cbn [snd Eff.state] in *; [apply wellKeyed_nil|now rewrite Hst..].
Qed.

Lemma performAll_wellKeyed (calls : list Call) :
  forall w : Eff.World Plugins,
    wellKeyed (Eff.state w) -> wellKeyed (Eff.state (performAll calls w)).
Proof.
  induction calls as [|c calls IH]; intros w Hw; [exact Hw|].
  cbn [performAll fold_left]. apply IH. now apply perform_wellKeyed.
Qed.

(** X20.  Whatever calls of [register], [initialize], [unregister] and
    [destroyAll] a new loader has served, whether they returned or threw,
    [getAll] lists plugins of pairwise distinct names, and [get] with the
    name of a listed plugin returns that plugin. *)
Theorem registered_names_distinct (calls : list Call) (steps : nat) :
  let w := performAll calls (Eff.mkWorld steps []) in
  exists l,
    getAll w = (Return l, w) /\
    NoDup (List.map name l) /\
    forall plugin, plugin ∈ l -> get (name plugin) w = (Return (Some plugin), w).
Proof.
  intros w.
  assert (wellKeyed (Eff.state w)) as [Hkeys Hnodup]
    by (apply performAll_wellKeyed, wellKeyed_nil).
  assert (forall m : Plugins,
            Forall (fun kv => fst kv = name (snd kv)) m ->
            NoDup (List.map fst m) ->
            NoDup (List.map name (List.map snd m)) /\
            forall plugin, plugin ∈ List.map snd m ->
                           mapGet (name plugin) m = Some plugin) as Hm.
  { clear. intros m Hkeys Hnodup. induction m as [|[k v] m IH].
    - split; [constructor|]. intros plugin Hin. now apply elem_of_nil in Hin.
    - cbn [List.map fst snd] in *.
      apply Forall_cons in Hkeys as [Hk Hkeys]. cbn [fst snd] in Hk. subst k.
      apply NoDup_cons in Hnodup as [Hfresh Hnodup].
      destruct (IH Hkeys Hnodup) as [IHnodup IHget].
      assert (List.map name (List.map snd m) = List.map fst m) as Hnames.
      { clear -Hkeys. induction m as [|[k v] m IH]; [reflexivity|].
        apply Forall_cons in Hkeys as [Hk Hkeys]. cbn [List.map fst snd] in *.
        now rewrite IH, Hk. }
      split.
      + apply NoDup_cons. split; [|exact IHnodup]. now rewrite Hnames.
      + intros plugin Hin. cbn [mapGet].
        apply elem_of_cons in Hin as [->|Hin].
        * now rewrite bool_decide_eq_true_2.
        * rewrite bool_decide_eq_false_2; [now apply IHget|].
          intros Heq. apply Hfresh. rewrite Heq, <- Hnames.
          apply list_elem_of_In, List.in_map, list_elem_of_In, Hin. }
  destruct (Hm _ Hkeys Hnodup) as [Hdistinct Hget].
  exists (List.map snd (Eff.state w)). split; [reflexivity|].
  split; [exact Hdistinct|]. intros plugin Hin. unfold get. run.
  now rewrite (Hget plugin Hin).
Qed.

(** *** [destroyAll] *)

Lemma destroy_each_returns (l : list IPlugin) :
  forall w : Eff.World Plugins,
    (forall i plugin,
       l !! i = Some plugin ->
       exists u, plugin_destroy plugin (Eff.steps w + i) = Returns u) ->
    exists us,
      Eff.mapM (fun plugin => Eff.call (plugin_destroy plugin)) l w
      = (Return us, Eff.mkWorld (Eff.steps w + length l) (Eff.state w)).
Proof.
  induction l as [|p l IH]; intros w Hall.
  - exists []. cbn [Eff.mapM length]. run. rewrite Nat.add_0_r.
    now destruct w.
  - destruct (Hall 0%nat p eq_refl) as [u Hu]. rewrite Nat.add_0_r in Hu.
    destruct (IH (Eff.mkWorld (S (Eff.steps w)) (Eff.state w))) as [us Hus].
    { intros i plugin Hi. cbn [Eff.steps].
      replace (S (Eff.steps w) + i)%nat with (Eff.steps w + S i)%nat by lia.
      now apply (Hall (S i)). }
    revert Hus. cbn [Eff.mapM length]. run. rewrite Hu. cbn [completion].
    intros ->. eexists.
    now replace (S (Eff.steps w) + length l)%nat
      with (Eff.steps w + S (length l))%nat by lia.
Qed.

Lemma destroy_each_throws (l : list IPlugin) :
  forall (w : Eff.World Plugins) (i : nat) (failing : IPlugin) (e : Exn),
    l !! i = Some failing ->
    plugin_destroy failing (Eff.steps w + i) = Throws e ->
    (forall j plugin,
       (j < i)%nat -> l !! j = Some plugin ->
       exists u, plugin_destroy plugin (Eff.steps w + j) = Returns u) ->
    Eff.mapM (fun plugin => Eff.call (plugin_destroy plugin)) l w
    = (Throw e, Eff.mkWorld (Eff.steps w + S i) (Eff.state w)).
Proof.
  induction l as [|p l IH]; intros w i failing e Hi He Hbefore;
    [discriminate|].
  destruct i as [|i].
  - injection Hi as ->. rewrite Nat.add_0_r in He.
    cbn [Eff.mapM]. run. rewrite He.
    cbn [completion]. now rewrite Nat.add_1_r.
  - destruct (Hbefore 0%nat p ltac:(lia) eq_refl) as [u Hu].
    rewrite Nat.add_0_r in Hu.
    assert (Eff.mapM (fun plugin => Eff.call (plugin_destroy plugin)) l
              (Eff.mkWorld (S (Eff.steps w)) (Eff.state w))
            = (Throw e, Eff.mkWorld (S (Eff.steps w) + S i) (Eff.state w)))
      as Hrest.
    { apply (IH (Eff.mkWorld (S (Eff.steps w)) (Eff.state w)) i failing e).
      - exact Hi.
      - cbn [Eff.steps].
        now replace (S (Eff.steps w) + i)%nat
          with (Eff.steps w + S i)%nat by lia.
      - intros j plugin Hj Hp. cbn [Eff.steps].
        replace (S (Eff.steps w) + j)%nat with (Eff.steps w + S j)%nat by lia.
        apply (Hbefore (S j)); [lia|exact Hp]. }
    revert Hrest. cbn [Eff.mapM]. run. rewrite Hu. cbn [completion].
    intros ->.
    now replace (S (Eff.steps w) + S i)%nat
      with (Eff.steps w + S (S i))%nat by lia.
Qed.

(** X21.  [destroyAll] destroys the plugins in the order of their
    registration.  When every [destroy] completes, the table is empty
    afterwards.  When the [destroy] of the plugin at position [i] raises,
    the error propagates, the plugins after it are not destroyed ([i + 1]
    calls were made) and the table is not cleared: every plugin, the
    destroyed ones included, is still registered. *)
Theorem destroyAll_outcome (w : Eff.World Plugins) :
  ((forall i plugin,
      List.map snd (Eff.state w) !! i = Some plugin ->
      exists u, plugin_destroy plugin (Eff.steps w + i) = Returns u) ->
   destroyAll w
   = (Return tt, Eff.mkWorld (Eff.steps w + length (Eff.state w)) [])) /\
  (forall i failing e,
     List.map snd (Eff.state w) !! i = Some failing ->
     plugin_destroy failing (Eff.steps w + i) = Throws e ->
     (forall j plugin,
        (j < i)%nat -> List.map snd (Eff.state w) !! j = Some plugin ->
        exists u, plugin_destroy plugin (Eff.steps w + j) = Returns u) ->
     destroyAll w = (Throw e, Eff.mkWorld (Eff.steps w + S i) (Eff.state w))).
Proof.
  split.
  - intros Hall. destruct (destroy_each_returns _ w Hall) as [us Hus].
    revert Hus. unfold destroyAll. run. intros ->.
    cbn [Eff.steps Eff.state]. now rewrite length_map.
  - intros i failing e Hi He Hbefore.
    pose proof (destroy_each_throws _ w i failing e Hi He Hbefore) as Hrun.
    revert Hrun. unfold destroyAll. run. now intros ->.
Qed.

(** *** [registerPlugins] of the engine *)

Lemma register_each (plugins : list IPlugin) :
  forall w : Eff.World Plugins,
    NoDup (List.map name plugins) ->
    (forall plugin, plugin ∈ plugins ->
                    mapGet (name plugin) (Eff.state w) = None) ->
    exists us,
      Eff.mapM register plugins w
      = (Return us,
         Eff.mkWorld (Eff.steps w)
           (Eff.state w ++ List.map (fun p => (name p, p)) plugins)).
Proof.
  induction plugins as [|p plugins IH]; intros w Hnodup Hfree.
  - exists []. cbn [Eff.mapM List.map]. run. rewrite app_nil_r.
    now destruct w.
  - cbn [Eff.mapM List.map] in *. apply NoDup_cons in Hnodup as [Hp Hnodup].
    unfold Eff.bind at 1. unfold register at 1, mapHas. run.
    rewrite (Hfree p) by apply list_elem_of_here. run.
    rewrite (mapSet_fresh _ _ _ (Hfree p (list_elem_of_here _ _))).
    destruct (IH (Eff.mkWorld (Eff.steps w) (Eff.state w ++ [(name p, p)])))
      as [us Hus]; [exact Hnodup| |].
    { intros q Hq. cbn [Eff.state]. rewrite mapGet_app.
      rewrite (Hfree q) by now apply list_elem_of_further.
      cbn [mapGet]. rewrite bool_decide_eq_false_2; [reflexivity|].
      intros Heq. apply Hp. rewrite Heq.
      apply list_elem_of_In, List.in_map, list_elem_of_In, Hq. }
    rewrite Hus. cbn [Eff.steps Eff.state]. eexists.
    now rewrite <- app_assoc.
Qed.

(** X22.  [registerPlugins] registers the plugins in order and stops at the
    first one whose name is taken, by the table or by an earlier plugin of
    the list: it throws "already registered" for that plugin, the plugins
    before it stay registered and those after it are not registered.  With
    pairwise distinct free names it registers all of them. *)
Theorem registerPlugins_stops_at_taken_name (w : Eff.World Plugins)
  (before after : list IPlugin) (taken : IPlugin) :
  NoDup (List.map name before) ->
  (forall plugin, plugin ∈ before ->
                  mapGet (name plugin) (Eff.state w) = None) ->
  (IQAuth.registerPlugins (Some before) w
   = (Return tt,
      Eff.mkWorld (Eff.steps w)
        (Eff.state w ++ List.map (fun p => (name p, p)) before))) /\
  (mapGet (name taken)
     (Eff.state w ++ List.map (fun p => (name p, p)) before) <> None ->
   IQAuth.registerPlugins (Some (before ++ taken :: after)) w
   = (Throw (JsError (already (name taken))),
      Eff.mkWorld (Eff.steps w)
        (Eff.state w ++ List.map (fun p => (name p, p)) before))).
Proof.
  intros Hnodup Hfree. unfold IQAuth.registerPlugins. split.
  - run. now destruct (register_each before w Hnodup Hfree) as [us ->].
  - intros Htaken. run.
    assert (forall (l l' : list IPlugin) (w0 : Eff.World Plugins),
              Eff.mapM register (l ++ l') w0 =
              Eff.bind (Eff.mapM register l)
                (fun ys => Eff.bind (Eff.mapM register l')
                             (fun ys' => Eff.ret (ys ++ ys'))) w0) as Happ.
    { induction l as [|x l IHl]; intros l' w0; cbn [Eff.mapM app].
      - run. now destruct (Eff.mapM register l' w0) as [[?| |] ?].
      - run. destruct (register x w0) as [[?| |] w1]; [|reflexivity..].
        rewrite IHl. run.
        destruct (Eff.mapM register l w1) as [[?| |] w2]; [|reflexivity..].
        now destruct (Eff.mapM register l' w2) as [[?| |] ?]. }
    rewrite Happ. run.
    destruct (register_each before w Hnodup Hfree) as [us ->].
    cbn [Eff.mapM]. run. unfold register at 1, mapHas. run.
    destruct (mapGet (name taken) _); [reflexivity|congruence].
Qed.

(** *** The theorems at the plugins of the examples *)

Lemma destroyAll_outcome_witness :
  List.map snd (Eff.state Examples.loader) !! 1%nat
    = Some Examples.brokenPlugin /\
  destroyAll Examples.loader
  = (Throw (JsError (lit "provider still connected")),
     Eff.mkWorld (Eff.steps Examples.loader + 2) (Eff.state Examples.loader)).
Proof.
  split; [reflexivity|].
  destruct (destroyAll_outcome Examples.loader) as [_ Hfails].
  apply (Hfails 1%nat Examples.brokenPlugin
           (JsError (lit "provider still connected")) eq_refl eq_refl).
  intros j plugin Hj Hplugin. destruct j as [|j]; [|lia].
  injection Hplugin as <-. now exists tt.
Defined.

Lemma registerPlugins_stops_at_taken_name_witness :
  NoDup (List.map name [Examples.tidyPlugin]) /\
  IQAuth.registerPlugins
    (Some [Examples.tidyPlugin; Examples.tidyPlugin; Examples.brokenPlugin])
    (Eff.mkWorld 0 [])
  = (Throw (JsError (already (name Examples.tidyPlugin))),
     Eff.mkWorld 0 [(name Examples.tidyPlugin, Examples.tidyPlugin)]).
Proof.
  assert (NoDup (List.map name [Examples.tidyPlugin])) as Hnodup
    by (apply NoDup_singleton).
  assert (forall plugin,
            plugin ∈ [Examples.tidyPlugin] ->
            mapGet (name plugin) (Eff.state (Eff.mkWorld 0 [])) = None)
    as Hfree by reflexivity.
  split; [exact Hnodup|].
  destruct (registerPlugins_stops_at_taken_name (Eff.mkWorld 0 [])
              [Examples.tidyPlugin] [Examples.brokenPlugin]
              Examples.tidyPlugin Hnodup Hfree) as [_ Hstops].
  apply Hstops. vm_compute. discriminate.
Defined.

End PluginTableFacts.

(** ** The in-memory store *)

Module InMemoryStorageFacts.

Import InMemoryStorage InMemoryStorageAdmin.


(** X24.  [exists] answers [true] exactly when [get] on the same store
    returns a value, and the two leave the same store behind: both drop an
    entry whose time has passed. *)
Theorem exists_agrees_with_get (rt : Runtime) (key : jsstring)
  (w : Eff.World Store) :
  exists_ rt key w
  = (mapCompletion (fun found => bool_decide (is_Some found))
       (fst (get rt key w)),
     snd (get rt key w)).
Proof.
  unfold exists_, get. run.
  destruct (Eff.state w !! key) as [entry|]; [|reflexivity].
  destruct (expired rt entry w) as [[[|]| |] w']; reflexivity.
Qed.

(** X25.  An entry whose time has passed stays in the store until it is
    read: [size] counts it, [delete] reports that it removed an entry
    although [exists] on the same store answers [false], and after a [get]
    the size is one less. *)
Theorem expired_entry_lingers (rt : Runtime) (key : jsstring)
  (entry : StorageEntry) (e : Z) (w : Eff.World Store) :
  Eff.state w !! key = Some entry ->
  expiresAt entry = Some e ->
  e <> 0 ->
  e < dateNow rt (Eff.steps w) ->
  fst (exists_ rt key w) = Return false /\
  fst (delete key w) = Return true /\
  exists n,
    fst (size w) = Return (S n) /\
    fst (size (snd (get rt key w))) = Return n.
Proof.
  intros Hkey Hexp He Hnow.
  unfold exists_, delete, get, size, expired. run. rewrite Hkey, Hexp.
  destruct (Z.eqb_spec e 0) as [|_]; [contradiction|]. run.
  destruct (Z.ltb_spec e (dateNow rt (Eff.steps w))); [|lia]. run.
  split; [reflexivity|]. split.
  - now rewrite bool_decide_eq_true_2 by now eexists.
  - exists (base.size (base.delete key (Eff.state w))).
    split; [|reflexivity]. f_equal.
    rewrite <- (insert_delete_id (Eff.state w) key entry Hkey) at 1.
    rewrite map_size_insert_None by apply lookup_delete_eq. reflexivity.
Qed.

(** *** The theorems at a concrete store *)


Lemma expired_entry_lingers_witness :
  Eff.state StoreExamples.held !! lit "session" = Some StoreExamples.heldEntry
  /\
  1700000001000
    < dateNow StoreExamples.sparseRuntime (Eff.steps StoreExamples.held) /\
  fst (exists_ StoreExamples.sparseRuntime (lit "session") StoreExamples.held)
    = Return false /\
  fst (delete (lit "session") StoreExamples.held) = Return true.
Proof.
  assert (Eff.state StoreExamples.held !! lit "session"
          = Some StoreExamples.heldEntry) as Hheld
    by (vm_compute; reflexivity).
  assert (1700000001000
          < dateNow StoreExamples.sparseRuntime
              (Eff.steps StoreExamples.held)) as Hlate
    by (vm_compute; reflexivity).
  split; [exact Hheld|]. split; [exact Hlate|].
  destruct (expired_entry_lingers StoreExamples.sparseRuntime (lit "session")
              StoreExamples.heldEntry 1700000001000 StoreExamples.held
              Hheld eq_refl ltac:(discriminate) Hlate)
    as (Hexists & Hdelete & _).
  split; [exact Hexists|exact Hdelete].
Defined.

End InMemoryStorageFacts.
